(** * SmartEducate: the face-recognition matching pipeline

    A shallow embedding of [src/ai_services/face_recognition_service.py]:
    the bounded-retry detector, the enrollment entry point
    [get_face_embedding], the per-face matcher [process_single_face], the batch
    entry point [recognize_faces] and the [/recognize] endpoint
    [recognize_students]; then the download of an image, the [/encode]
    endpoint with [get_face_embedding_from_url], and the arithmetic of the
    resize in [preprocess_image].

    Python floats are IEEE binary64 numbers: they are modelled by Rocq's
    primitive floats.  [numpy] subtracts and takes square roots with one
    rounding each; the dot product under [np.linalg.norm] is the one of the
    BLAS [numpy] is linked with, whose order of summation and fusing of
    multiplications and additions depend on the build: it is a capability
    too.  The external capabilities (OpenCV, DeepFace, MongoDB,
    the file system, [uuid], [requests]) are the fields of a record of
    oracles; every call to one of them is recorded in the state, and an
    oracle may answer differently each time it is called. *)

From Stdlib Require Import ZArith List Floats Lia Bool.
From stdpp Require Import base option list strings gmap pretty.

Local Open Scope Z_scope.

(** ** Values *)

(** A [numpy] pixel buffer.  The pipeline never looks inside it. *)
Definition ndarray := list Z.

(** An entry of the list returned by [DeepFace.extract_faces]: a dict whose
    ['face'] key holds the crop. *)
Record Face := { face : ndarray }.

(** An entry of the list returned by [DeepFace.represent]: a dict that may
    hold an ['embedding'] key. *)
Record Representation := { rep_embedding : option (list float) }.

(** A document of the [students] collection under the projection
    [{"studentId": 1, "embedding": 1, "_id": 0}]. *)
Record Student := { studentId : string; embedding : list float }.

(** The classes of the exceptions the libraries raise.  [Timeout] is a
    [RequestException]; all of them are [Exception]s. *)
Inductive exn_class :=
| Timeout
| RequestException
| ValueError
| IndexError
| KeyError
| OSError
| OtherError.

(** A Python exception: FastAPI's [HTTPException], which only the service
    itself raises, or an exception of a library class with its message. *)
Inductive exn :=
| HTTPException (status_code : Z) (detail : string)
| Raised (cls : exn_class) (msg : string).

(** What a failing library call raises. *)
Definition failure : Type := exn_class * string.

(** [str(e)]; for an [HTTPException] the status code and the detail. *)
Definition str (e : exn) : string :=
  match e with
  | HTTPException c d => pretty c +:+ ": " +:+ d
  | Raised _ m => m
  end.

(** [isinstance(e, HTTPException)] *)
Definition is_HTTPException (e : exn) : bool :=
  match e with HTTPException _ _ => true | Raised _ _ => false end.

(** The levels of the log records the service emits. *)
Inductive level := INFO | WARNING | ERROR.

(** The body of the [/recognize] response. *)
Record Response := {
  status : string;
  recognized_students : list string;
  count : Z
}.

(** ** The outside world *)

(** A call to an external capability, as recorded in the state. *)
Inductive call :=
| CallFind
| CallUuid4
| CallImwrite (path : string)
| CallExtractFaces (img_path : string)
| CallRepresent (img_path : string)
| CallNorm
| CallSleep (seconds : Z)
| CallRemove (path : string)
| CallGet (url : string)
| CallImencode.

(** The capabilities.  The first argument of a stateful one is the number of
    external calls made so far, so that it may answer differently each time
    (a flaky detector, a time-out); a capability that reads a file is
    given what the file holds, if it exists.

    [cv2.imdecode] returns an image, or [None] for bytes it cannot decode,
    or raises (on an empty buffer).

    [blas_ddot x y] is [x.dot(y)] on vectors of binary64 numbers: the sum
    of the products [x[i] * y[i]], rounded as the BLAS does.  One fact holds
    of every way to sum: products and sums of zeros are zero. *)
Record Capabilities := {
  cv2_imdecode : list Byte.byte -> failure + option ndarray;
  cv2_transforms : ndarray -> failure + ndarray;
  cv2_imencode : nat -> ndarray -> failure + (bool * list Byte.byte);
  cv2_imwrite : nat -> string -> ndarray -> failure + bool;
  uuid4_hex : nat -> string;
  DeepFace_extract_faces : nat -> option ndarray -> failure + list Face;
  DeepFace_represent : nat -> option ndarray -> failure + list Representation;
  students_find : nat -> failure + list Student;
  os_remove : nat -> string -> option failure;
  requests_get_image : nat -> string -> failure + ndarray;
  blas_ddot : list float -> list float -> float;
  blas_ddot_zeros : forall n,
    blas_ddot (replicate n 0%float) (replicate n 0%float) = 0%float
}.

(** The state a method runs in: the files on disk, the log, the external
    calls made so far (most recent first), and [temp_img_path], the one
    local variable that is assigned inside a [try] and read by its
    [finally]. *)
Record State := {
  fs : gmap string ndarray;
  log : list (level * string);
  calls : list call;
  temp_img_path : option string
}.

(** The number of external calls made so far. *)
Definition now (w : State) : nat := length (calls w).

(** ** A monad for state and exceptions *)

(** A computation: from a state, a value or the exception raised, and the
    state it leaves. *)
Definition M (A : Type) : Type := State -> (exn + A) * State.

Definition ret {A} (a : A) : M A := fun w => (inr a, w).

Definition raise {A} (e : exn) : M A := fun w => (inl e, w).

Definition bind {A B} (m : M A) (k : A -> M B) : M B :=
  fun w =>
    match m w with
    | (inr a, w') => k a w'
    | (inl e, w') => (inl e, w')
    end.

Declare Scope M_scope.
Delimit Scope M_scope with M.
Notation "x ← y ; z" := (bind y (fun x => z))
  (at level 20, y at level 100, z at level 200, only parsing) : M_scope.
Notation "x ;; z" := (bind x (fun _ => z))
  (at level 100, z at level 200, only parsing, right associativity) : M_scope.
Local Open Scope M_scope.

(** [try: body except Exception as e: handler e]. *)
Definition try_except {A} (body : M A) (handler : exn -> M A) : M A :=
  fun w =>
    match body w with
    | (inr a, w') => (inr a, w')
    | (inl e, w') => handler e w'
    end.

(** [try: body finally: cleanup]: the cleanup runs on every exit path, and
    an exception raised by the cleanup replaces the outcome of the body. *)
Definition try_finally {A} (body : M A) (cleanup : M unit) : M A :=
  fun w =>
    match body w with
    | (r, w') =>
        match cleanup w' with
        | (inr _, w'') => (r, w'')
        | (inl e, w'') => (inl e, w'')
        end
    end.

(** Record an external call. *)
Definition record (c : call) : M unit :=
  fun w => (inr tt, {| fs := fs w; log := log w; calls := c :: calls w;
                       temp_img_path := temp_img_path w |}).

(** [logger.info], [logger.warning] and [logger.error] *)
Definition logger (l : level) (msg : string) : M unit :=
  fun w => (inr tt, {| fs := fs w; log := log w ++ [(l, msg)]; calls := calls w;
                       temp_img_path := temp_img_path w |}).

(** Assignment to the local variable [temp_img_path], and its value. *)
Definition set_temp_img_path (p : option string) : M unit :=
  fun w => (inr tt, {| fs := fs w; log := log w; calls := calls w;
                       temp_img_path := p |}).

Definition get_temp_img_path : M (option string) :=
  fun w => (inr (temp_img_path w), w).

(** The outcome of a library call: its value, or the exception it raises. *)
Definition outcome {A} (r : failure + A) : exn + A :=
  match r with
  | inl f => inl (Raised f.1 f.2)
  | inr a => inr a
  end.

(** A library call that leaves the state alone. *)
Definition lift {A} (r : failure + A) : M A := fun w => (outcome r, w).

(** What one round of a [for] loop does next. *)
Inductive round (A : Type) :=
| Return (a : A)
| Continue.
Arguments Return {A} a.
Arguments Continue {A}.

(** ** The file system and the other capabilities as actions *)

Section Service.

Variable env : Capabilities.

(** [uuid.uuid4().hex] *)
Definition uuid4 : M string :=
  fun w => (record CallUuid4 ;; ret (uuid4_hex env (now w))) w.

(** [cv2.imwrite(path, img)]: writes the file when it answers [True]. *)
Definition imwrite (path : string) (img : ndarray) : M bool :=
  fun w =>
    match cv2_imwrite env (now w) path img with
    | inl f => (record (CallImwrite path) ;; raise (Raised f.1 f.2)) w
    | inr true =>
        (record (CallImwrite path) ;; ret true)
          {| fs := <[path := img]> (fs w); log := log w; calls := calls w;
             temp_img_path := temp_img_path w |}
    | inr false => (record (CallImwrite path) ;; ret false) w
    end.

(** [os.path.exists(path)] *)
Definition os_path_exists (path : string) : M bool :=
  fun w => (inr (bool_decide (is_Some (fs w !! path))), w).

(** [os.remove(path)] *)
Definition remove_file (path : string) : M unit :=
  fun w =>
    match os_remove env (now w) path with
    | Some f => (record (CallRemove path) ;; raise (Raised f.1 f.2)) w
    | None =>
        (record (CallRemove path))
          {| fs := delete path (fs w); log := log w; calls := calls w;
             temp_img_path := temp_img_path w |}
    end.

(** [time.sleep(seconds)] *)
Definition sleep (seconds : Z) : M unit := record (CallSleep seconds).

(** [DeepFace.extract_faces(img_path=img_path, detector_backend='retinaface',
    enforce_detection=False, align=True)] *)
Definition extract_faces (img_path : string) : M (list Face) :=
  fun w =>
    (record (CallExtractFaces img_path) ;;
     lift (DeepFace_extract_faces env (now w) (fs w !! img_path))) w.

(** [DeepFace.represent(img_path=img_path, model_name='ArcFace', ...)] *)
Definition represent (img_path : string) : M (list Representation) :=
  fun w =>
    (record (CallRepresent img_path) ;;
     lift (DeepFace_represent env (now w) (fs w !! img_path))) w.

(** [list(self.students.find({"embedding": {"$exists": True}}, ...))] *)
Definition find_students : M (list Student) :=
  fun w => (record CallFind ;; lift (students_find env (now w))) w.

(** ** [numpy] on one-dimensional arrays of floats *)

(** [np.array(a) - np.array(b)], with numpy's broadcasting of an array of
    length one; other shapes that differ raise [ValueError]. *)
Definition np_subtract (a b : list float) : failure + list float :=
  if (length a =? length b)%nat then inr (zip_with PrimFloat.sub a b)
  else
    match a, b with
    | [x], _ => inr (map (fun y => PrimFloat.sub x y) b)
    | _, [y] => inr (map (fun x => PrimFloat.sub x y) a)
    | _, _ => inl (ValueError, "operands could not be broadcast together")
    end.

(** [np.linalg.norm(x)] for a vector: [sqrt(x.dot(x))], the dot product
    being the BLAS's and the square root correctly rounded. *)
Definition np_linalg_norm (x : list float) : float :=
  PrimFloat.sqrt (blas_ddot env x x).

(** Euclidean (L2) distance: [np.linalg.norm(np.array(a) - np.array(b))]. *)
Definition euclidean (a b : list float) : failure + float :=
  match np_subtract a b with
  | inl f => inl f
  | inr d => inr (np_linalg_norm d)
  end.

(** The same as an action: the call is recorded. *)
Definition norm_of_difference (a b : list float) : M float :=
  record CallNorm ;; lift (euclidean a b).

(** ** [preprocess_image] (lines 42-71)

    The colour conversion, the resize and the contrast enhancement are
    OpenCV calls on the pixel buffer; an exception is logged and raised
    again. *)
Definition preprocess_image (image : ndarray) : M ndarray :=
  try_except (lift (cv2_transforms env image))
    (fun e => logger ERROR ("Error preprocessing image: " +:+ str e) ;; raise e).

(** ** [download_image_as_array] (lines 73-98) *)

(** Lines 76-84: [requests.get(url, timeout=10)], [raise_for_status],
    [Image.open], [np.array] and the colour conversion. *)
Definition requests_get (url : string) : M ndarray :=
  fun w => (record (CallGet url) ;; lift (requests_get_image env (now w) url)) w.

Definition download_image_as_array (url : string) : M ndarray :=
  try_except
    (image_array ← requests_get url ;
     preprocess_image image_array)
    (fun e =>
       match e with
       | Raised Timeout _ =>
           logger ERROR "Timeout downloading image" ;;
           raise (HTTPException 408 "Timeout downloading image")
       | Raised RequestException _ =>
           logger ERROR ("Error downloading image: " +:+ str e) ;;
           raise (HTTPException 400 ("Failed to download image: " +:+ str e))
       | _ =>
           logger ERROR ("Error processing downloaded image: " +:+ str e) ;;
           raise (HTTPException 500 ("Error processing image: " +:+ str e))
       end).

(** ** [get_all_embeddings] (lines 112-123) *)
Definition get_all_embeddings : M (list Student) :=
  try_except
    (students ← find_students ;
     (match students with
      | [] => logger WARNING "No student embeddings found in database"
      | _ => ret tt
      end) ;;
     ret students)
    (fun e =>
       logger ERROR ("Database error while fetching embeddings: " +:+ str e) ;;
       raise (HTTPException 500 ("Database error: " +:+ str e))).

(** ** [extract_faces_with_retry] (lines 125-147) *)

(** The body of [for attempt in range(max_retries)]. *)
Definition extract_faces_attempt (img_path : string) (max_retries attempt : Z)
    : M (round (list Face)) :=
  try_except
    (faces ← extract_faces img_path ;
     match faces with
     | _ :: _ => ret (Return faces)
     | [] =>
         (if attempt <? max_retries - 1 then
            logger WARNING ("No faces detected, attempt " +:+ pretty (attempt + 1)
                            +:+ "/" +:+ pretty max_retries) ;;
            sleep 1
          else ret tt) ;;
         ret Continue
     end)
    (fun e =>
       if attempt <? max_retries - 1 then
         logger WARNING ("Face detection failed, attempt " +:+ pretty (attempt + 1)
                         +:+ "/" +:+ pretty max_retries +:+ ": " +:+ str e) ;;
         sleep 1 ;;
         ret Continue
       else raise e).

(** The loop, over the attempts that remain; [return []] ends it. *)
Fixpoint extract_faces_rounds (img_path : string) (max_retries : Z)
    (attempts : list Z) : M (list Face) :=
  match attempts with
  | [] => ret []
  | attempt :: rest =>
      r ← extract_faces_attempt img_path max_retries attempt ;
      match r with
      | Return faces => ret faces
      | Continue => extract_faces_rounds img_path max_retries rest
      end
  end.

(** [range(n)] *)
Definition range (n : Z) : list Z := map Z.of_nat (seq 0 (Z.to_nat n)).

Definition extract_faces_with_retry (img_path : string) (max_retries : Z)
    : M (list Face) :=
  extract_faces_rounds img_path max_retries (range max_retries).

(** The default of [max_retries]; no caller passes another value. *)
Definition default_max_retries : Z := 3.

(** ** The [finally] blocks (lines 204-209, 241-246 and 296-301) *)

(** Truth value of a Python string. *)
Definition truthy (s : string) : bool := negb (String.eqb s "").

(** [try: os.remove(path) except Exception as e: logger.warning(...)] *)
Definition remove_or_warn (path warning : string) : M unit :=
  try_except (remove_file path)
    (fun e => logger WARNING (warning +:+ str e)).

(** [if temp_img_path and os.path.exists(temp_img_path): try: os.remove(...)
    except Exception as e: logger.warning(...)] *)
Definition cleanup_temp_img : M unit :=
  p ← get_temp_img_path ;
  match p with
  | None => ret tt
  | Some path =>
      if truthy path then
        there ← os_path_exists path ;
        if there : bool
        then remove_or_warn path "Failed to remove temporary file: "
        else ret tt
      else ret tt
  end.

(** [if os.path.exists(face_path): try: os.remove(face_path) except ...] *)
Definition cleanup_face (face_path : string) : M unit :=
  there ← os_path_exists face_path ;
  if there : bool
  then remove_or_warn face_path "Failed to remove temporary face file: "
  else ret tt.

(** ** [get_face_embedding] (lines 161-209) *)

(** Lines 164-171: decode and preprocess. *)
Definition decode_and_preprocess (image_bytes : list Byte.byte) : M ndarray :=
  decoded ← lift (cv2_imdecode env image_bytes) ;
  img ← match decoded with
        | None => raise (Raised ValueError "Failed to decode image")
        | Some img => ret img
        end ;
  preprocess_image img.

(** Lines 173-178 and 267-272: save the image under a fresh name and detect
    the faces in it. *)
Definition save_and_detect (img : ndarray) : M (string * list Face) :=
  hex ← uuid4 ;
  let path := "temp_" +:+ hex +:+ ".jpg" in
  set_temp_img_path (Some path) ;;
  imwrite path img ;;
  faces ← extract_faces_with_retry path default_max_retries ;
  ret (path, faces).

(** Lines 180-197: exactly one face is required; it is then embedded. *)
Definition single_embedding (path : string) (faces : list Face) : M (list float) :=
  match faces with
  | [] => raise (HTTPException 400 "No face detected in image")
  | _ :: _ :: _ => raise (HTTPException 400 "Multiple faces detected in image")
  | [_] =>
      embedding_objs ← represent path ;
      match embedding_objs with
      | [] => raise (Raised ValueError "Failed to generate embedding")
      | obj :: _ =>
          match rep_embedding obj with
          | None | Some [] => raise (Raised ValueError "Failed to generate embedding")
          | Some e => ret e
          end
      end
  end.

(** The [try] block with its [except] clauses. *)
Definition get_face_embedding_try (image_bytes : list Byte.byte) : M (list float) :=
  try_except
    (img ← decode_and_preprocess image_bytes ;
     pf ← save_and_detect img ;
     single_embedding pf.1 pf.2)
    (fun e =>
       if is_HTTPException e then raise e
       else
         logger ERROR ("Error processing face: " +:+ str e) ;;
         raise (HTTPException 500 ("Error processing face: " +:+ str e))).

(** [temp_img_path = None], then the [try] block under its [finally]. *)
Definition get_face_embedding (image_bytes : list Byte.byte) : M (list float) :=
  set_temp_img_path None ;;
  try_finally (get_face_embedding_try image_bytes) cleanup_temp_img.

(** Lines 162-178: what [get_face_embedding] does up to the detection. *)
Definition enrollment_detection (image_bytes : list Byte.byte)
    : M (string * list Face) :=
  set_temp_img_path None ;;
  img ← decode_and_preprocess image_bytes ;
  save_and_detect img.

(** ** [process_single_face] (lines 211-246) *)

(** [embedding[0]['embedding']] *)
Definition first_embedding (embedding_objs : list Representation) : M (list float) :=
  match embedding_objs with
  | [] => raise (Raised IndexError "list index out of range")
  | obj :: _ =>
      match rep_embedding obj with
      | None => raise (Raised KeyError "'embedding'")
      | Some e => ret e
      end
  end.

(** The threshold for face matching, [0.6]: the binary64 number nearest to
    six tenths. *)
Definition threshold : float := 0x1.3333333333333p-1%float.

(** Lines 228-236: the loop over the students, from the values
    [min_distance] and [matched_student] have when a round starts. *)
Fixpoint compare_students (embedding_objs : list Representation)
    (students : list Student) (min_distance : float)
    (matched_student : option string) : M (option string) :=
  match students with
  | [] => ret matched_student
  | student :: rest =>
      query ← first_embedding embedding_objs ;
      distance ← norm_of_difference query (embedding student) ;
      if PrimFloat.ltb distance min_distance && PrimFloat.ltb distance threshold
      then compare_students embedding_objs rest distance (Some (studentId student))
      else compare_students embedding_objs rest min_distance matched_student
  end.

(** Lines 224-236: the matcher. *)
Definition match_students (embedding_objs : list Representation)
    (students : list Student) : M (option string) :=
  compare_students embedding_objs students infinity None.

(** [f"temp_face_{uuid.uuid4().hex}_{face_idx}.jpg"] *)
Definition face_path_of (hex : string) (face_idx : Z) : string :=
  "temp_face_" +:+ hex +:+ "_" +:+ pretty face_idx +:+ ".jpg".

(** Lines 215-236: the body of the [try] block. *)
Definition embed_and_match (face_path : string) (f : Face)
    (students : list Student) : M (option string) :=
  imwrite face_path (face f) ;;
  embedding_objs ← represent face_path ;
  match_students embedding_objs students.

(** The [try] block with its [except] clause. *)
Definition process_single_face_try (face_path : string) (f : Face) (face_idx : Z)
    (students : list Student) : M (option string) :=
  try_except (embed_and_match face_path f students)
    (fun e =>
       logger ERROR ("Error processing face " +:+ pretty face_idx +:+ ": " +:+ str e) ;;
       ret None).

(** The name of the crop file is drawn before the [try] block, whose
    [finally] removes the file. *)
Definition process_single_face (f : Face) (face_idx : Z) (students : list Student)
    : M (option string) :=
  hex ← uuid4 ;
  let face_path := face_path_of hex face_idx in
  try_finally (process_single_face_try face_path f face_idx students)
    (cleanup_face face_path).

(** ** [recognize_faces] (lines 248-301) *)

(** Lines 283-286: [for idx, face in enumerate(faces)], from the index and
    the list [recognized_students] a round starts with. *)
Fixpoint recognize_loop (students : list Student) (idx : Z) (faces : list Face)
    (recognized : list string) : M (list string) :=
  match faces with
  | [] => ret recognized
  | f :: rest =>
      result ← process_single_face f idx students ;
      match result with
      | Some id =>
          if truthy id
          then recognize_loop students (idx + 1) rest (recognized ++ [id])
          else recognize_loop students (idx + 1) rest recognized
      | None => recognize_loop students (idx + 1) rest recognized
      end
  end.

(** Lines 277-291: what is done with the detected faces. *)
Definition recognize_detected (students : list Student) (faces : list Face)
    : M (list string) :=
  logger INFO ("Detected " +:+ pretty (Z.of_nat (length faces)) +:+ " faces in image") ;;
  recognized ← recognize_loop students 0 faces [] ;
  (match recognized with
   | [] => logger WARNING "No students were recognized in the detected faces"
   | _ => ret tt
   end) ;;
  ret recognized.

(** The [try] block with its [except] clause. *)
Definition recognize_faces_try (image_bytes : list Byte.byte) : M (list string) :=
  try_except
    (img ← decode_and_preprocess image_bytes ;
     students ← get_all_embeddings ;
     match students with
     | [] =>
         logger WARNING "No student embeddings available for comparison" ;;
         ret []
     | _ :: _ =>
         pf ← save_and_detect img ;
         match pf.2 with
         | [] => logger WARNING "No faces detected in image" ;; ret []
         | _ :: _ => recognize_detected students pf.2
         end
     end)
    (fun e =>
       logger ERROR ("Error recognizing faces: " +:+ str e) ;;
       raise (HTTPException 500 (str e))).

(** [temp_img_path = None], then the [try] block under its [finally]. *)
Definition recognize_faces (image_bytes : list Byte.byte) : M (list string) :=
  set_temp_img_path None ;;
  try_finally (recognize_faces_try image_bytes) cleanup_temp_img.

(** ** The [/recognize] endpoint: [recognize_students] (lines 320-342) *)

(** [cv2.imencode('.jpg', image_array)] and [buffer.tobytes()] *)
Definition imencode (image_array : ndarray) : M (bool * list Byte.byte) :=
  fun w => (record CallImencode ;; lift (cv2_imencode env (now w) image_array)) w.

Definition recognize_students (image_url : string) : M Response :=
  try_except
    (image_array ← download_image_as_array image_url ;
     sb ← imencode image_array ;
     if sb.1 : bool then
       recognized ← recognize_faces sb.2 ;
       ret {| status := "success";
              recognized_students := recognized;
              count := Z.of_nat (length recognized) |}
     else raise (Raised ValueError "Failed to encode image as JPG"))
    (fun e =>
       logger ERROR ("Error in recognize_students: " +:+ str e) ;;
       if is_HTTPException e then raise e
       else raise (HTTPException 500 (str e))).

End Service.

(** ** The [/encode] endpoint (lines 149-159 and 305-318) *)

(** The body of the [/encode] response. *)
Record EncodeResponse := {
  encode_status : string;
  encode_embedding : list float
}.

Section Encode.

Variable env : Capabilities.

(** [get_face_embedding_from_url] (lines 149-159): download, encode as
    JPEG, then [get_face_embedding]; the one [except] clause turns every
    exception into an [HTTPException] of status 500. *)
Definition get_face_embedding_from_url (image_url : string) : M (list float) :=
  try_except
    (image_array ← download_image_as_array env image_url ;
     sb ← imencode env image_array ;
     if sb.1 : bool then get_face_embedding env sb.2
     else raise (Raised ValueError "Failed to encode image as JPG"))
    (fun e =>
       logger ERROR ("Error processing image URL: " +:+ str e) ;;
       raise (HTTPException 500 (str e))).

(** [encode_face_url] (lines 305-318).  The embedding is a list, which
    the test [isinstance(embedding, np.ndarray)] leaves as it is. *)
Definition encode_face_url (image_url : string) : M EncodeResponse :=
  try_except
    (embedding ← get_face_embedding_from_url image_url ;
     ret {| encode_status := "success"; encode_embedding := embedding |})
    (fun e =>
       logger ERROR ("Error in encode_face_url: " +:+ str e) ;;
       if is_HTTPException e then raise e
       else raise (HTTPException 500 (str e))).

End Encode.

(** ** The shape handed to [cv2.resize] (lines 51-57 of [preprocess_image])

    The resize itself is part of the oracle [cv2_transforms]; the shape it
    is asked for is computed by the service, in binary64 arithmetic. *)

(** [float(n)], for an integer the binary64 format holds exactly. *)
Definition float_of_int (n : Z) : float :=
  if n <? 0 then PrimFloat.opp (PrimFloat.of_uint63 (Uint63.of_Z (- n)))
  else PrimFloat.of_uint63 (Uint63.of_Z n).

(** [int(x)]: truncation towards zero; Python raises on an infinity and on
    a NaN. *)
Definition int_of_float (x : float) : option Z :=
  match Prim2SF x with
  | S754_zero _ => Some 0
  | S754_finite s m e =>
      let magnitude := if 0 <=? e then Z.shiftl (Z.pos m) e
                       else Z.shiftr (Z.pos m) (- e) in
      Some (if s then - magnitude else magnitude)
  | S754_infinity _ | S754_nan => None
  end.

Definition max_dimension : Z := 1200.

(** [height > max_dimension or width > max_dimension] *)
Definition needs_resize (height width : Z) : bool :=
  (max_dimension <? height) || (max_dimension <? width).

(** [int(side * scale)], where [scale = max_dimension / longest]. *)
Definition scaled (side longest : Z) : option Z :=
  let scale := PrimFloat.div (float_of_int max_dimension) (float_of_int longest) in
  int_of_float (PrimFloat.mul (float_of_int side) scale).

(** [(new_width, new_height)] *)
Definition resized_shape (height width : Z) : option (Z * Z) :=
  match scaled width (Z.max height width), scaled height (Z.max height width) with
  | Some new_width, Some new_height => Some (new_width, new_height)
  | _, _ => None
  end.

(** * Vocabulary of the statements *)

(** A detection that found at least one face. *)
Definition found (a : failure + list Face) : bool :=
  match a with
  | inr (_ :: _) => true
  | _ => false
  end.

(** The number of calls of the detector among some calls. *)
Fixpoint detections (l : list call) : nat :=
  match l with
  | [] => 0
  | CallExtractFaces _ :: rest => S (detections rest)
  | _ :: rest => detections rest
  end.

(** What a computation does to the state, whatever it returns. *)
Definition always {A} (R : State -> State -> Prop) (m : M A) : Prop :=
  forall w, R w (m w).2.

(** The calls made between two states all satisfy [P]. *)
Definition adds (P : call -> Prop) (w w' : State) : Prop :=
  exists added, calls w' = added ++ calls w /\ Forall P added.

(** Between two states: no file written in between is left, and no file
    appeared. *)
Definition clean (w w' : State) : Prop :=
  exists added, calls w' = added ++ calls w /\
    (forall p, CallImwrite p ∈ added -> fs w' !! p = None) /\
    (forall p, fs w !! p = None -> fs w' !! p = None).

(** [clean], and the local variable [temp_img_path] is left alone. *)
Definition tidy (w w' : State) : Prop :=
  temp_img_path w' = temp_img_path w /\ clean w w'.

(** [clean] up to the file named by [temp_img_path]. *)
Definition owes (w w' : State) : Prop :=
  exists added, calls w' = added ++ calls w /\
    (forall p, CallImwrite p ∈ added ->
       fs w' !! p = None \/ (temp_img_path w' = Some p /\ truthy p = true)) /\
    (forall p, fs w !! p = None ->
       fs w' !! p = None \/ (temp_img_path w' = Some p /\ truthy p = true)).

(** [tidy] up to the file [path]. *)
Definition leaves (path : string) (w w' : State) : Prop :=
  temp_img_path w' = temp_img_path w /\
  exists added, calls w' = added ++ calls w /\
    (forall p, CallImwrite p ∈ added -> fs w' !! p = None \/ p = path) /\
    (forall p, fs w !! p = None -> fs w' !! p = None \/ p = path).

(** The exceptions a computation may raise all satisfy [P]. *)
Definition raises {A} (P : exn -> Prop) (m : M A) : Prop :=
  forall w e w', m w = (inl e, w') -> P e.

(** An exception raised by a library, not by the service. *)
Definition from_library (e : exn) : Prop := is_HTTPException e = false.

(** A call other than the fetch of the registry. *)
Definition not_fetch (c : call) : Prop := c <> CallFind.

(** The match recorded for a face: none when its processing raised. *)
Definition recorded (r : exn + option string) : option string :=
  match r with
  | inr m => m
  | inl _ => None
  end.

(** The match of each face, the faces being processed in turn. *)
Fixpoint face_results (env : Capabilities) (students : list Student) (idx : Z)
    (faces : list Face) (w : State) : list (option string) :=
  match faces with
  | [] => []
  | f :: rest =>
      let rw := process_single_face env f idx students w in
      recorded rw.1 :: face_results env students (idx + 1) rest rw.2
  end.

(** The state of [recognize_faces] once the registry is fetched, from the
    state [w] the call started in. *)
Definition fetched (w : State) : State :=
  {| fs := fs w; log := log w; calls := CallFind :: calls w; temp_img_path := None |}.

(** The state in which the loop over the detected faces starts, from the
    state [w] the detection left: the number of faces is logged. *)
Definition after_detection (faces : list Face) (w : State) : State :=
  (logger INFO ("Detected " +:+ pretty (Z.of_nat (length faces)) +:+ " faces in image")
     w).2.

(** The identities of the faces that matched, one entry per face. *)
Definition matched_ids (results : list (option string)) : list string :=
  flat_map (fun r => match r with
                     | Some id => if truthy id then [id] else []
                     | None => []
                     end) results.

(** How many times [x] occurs in [l]. *)
Fixpoint occurrences {A} `{EqDecision A} (x : A) (l : list A) : nat :=
  match l with
  | [] => 0
  | y :: rest => (if bool_decide (y = x) then 1 else 0) + occurrences x rest
  end.

(** The candidate at index [i], at distance [d], is the first of the
    candidates at minimum distance, for distances that may be undefined. *)
Definition first_minimum (distance : Student -> failure + float)
    (students : list Student) (i : nat) (s : Student) (d : float) : Prop :=
  students !! i = Some s /\ distance s = inr d /\
  (forall s' d', s' ∈ students -> distance s' = inr d' ->
     PrimFloat.ltb d' d = false) /\
  (forall j s' d', (j < i)%nat -> students !! j = Some s' ->
     distance s' = inr d' -> PrimFloat.leb d' d = false).

(** The spec's distance, in its own words: the Euclidean (L2) distance
    between two vectors of the same dimension, that is the square root of
    the sum of the squares of the differences of their components.  Each
    difference and the square root are rounded once; the sum is the one of
    the BLAS. *)
Definition l2_distance (env : Capabilities) (a b : list float) : float :=
  let differences := zip_with PrimFloat.sub a b in
  PrimFloat.sqrt (blas_ddot env differences differences).

(** The spec's invariant on the dimensions: every candidate has the
    dimension of the query. *)
Definition same_dimension (query : list float) (students : list Student) : Prop :=
  Forall (fun s => length (embedding s) = length query) students.

(** The spec's matcher, in its own words: scan all candidates and track the
    minimum distance and its identity, the first candidate winning a tie;
    then accept the candidate if its distance is below the threshold. *)
Fixpoint nearest (env : Capabilities) (query : list float) (students : list Student)
    (best : float * option string) : float * option string :=
  match students with
  | [] => best
  | s :: rest =>
      let d := l2_distance env query (embedding s) in
      if PrimFloat.ltb d best.1
      then nearest env query rest (d, Some (studentId s))
      else nearest env query rest best
  end.

Definition select_then_accept (env : Capabilities) (query : list float)
    (students : list Student) : option string :=
  let best := nearest env query students (infinity, None) in
  if PrimFloat.ltb best.1 threshold then best.2 else None.

(** The candidate at index [i] is the first of the candidates at minimum
    distance from [query]: no candidate is nearer, and every candidate
    before it is farther. *)
Definition first_nearest (env : Capabilities) (query : list float)
    (students : list Student) (i : nat) (s : Student) : Prop :=
  students !! i = Some s /\
  (forall s', s' ∈ students ->
     PrimFloat.ltb (l2_distance env query (embedding s'))
                   (l2_distance env query (embedding s)) = false) /\
  (forall j s', (j < i)%nat -> students !! j = Some s' ->
     PrimFloat.leb (l2_distance env query (embedding s'))
                   (l2_distance env query (embedding s)) = false).

(** An [HTTPException] whose status satisfies [P]. *)
Definition http_status (P : Z -> Prop) (e : exn) : Prop :=
  match e with
  | HTTPException status_code _ => P status_code
  | Raised _ _ => False
  end.

(** The errors of the enrollment: one of the two rejections of the
    number of faces, or an internal error. *)
Definition enrollment_error (e : exn) : Prop :=
  e = HTTPException 400 "No face detected in image" \/
  e = HTTPException 400 "Multiple faces detected in image" \/
  exists d, e = HTTPException 500 ("Error processing face: " +:+ d).

(** The calls of [k] attempts that were followed by another one, most
    recent first: each is a call of the detector, then [time.sleep(1)]. *)
Fixpoint failed_attempts (img_path : string) (k : nat) : list call :=
  match k with
  | O => []
  | S k => CallSleep 1 :: CallExtractFaces img_path :: failed_attempts img_path k
  end.

(** A candidate the matcher can accept for [query]: its distance is
    defined and below the threshold. *)
Definition within_threshold (env : Capabilities) (query : list float) (s : Student)
    : bool :=
  match euclidean env query (embedding s) with
  | inr d => PrimFloat.ltb d threshold
  | inl _ => false
  end.

(** A binary64 number other than the infinities and NaN. *)
Definition finite (x : float) : Prop := PrimFloat.is_finite x = true.

(** The log records written between two states include a warning. *)
Definition warned (w w' : State) : Prop :=
  exists before msg after, log w' = log w ++ before ++ (WARNING, msg) :: after.

(** The log is only appended to. *)
Definition appends (w w' : State) : Prop :=
  exists added, log w' = log w ++ added.

(** [p] holds of the [n] integers from [start] on. *)
Fixpoint all_from (start : Z) (n : nat) (p : Z -> bool) : bool :=
  match n with
  | O => true
  | S n => p start && all_from (start + 1) n p
  end.

(** The longer side of a square image of side [m], once resized, is 1199
    or 1200. *)
Definition longer_side_ok (m : Z) : bool :=
  match scaled m m with
  | Some n => (n =? 1199) || (n =? 1200)
  | None => false
  end.

(** * Two ways to sum the products

    Two dot products an environment may have: the loop over the products
    with fused multiply-adds, which is what [numpy] computes on short
    vectors on a processor that has the instruction, and the same loop
    without them. *)

(** A finite number as a signed integer times a power of two. *)
Definition dyadic (x : spec_float) : Z * Z :=
  match x with
  | S754_finite s m e => (cond_Zopp s (Z.pos m), e)
  | _ => (0, 0)
  end.

Definition sign_bit (x : spec_float) : bool :=
  match x with
  | S754_zero s | S754_infinity s | S754_finite s _ _ => s
  | S754_nan => false
  end.

(** [x * y + z] rounded once, to nearest even: the fused multiply-add of
    IEEE 754. *)
Definition SFfma (x y z : spec_float) : spec_float :=
  let infinite_product s :=
    match z with
    | S754_nan => S754_nan
    | S754_infinity sz => if Bool.eqb s sz then z else S754_nan
    | _ => S754_infinity s
    end in
  match x, y with
  | S754_nan, _ | _, S754_nan => S754_nan
  | S754_infinity _, S754_zero _ | S754_zero _, S754_infinity _ => S754_nan
  | S754_infinity _, _ | _, S754_infinity _ =>
      infinite_product (xorb (sign_bit x) (sign_bit y))
  | _, _ =>
      match z with
      | S754_nan => S754_nan
      | S754_infinity _ => z
      | _ =>
          let '(mx, ex) := dyadic x in
          let '(my, ey) := dyadic y in
          let '(mz, ez) := dyadic z in
          let mp := mx * my in
          let ep := ex + ey in
          if mp =? 0 then
            if mz =? 0
            then S754_zero (Bool.eqb (xorb (sign_bit x) (sign_bit y)) (sign_bit z)
                            && sign_bit z)
            else z
          else
            let e := if mz =? 0 then ep else Z.min ep ez in
            binary_normalize prec emax
              (Z.shiftl mp (ep - e) + Z.shiftl mz (ez - e)) e false
      end
  end.

Definition fma (x y z : float) : float :=
  SF2Prim (SFfma (Prim2SF x) (Prim2SF y) (Prim2SF z)).

(** The loop [dot += x[i] * y[i]] compiled with fused multiply-adds. *)
Definition fused_ddot (x y : list float) : float :=
  fold_left (fun acc xy => fma xy.1 xy.2 acc) (zip x y) 0%float.

(** The same loop with a product and a sum rounded apart, as the
    reference BLAS computes it without fused instructions. *)
Definition unfused_ddot (x y : list float) : float :=
  fold_left (fun acc xy => PrimFloat.add acc (PrimFloat.mul xy.1 xy.2)) (zip x y)
    0%float.

(** Both are zero on vectors of zeros, by computation. *)
Fixpoint fused_ddot_zeros (n : nat)
    : fused_ddot (replicate n 0%float) (replicate n 0%float) = 0%float :=
  match n with
  | O => eq_refl
  | S n => fused_ddot_zeros n
  end.

Fixpoint unfused_ddot_zeros (n : nat)
    : unfused_ddot (replicate n 0%float) (replicate n 0%float) = 0%float :=
  match n with
  | O => eq_refl
  | S n => unfused_ddot_zeros n
  end.

(** * Concrete worlds *)

Module Scenario.

Definition photo : list Byte.byte := [Byte.x01; Byte.x02].

Definition pixels : ndarray := [7; 7; 7].

(** Nothing on disk, nothing logged, no call made. *)
Definition blank : State :=
  {| fs := ∅; log := []; calls := []; temp_img_path := None |}.

(** A registry of two identities whose embeddings are at distance 2. *)
Definition v1 : list float := [0%float; 0%float].
Definition v2 : list float := [2%float; 0%float].
Definition registry : list Student :=
  [ {| studentId := "S1"; embedding := v1 |};
    {| studentId := "S2"; embedding := v2 |} ].

(** Three crops: the first two are close to [v1], the third is far from
    both [v1] and [v2]. *)
Definition crop_a : Face := {| face := [10] |}.
Definition crop_b : Face := {| face := [20] |}.
Definition crop_c : Face := {| face := [30] |}.

Definition embedding_of (crop : option ndarray) : failure + list Representation :=
  match crop with
  | Some [10] => inr [ {| rep_embedding := Some [0.25%float; 0%float] |} ]
  | Some [20] => inr [ {| rep_embedding := Some [0%float; 0.125%float] |} ]
  | Some [30] => inr [ {| rep_embedding := Some [1%float; 1%float] |} ]
  | Some _ => inr [ {| rep_embedding := Some [0.5%float; 0%float] |} ]
  | None => inl (ValueError, "Confirm that the image exists")
  end.

(** A world where decoding, writing and downloading work, the [n]-th uuid
    is the number [n], and the dot product, the detector, the registry, the
    embedding model and [os.remove] answer as given. *)
Definition world_with (ddot : list float -> list float -> float)
    (ddot_zeros : forall n,
       ddot (replicate n 0%float) (replicate n 0%float) = 0%float)
    (detect : nat -> failure + list Face) (students : list Student)
    (embed : option ndarray -> failure + list Representation)
    (removal : option failure) : Capabilities :=
  {| cv2_imdecode := fun _ => inr (Some pixels);
     cv2_transforms := fun image => inr image;
     cv2_imencode := fun _ _ => inr (true, photo);
     cv2_imwrite := fun _ _ _ => inr true;
     uuid4_hex := fun n => pretty n;
     DeepFace_extract_faces := fun n _ => detect n;
     DeepFace_represent := fun _ crop => embed crop;
     students_find := fun _ => inr students;
     os_remove := fun _ _ => removal;
     requests_get_image := fun _ _ => inr pixels;
     blas_ddot := ddot;
     blas_ddot_zeros := ddot_zeros |}.

(** The same, with the fused dot product. *)
Definition world := world_with fused_ddot fused_ddot_zeros.

(** The photo shows three faces. *)
Definition three_faces : Capabilities :=
  world (fun _ => inr [crop_a; crop_b; crop_c]) registry embedding_of None.

(** Nobody is registered. *)
Definition empty_registry : Capabilities :=
  world (fun _ => inr [crop_a]) [] embedding_of None.

(** One face is detected, and the embedding model fails. *)
Definition model_down : Capabilities :=
  world (fun _ => inr [crop_a]) registry
    (fun _ => inl (OtherError, "model unavailable")) None.

(** The embedding of the second of three faces fails; the third face is
    close to [v2]. *)
Definition second_face_fails : Capabilities :=
  world (fun _ => inr [crop_a; crop_b; crop_c]) registry
    (fun crop => match crop with
                 | Some [20] => inl (OtherError, "model unavailable")
                 | Some [30] => inr [ {| rep_embedding := Some [2%float; 0.125%float] |} ]
                 | _ => embedding_of crop
                 end) None.

(** The detector fails twice, then finds a face. *)
Definition flaky_detector : Capabilities :=
  world (fun n => if (n <? 5)%nat then inl (OtherError, "detector busy")
                  else inr [crop_a]) registry embedding_of None.

(** [os.remove] always fails. *)
Definition read_only_disk : Capabilities :=
  world (fun _ => inr [crop_a]) registry embedding_of
    (Some (OSError, "Permission denied")).

(** Two candidates at the same distance, a quarter, from the origin. *)
Definition twins : list Student :=
  [ {| studentId := "T1"; embedding := [0.25%float; 0%float] |};
    {| studentId := "T2"; embedding := [0%float; 0.25%float] |} ].
Definition at_the_origin : list Representation :=
  [ {| rep_embedding := Some [0%float; 0%float] |} ].

(** A query at distance exactly [threshold] from its only candidate. *)
Definition on_the_boundary : list Representation :=
  [ {| rep_embedding := Some [threshold] |} ].
Definition origin : list Student :=
  [ {| studentId := "S0"; embedding := [0%float] |} ].

(** A query whose distance to the origin is [threshold] when the products
    and the sum are rounded apart, and the number just below [threshold]
    when they are fused. *)
Definition near_the_boundary : list float :=
  [0x1.e14c09bae48fbp-4%float; 0x1.2d4056918a3a0p-1%float].

(** A world whose dot product rounds every product and every sum. *)
Definition unfused : Capabilities :=
  world_with unfused_ddot unfused_ddot_zeros
    (fun _ => inr [crop_a]) registry embedding_of None.

End Scenario.

(** * Worlds with a fault *)

Module Faults.
Import Scenario.

(** As [world], with the decoder and the download as given. *)
Definition faulty (decode : failure + option ndarray)
    (students : failure + list Student) (download : failure + ndarray)
    : Capabilities :=
  {| cv2_imdecode := fun _ => decode;
     cv2_transforms := fun image => inr image;
     cv2_imencode := fun _ _ => inr (true, photo);
     cv2_imwrite := fun _ _ _ => inr true;
     uuid4_hex := fun n => pretty n;
     DeepFace_extract_faces := fun _ _ => inr [crop_a];
     DeepFace_represent := fun _ crop => embedding_of crop;
     students_find := fun _ => students;
     os_remove := fun _ _ => None;
     requests_get_image := fun _ _ => download;
     blas_ddot := fused_ddot;
     blas_ddot_zeros := fused_ddot_zeros |}.

(** The uploaded bytes are not an image. *)
Definition unreadable : Capabilities :=
  faulty (inr None) (inr registry) (inr pixels).

(** Nothing was uploaded: [cv2.imdecode] raises on the empty buffer. *)
Definition empty_upload : Capabilities :=
  faulty (inl (OtherError, "(-215:Assertion failed) !buf.empty() in function 'imdecode_'"))
    (inr registry) (inr pixels).

(** The database is down. *)
Definition database_down : Capabilities :=
  faulty (inr (Some pixels)) (inl (OtherError, "connection refused")) (inr pixels).

(** The image host does not answer in time. *)
Definition slow_host : Capabilities :=
  faulty (inr (Some pixels)) (inr registry) (inl (Timeout, "Read timed out.")).

(** A registry one of whose documents holds an embedding of three
    numbers; the others, and the model, use two. *)
Definition mixed_registry : list Student :=
  [ {| studentId := "S1"; embedding := v1 |};
    {| studentId := "S3"; embedding := [0%float; 0%float; 0%float] |};
    {| studentId := "S2"; embedding := v2 |} ].

Definition plane : Capabilities :=
  world (fun _ => inr [crop_a; crop_b]) mixed_registry
    (fun _ => inr [ {| rep_embedding := Some [0.25%float; 0%float] |} ]) None.

(** A registry whose first document has an empty [studentId]. *)
Definition unnamed_registry : list Student :=
  [ {| studentId := ""; embedding := v1 |};
    {| studentId := "S2"; embedding := [1%float; 1%float] |} ].

Definition unnamed : Capabilities :=
  world (fun _ => inr [crop_a; crop_b; crop_c]) unnamed_registry embedding_of None.

End Faults.

(** * Order on binary64 numbers *)

Module FloatOrder.

Ltac destruct_float a := destruct a as [[]|[]| |[] ? ?].

Ltac compare_cases :=
  simpl; try discriminate; try reflexivity;
  intros; f_equal;
  repeat match goal with
    | H : context [Z.compare ?x ?y] |- _ => destruct (Z.compare_spec x y); subst
    | |- context [Z.compare ?x ?y] => destruct (Z.compare_spec x y); subst
    end;
  try discriminate; try reflexivity; try lia;
  repeat match goal with
    | H : context [Pos.compare_cont Eq ?x ?y] |- _ =>
        change (Pos.compare_cont Eq x y) with (Pos.compare x y) in *;
        destruct (Pos.compare_spec x y); subst
    | |- context [Pos.compare_cont Eq ?x ?y] =>
        change (Pos.compare_cont Eq x y) with (Pos.compare x y) in *;
        destruct (Pos.compare_spec x y); subst
    end;
  simpl in *; try discriminate; try reflexivity; try lia.

Lemma SFltb_trans a b c :
  SFltb a b = true -> SFltb b c = true -> SFltb a c = true.
Proof. unfold SFltb. destruct_float a; destruct_float b; destruct_float c; compare_cases. Qed.

Lemma SFleb_ltb_trans a b c :
  SFleb a b = true -> SFltb b c = true -> SFltb a c = true.
Proof. unfold SFltb, SFleb. destruct_float a; destruct_float b; destruct_float c; compare_cases. Qed.

Lemma SFltb_leb_trans a b c :
  SFltb a b = true -> SFleb b c = true -> SFltb a c = true.
Proof. unfold SFltb, SFleb. destruct_float a; destruct_float b; destruct_float c; compare_cases. Qed.

Lemma SFltb_irrefl a : SFltb a a = false.
Proof. unfold SFltb. destruct_float a; compare_cases. Qed.

Lemma SFleb_not_gt a b : SFleb a b = true -> SFltb b a = false.
Proof. unfold SFltb, SFleb. destruct_float a; destruct_float b; compare_cases. Qed.

Lemma SFltb_false_leb a b :
  SFeqb a a = true -> SFeqb b b = true -> SFltb a b = false -> SFleb b a = true.
Proof. unfold SFltb, SFleb, SFeqb. destruct_float a; destruct_float b; compare_cases. Qed.

Lemma SFltb_not_nan a b : SFltb a b = true -> SFeqb a a = true.
Proof. unfold SFltb, SFeqb. destruct_float a; destruct_float b; compare_cases. Qed.

Lemma ltb_trans x y z :
  PrimFloat.ltb x y = true -> PrimFloat.ltb y z = true -> PrimFloat.ltb x z = true.
Proof. rewrite !ltb_spec. apply SFltb_trans. Qed.

Lemma leb_ltb_trans x y z :
  PrimFloat.leb x y = true -> PrimFloat.ltb y z = true -> PrimFloat.ltb x z = true.
Proof. rewrite !ltb_spec, leb_spec. apply SFleb_ltb_trans. Qed.

Lemma ltb_leb_trans x y z :
  PrimFloat.ltb x y = true -> PrimFloat.leb y z = true -> PrimFloat.ltb x z = true.
Proof. rewrite !ltb_spec, leb_spec. apply SFltb_leb_trans. Qed.

Lemma ltb_irrefl x : PrimFloat.ltb x x = false.
Proof. rewrite ltb_spec. apply SFltb_irrefl. Qed.

Lemma leb_not_gt x y : PrimFloat.leb x y = true -> PrimFloat.ltb y x = false.
Proof. rewrite ltb_spec, leb_spec. apply SFleb_not_gt. Qed.

Lemma ltb_false_leb x y :
  PrimFloat.eqb x x = true -> PrimFloat.eqb y y = true ->
  PrimFloat.ltb x y = false -> PrimFloat.leb y x = true.
Proof. rewrite !FloatAxioms.eqb_spec, ltb_spec, leb_spec. apply SFltb_false_leb. Qed.

Lemma ltb_not_nan x y : PrimFloat.ltb x y = true -> PrimFloat.eqb x x = true.
Proof. rewrite FloatAxioms.eqb_spec, ltb_spec. apply SFltb_not_nan. Qed.

End FloatOrder.

(** * Runs of the monad *)

Section Monad.
Context {A B : Type}.

Lemma bind_inr (m : M A) (k : A -> M B) w b w' :
  bind m k w = (inr b, w') ->
  exists a w1, m w = (inr a, w1) /\ k a w1 = (inr b, w').
Proof.
  unfold bind. destruct (m w) as [[e|a] w1]; intros H.
  - discriminate.
  - exists a, w1. split; [reflexivity|exact H].
Qed.

Lemma bind_inl (m : M A) (k : A -> M B) w e w' :
  bind m k w = (inl e, w') ->
  m w = (inl e, w') \/ exists a w1, m w = (inr a, w1) /\ k a w1 = (inl e, w').
Proof.
  unfold bind. destruct (m w) as [[e0|a] w1]; intros H.
  - left. congruence.
  - right. exists a, w1. split; [reflexivity|exact H].
Qed.

Lemma try_finally_result (body : M A) (cleanup : M unit) w :
  (forall w1, (cleanup w1).1 = inr tt) ->
  (try_finally body cleanup w).1 = (body w).1.
Proof.
  intros Hc. unfold try_finally. destruct (body w) as [r w1].
  specialize (Hc w1). destruct (cleanup w1) as [[e|[]] w2]; simpl in *.
  - discriminate.
  - reflexivity.
Qed.

Lemma try_finally_state (body : M A) (cleanup : M unit) w :
  (try_finally body cleanup w).2 = (cleanup (body w).2).2.
Proof.
  unfold try_finally. destruct (body w) as [r w1]. simpl.
  destruct (cleanup w1) as [[e|[]] w2]; reflexivity.
Qed.

Section Always.
Context (R : State -> State -> Prop) `{!PreOrder R}.

Lemma always_ret (a : A) : always R (ret a).
Proof. intros w. simpl. reflexivity. Qed.

Lemma always_raise (e : exn) : always R (@raise A e).
Proof. intros w. simpl. reflexivity. Qed.

Lemma always_lift (r : failure + A) : always R (lift r).
Proof. intros w. simpl. reflexivity. Qed.

Lemma always_bind (m : M A) (k : A -> M B) :
  always R m -> (forall a, always R (k a)) -> always R (bind m k).
Proof.
  intros Hm Hk w. unfold bind. specialize (Hm w).
  destruct (m w) as [[e|a] w1]; simpl in *.
  - exact Hm.
  - etransitivity; [exact Hm|apply Hk].
Qed.

Lemma always_try_except (body : M A) (handler : exn -> M A) :
  always R body -> (forall e, always R (handler e)) ->
  always R (try_except body handler).
Proof.
  intros Hm Hk w. unfold try_except. specialize (Hm w).
  destruct (body w) as [[e|a] w1]; simpl in *.
  - etransitivity; [exact Hm|apply Hk].
  - exact Hm.
Qed.

Lemma always_try_finally (body : M A) (cleanup : M unit) :
  always R body -> always R cleanup -> always R (try_finally body cleanup).
Proof.
  intros Hm Hc w. rewrite try_finally_state.
  etransitivity; [apply Hm|apply Hc].
Qed.

End Always.
End Monad.

#[local] Instance adds_preorder P : PreOrder (adds P).
Proof.
  split.
  - intros w. exists []. split; [reflexivity|constructor].
  - intros w1 w2 w3 (a1 & E1 & F1) (a2 & E2 & F2).
    exists (a2 ++ a1). split.
    + rewrite E2, E1. apply app_assoc.
    + apply Forall_app. split; assumption.
Qed.

#[local] Instance clean_preorder : PreOrder clean.
Proof.
  split.
  - intros w. exists []. split; [reflexivity|]. split.
    + intros p Hp. inversion Hp.
    + intros p Hp. exact Hp.
  - intros w1 w2 w3 (a1 & E1 & W1 & K1) (a2 & E2 & W2 & K2).
    exists (a2 ++ a1). split; [rewrite E2, E1; apply app_assoc|]. split.
    + intros p Hp. apply elem_of_app in Hp as [Hp|Hp].
      * apply W2, Hp.
      * apply K2, W1, Hp.
    + intros p Hp. apply K2, K1, Hp.
Qed.

#[local] Instance tidy_preorder : PreOrder tidy.
Proof.
  split.
  - intros w. split; reflexivity.
  - intros w1 w2 w3 [T1 C1] [T2 C2]. split.
    + congruence.
    + etransitivity; eassumption.
Qed.

#[local] Instance leaves_preorder path : PreOrder (leaves path).
Proof.
  split.
  - intros w. split; [reflexivity|]. exists []. split; [reflexivity|]. split.
    + intros p Hp. inversion Hp.
    + intros p Hp. left. exact Hp.
  - intros w1 w2 w3 (T1 & a1 & E1 & W1 & K1) (T2 & a2 & E2 & W2 & K2).
    split; [congruence|].
    exists (a2 ++ a1). split; [rewrite E2, E1; apply app_assoc|]. split.
    + intros p Hp. apply elem_of_app in Hp as [Hp|Hp].
      * apply W2, Hp.
      * destruct (W1 p Hp) as [Hn|Hn]; [apply K2, Hn|right; exact Hn].
    + intros p Hp. destruct (K1 p Hp) as [Hn|Hn]; [apply K2, Hn|right; exact Hn].
Qed.

Lemma always_weaken {A} (R R' : State -> State -> Prop) (m : M A) :
  (forall w w', R w w' -> R' w w') -> always R m -> always R' m.
Proof. intros H Hm w. apply H, Hm. Qed.

Lemma tidy_clean w w' : tidy w w' -> clean w w'.
Proof. intros [_ H]. exact H. Qed.

Lemma tidy_leaves path w w' : tidy w w' -> leaves path w w'.
Proof.
  intros (T & a & E & W & K). split; [exact T|].
  exists a. split; [exact E|]. split; intros p Hp; left; auto.
Qed.

Lemma clean_owes w w' : clean w w' -> owes w w'.
Proof.
  intros (a & E & W & K). exists a. split; [exact E|].
  split; intros p Hp; left; auto.
Qed.

Lemma tidy_then_owes w w1 w2 : tidy w w1 -> owes w1 w2 -> owes w w2.
Proof.
  intros (T1 & a1 & E1 & W1 & K1) (a2 & E2 & W2 & K2).
  exists (a2 ++ a1). split; [rewrite E2, E1; apply app_assoc|]. split.
  - intros p Hp. apply elem_of_app in Hp as [Hp|Hp]; [apply W2, Hp|apply K2, W1, Hp].
  - intros p Hp. apply K2, K1, Hp.
Qed.

Lemma owes_then_tidy w w1 w2 : owes w w1 -> tidy w1 w2 -> owes w w2.
Proof.
  intros (a1 & E1 & W1 & K1) (T2 & a2 & E2 & W2 & K2).
  exists (a2 ++ a1). split; [rewrite E2, E1; apply app_assoc|]. split.
  - intros p Hp. apply elem_of_app in Hp as [Hp|Hp].
    + left. apply W2, Hp.
    + destruct (W1 p Hp) as [Hn|Hn]; [left; apply K2, Hn|right; rewrite T2; exact Hn].
  - intros p Hp.
    destruct (K1 p Hp) as [Hn|Hn]; [left; apply K2, Hn|right; rewrite T2; exact Hn].
Qed.

(** Composition of two different relations. *)
Lemma always_bind_then {A B} (R1 R2 R3 : State -> State -> Prop)
    (m : M A) (k : A -> M B) :
  (forall x y, R1 x y -> R3 x y) ->
  (forall x y z, R1 x y -> R2 y z -> R3 x z) ->
  always R1 m -> (forall a, always R2 (k a)) -> always R3 (bind m k).
Proof.
  intros Hsub Hcomp Hm Hk w. unfold bind. specialize (Hm w).
  destruct (m w) as [[e|a] w1]; simpl in *.
  - apply Hsub, Hm.
  - eapply Hcomp; [exact Hm|apply Hk].
Qed.

Lemma always_try_except_then {A} (R1 R2 R3 : State -> State -> Prop)
    (body : M A) (handler : exn -> M A) :
  (forall x y, R1 x y -> R3 x y) ->
  (forall x y z, R1 x y -> R2 y z -> R3 x z) ->
  always R1 body -> (forall e, always R2 (handler e)) ->
  always R3 (try_except body handler).
Proof.
  intros Hsub Hcomp Hm Hk w. unfold try_except. specialize (Hm w).
  destruct (body w) as [[e|a] w1]; simpl in *.
  - eapply Hcomp; [exact Hm|apply Hk].
  - apply Hsub, Hm.
Qed.

(** A step of the structure of a computation. *)
Ltac run_step :=
  match goal with
  | |- always _ (bind _ _) => apply always_bind; [typeclasses eauto| |intros ?]
  | |- always _ (try_except _ _) => apply always_try_except; [typeclasses eauto| |intros ?]
  | |- always _ (try_finally _ _) => apply always_try_finally; [typeclasses eauto| |]
  | |- always _ (ret _) => apply always_ret; typeclasses eauto
  | |- always _ (raise _) => apply always_raise; typeclasses eauto
  | |- always _ (lift _) => apply always_lift; typeclasses eauto
  | |- always _ (match ?x with _ => _ end) => destruct x
  end.

Create HintDb runs.

Ltac runs := repeat run_step; eauto with runs.

Section Primitives.
Variable env : Capabilities.

(** *** What the primitive actions add to the calls *)

Lemma logger_adds P l msg : always (adds P) (logger l msg).
Proof. intros w. exists []. split; [reflexivity|constructor]. Qed.

Lemma set_temp_img_path_adds P p : always (adds P) (set_temp_img_path p).
Proof. intros w. exists []. split; [reflexivity|constructor]. Qed.

Lemma get_temp_img_path_adds P : always (adds P) get_temp_img_path.
Proof. intros w. reflexivity. Qed.

Lemma os_path_exists_adds P path : always (adds P) (os_path_exists path).
Proof. intros w. reflexivity. Qed.

Lemma record_adds (P : call -> Prop) c : P c -> always (adds P) (record c).
Proof. intros Hc w. exists [c]. split; [reflexivity|]. repeat constructor. exact Hc. Qed.

Lemma uuid4_adds (P : call -> Prop) : P CallUuid4 -> always (adds P) (uuid4 env).
Proof. intros Hc w. exists [CallUuid4]. split; [reflexivity|]. repeat constructor. exact Hc. Qed.

Lemma imwrite_adds (P : call -> Prop) path img :
  P (CallImwrite path) -> always (adds P) (imwrite env path img).
Proof.
  intros Hc w. exists [CallImwrite path]. split; [|repeat constructor; exact Hc].
  unfold imwrite. destruct (cv2_imwrite env (now w) path img) as [f|[]]; reflexivity.
Qed.

Lemma remove_file_adds (P : call -> Prop) path :
  P (CallRemove path) -> always (adds P) (remove_file env path).
Proof.
  intros Hc w. exists [CallRemove path]. split; [|repeat constructor; exact Hc].
  unfold remove_file. destruct (os_remove env (now w) path); reflexivity.
Qed.

Lemma extract_faces_adds (P : call -> Prop) path :
  P (CallExtractFaces path) -> always (adds P) (extract_faces env path).
Proof.
  intros Hc w. exists [CallExtractFaces path]. split; [|repeat constructor; exact Hc].
  unfold extract_faces, bind, record, lift. simpl.
  reflexivity.
Qed.

Lemma represent_adds (P : call -> Prop) path :
  P (CallRepresent path) -> always (adds P) (represent env path).
Proof.
  intros Hc w. exists [CallRepresent path]. split; [|repeat constructor; exact Hc].
  reflexivity.
Qed.

Lemma norm_of_difference_adds (P : call -> Prop) a b :
  P CallNorm -> always (adds P) (norm_of_difference env a b).
Proof.
  intros Hc w. exists [CallNorm]. split; [|repeat constructor; exact Hc].
  reflexivity.
Qed.

Lemma sleep_adds (P : call -> Prop) n : P (CallSleep n) -> always (adds P) (sleep n).
Proof. apply record_adds. Qed.

End Primitives.

#[local] Hint Extern 1 (not_fetch _) => (unfold not_fetch; discriminate) : runs.
#[local] Hint Resolve logger_adds set_temp_img_path_adds get_temp_img_path_adds
  os_path_exists_adds record_adds uuid4_adds imwrite_adds remove_file_adds
  extract_faces_adds represent_adds norm_of_difference_adds sleep_adds : runs.

Section AfterTheFetch.
Variable env : Capabilities.

Lemma extract_faces_with_retry_adds path n :
  always (adds not_fetch) (extract_faces_with_retry env path n).
Proof.
  unfold extract_faces_with_retry. generalize (range n) as attempts.
  induction attempts as [|attempt rest IH]; simpl.
  - runs.
  - unfold extract_faces_attempt. runs.
Qed.

Lemma save_and_detect_adds img : always (adds not_fetch) (save_and_detect env img).
Proof. unfold save_and_detect. runs. apply extract_faces_with_retry_adds. Qed.

Lemma cleanup_face_adds path : always (adds not_fetch) (cleanup_face env path).
Proof. unfold cleanup_face, remove_or_warn. runs. Qed.

Lemma cleanup_temp_img_adds : always (adds not_fetch) (cleanup_temp_img env).
Proof. unfold cleanup_temp_img, remove_or_warn. runs. Qed.

Lemma compare_students_adds objs students m id :
  always (adds not_fetch) (compare_students env objs students m id).
Proof.
  revert m id. induction students as [|s rest IH]; intros m id; simpl.
  - runs.
  - unfold first_embedding. runs.
Qed.

Lemma process_single_face_adds f idx students :
  always (adds not_fetch) (process_single_face env f idx students).
Proof.
  unfold process_single_face, process_single_face_try, embed_and_match, match_students. runs.
  - apply compare_students_adds.
  - apply cleanup_face_adds.
Qed.

Lemma recognize_loop_adds students idx faces acc :
  always (adds not_fetch) (recognize_loop env students idx faces acc).
Proof.
  revert idx acc. induction faces as [|f rest IH]; intros idx acc; simpl.
  - runs.
  - runs. apply process_single_face_adds.
Qed.

Lemma recognize_detected_adds students faces :
  always (adds not_fetch) (recognize_detected env students faces).
Proof. unfold recognize_detected. runs. apply recognize_loop_adds. Qed.

End AfterTheFetch.

Section Tidy.
Variable env : Capabilities.

Lemma tidy_same_files w w' added :
  temp_img_path w' = temp_img_path w -> calls w' = added ++ calls w ->
  (forall p, CallImwrite p ∉ added) ->
  (forall p, fs w !! p = None -> fs w' !! p = None) ->
  tidy w w'.
Proof.
  intros T E N K. split; [exact T|]. exists added. split; [exact E|]. split.
  - intros p Hp. destruct (N p Hp).
  - exact K.
Qed.

Lemma logger_tidy l msg : always tidy (logger l msg).
Proof.
  intros w. apply (tidy_same_files _ _ []); try reflexivity; try tauto.
  intros p Hp. inversion Hp.
Qed.

Lemma get_temp_img_path_tidy : always tidy get_temp_img_path.
Proof. intros w. reflexivity. Qed.

Lemma os_path_exists_tidy path : always tidy (os_path_exists path).
Proof. intros w. reflexivity. Qed.

Lemma record_tidy c : (forall p, c <> CallImwrite p) -> always tidy (record c).
Proof.
  intros Hc w. apply (tidy_same_files _ _ [c]); try reflexivity; try tauto.
  intros p Hp. apply list_elem_of_singleton in Hp. apply (Hc p). congruence.
Qed.

Lemma uuid4_tidy : always tidy (uuid4 env).
Proof. intros w. apply (record_tidy CallUuid4). discriminate. Qed.

Lemma extract_faces_tidy path : always tidy (extract_faces env path).
Proof. intros w. apply (record_tidy (CallExtractFaces path)). discriminate. Qed.

Lemma represent_tidy path : always tidy (represent env path).
Proof. intros w. apply (record_tidy (CallRepresent path)). discriminate. Qed.

Lemma find_students_tidy : always tidy (find_students env).
Proof. intros w. apply (record_tidy CallFind). discriminate. Qed.

Lemma norm_of_difference_tidy a b : always tidy (norm_of_difference env a b).
Proof. intros w. apply (record_tidy CallNorm). discriminate. Qed.

Lemma sleep_tidy n : always tidy (sleep n).
Proof. apply record_tidy. discriminate. Qed.

Lemma remove_file_tidy path : always tidy (remove_file env path).
Proof.
  intros w. apply (tidy_same_files _ _ [CallRemove path]).
  - unfold remove_file. destruct (os_remove env (now w) path); reflexivity.
  - unfold remove_file. destruct (os_remove env (now w) path); reflexivity.
  - intros p Hp. apply list_elem_of_singleton in Hp. discriminate.
  - intros p Hp. unfold remove_file.
    destruct (os_remove env (now w) path); simpl; [exact Hp|].
    rewrite lookup_delete_None. right. exact Hp.
Qed.

End Tidy.

#[local] Hint Resolve logger_tidy get_temp_img_path_tidy os_path_exists_tidy
  uuid4_tidy extract_faces_tidy represent_tidy find_students_tidy
  norm_of_difference_tidy sleep_tidy remove_file_tidy : runs.

Section TidyFunctions.
Variable env : Capabilities.

Lemma preprocess_image_tidy image : always tidy (preprocess_image env image).
Proof. unfold preprocess_image. runs. Qed.

Lemma decode_and_preprocess_tidy b : always tidy (decode_and_preprocess env b).
Proof. unfold decode_and_preprocess. runs. apply preprocess_image_tidy. Qed.

Lemma get_all_embeddings_tidy : always tidy (get_all_embeddings env).
Proof. unfold get_all_embeddings. runs. Qed.

Lemma extract_faces_with_retry_tidy path n :
  always tidy (extract_faces_with_retry env path n).
Proof.
  unfold extract_faces_with_retry. generalize (range n) as attempts.
  induction attempts as [|attempt rest IH]; simpl.
  - runs.
  - unfold extract_faces_attempt. runs.
Qed.

Lemma single_embedding_tidy path faces : always tidy (single_embedding env path faces).
Proof. unfold single_embedding. runs. Qed.

Lemma compare_students_tidy objs students m id :
  always tidy (compare_students env objs students m id).
Proof.
  revert m id. induction students as [|s rest IH]; intros m id; simpl.
  - runs.
  - unfold first_embedding. runs.
Qed.

Lemma remove_or_warn_tidy path warning : always tidy (remove_or_warn env path warning).
Proof. unfold remove_or_warn. runs. Qed.

Lemma cleanup_face_tidy path : always tidy (cleanup_face env path).
Proof. unfold cleanup_face. runs. apply remove_or_warn_tidy. Qed.

Lemma cleanup_temp_img_tidy : always tidy (cleanup_temp_img env).
Proof. unfold cleanup_temp_img. runs. apply remove_or_warn_tidy. Qed.

End TidyFunctions.

#[local] Hint Resolve preprocess_image_tidy decode_and_preprocess_tidy
  get_all_embeddings_tidy extract_faces_with_retry_tidy single_embedding_tidy
  compare_students_tidy remove_or_warn_tidy cleanup_face_tidy
  cleanup_temp_img_tidy : runs.

Section Cleanup.
Variable env : Capabilities.

(** The [finally] blocks never raise. *)
Lemma remove_or_warn_returns path warning w :
  (remove_or_warn env path warning w).1 = inr tt.
Proof.
  unfold remove_or_warn, try_except, remove_file.
  destruct (os_remove env (now w) path); reflexivity.
Qed.

Lemma cleanup_face_returns path w : (cleanup_face env path w).1 = inr tt.
Proof.
  unfold cleanup_face, bind, os_path_exists.
  destruct (bool_decide (is_Some (fs w !! path))).
  - apply remove_or_warn_returns.
  - reflexivity.
Qed.

Lemma cleanup_temp_img_returns w : (cleanup_temp_img env w).1 = inr tt.
Proof.
  unfold cleanup_temp_img, bind, get_temp_img_path, os_path_exists.
  destruct (temp_img_path w) as [path|]; [|reflexivity].
  destruct (truthy path); [|reflexivity].
  destruct (bool_decide (is_Some (fs w !! path))).
  - apply remove_or_warn_returns.
  - reflexivity.
Qed.

Lemma imwrite_leaves path img : always (leaves path) (imwrite env path img).
Proof.
  intros w. split.
  - unfold imwrite. destruct (cv2_imwrite env (now w) path img) as [f|[]]; reflexivity.
  - exists [CallImwrite path]. split; [|split].
    + unfold imwrite. destruct (cv2_imwrite env (now w) path img) as [f|[]]; reflexivity.
    + intros p Hp. apply list_elem_of_singleton in Hp. right. congruence.
    + intros p Hp. destruct (decide (p = path)) as [->|Hne]; [right; reflexivity|left].
      unfold imwrite. destruct (cv2_imwrite env (now w) path img) as [f|[]]; simpl; try exact Hp.
      rewrite lookup_insert_ne by congruence. exact Hp.
Qed.

Lemma save_and_detect_owes img : always owes (save_and_detect env img).
Proof.
  intros w. unfold save_and_detect.
  set (path := "temp_" +:+ uuid4_hex env (now w) +:+ ".jpg").
  assert (Hrun : exists w1, temp_img_path w1 = Some path /\ leaves path
     {| fs := fs w; log := log w; calls := CallUuid4 :: calls w; temp_img_path := Some path |} w1 /\
     (save_and_detect env img w).2 = w1).
  { unfold save_and_detect, bind at 1, uuid4, bind at 1, record, ret. simpl.
    fold path. unfold bind at 1, set_temp_img_path. simpl.
    set (w0 := {| fs := fs w; log := log w; calls := CallUuid4 :: calls w;
                  temp_img_path := Some path |}).
    pose proof (imwrite_leaves path img w0) as Hw.
    unfold bind at 1.
    destruct (imwrite env path img w0) as [[e|b] w1] eqn:E1; simpl in Hw.
    - exists w1. split; [|split; [exact Hw|reflexivity]].
      destruct Hw as [T _]. rewrite T. reflexivity.
    - pose proof (extract_faces_with_retry_tidy env path default_max_retries w1) as Ht.
      apply (tidy_leaves path) in Ht.
      unfold bind.
      destruct (extract_faces_with_retry env path default_max_retries w1) as [[e|faces] w2];
        simpl in *.
      + exists w2. split; [|split; [etransitivity; eassumption|reflexivity]].
        destruct Ht as [T2 _], Hw as [T1 _]. rewrite T2, T1. reflexivity.
      + exists w2. split; [|split; [etransitivity; eassumption|reflexivity]].
        destruct Ht as [T2 _], Hw as [T1 _]. rewrite T2, T1. reflexivity. }
  destruct Hrun as (w1 & Htmp & (T & a & E & W & K) & Hw1).
  unfold save_and_detect in Hw1. rewrite Hw1.
  exists (a ++ [CallUuid4]). split; [rewrite E; simpl; rewrite <- app_assoc; reflexivity|].
  assert (Htruthy : truthy path = true) by reflexivity.
  split.
  - intros p Hp. apply elem_of_app in Hp as [Hp|Hp].
    + destruct (W p Hp) as [Hn| ->]; [left; exact Hn|right; split; assumption].
    + apply list_elem_of_singleton in Hp. discriminate.
  - intros p Hp. destruct (K p Hp) as [Hn| ->]; [left; exact Hn|right; split; assumption].
Qed.

Section RemovalSucceeds.
Hypothesis removal_succeeds : forall n p, os_remove env n p = None.

Lemma remove_file_deletes path w :
  remove_file env path w =
    (inr tt, {| fs := delete path (fs w); log := log w;
                calls := CallRemove path :: calls w;
                temp_img_path := temp_img_path w |}).
Proof. unfold remove_file. rewrite removal_succeeds. reflexivity. Qed.

Lemma cleanup_face_absent path w : fs (cleanup_face env path w).2 !! path = None.
Proof.
  unfold cleanup_face, bind, os_path_exists.
  destruct (bool_decide (is_Some (fs w !! path))) eqn:Ex.
  - unfold remove_or_warn, try_except. rewrite remove_file_deletes. simpl.
    apply lookup_delete_eq.
  - simpl. apply bool_decide_eq_false in Ex. apply eq_None_not_Some. exact Ex.
Qed.

Lemma cleanup_face_settles path w w2 :
  leaves path w w2 -> tidy w (cleanup_face env path w2).2.
Proof.
  intros (T & a & E & W & K).
  pose proof (cleanup_face_tidy env path w2) as (T3 & a3 & E3 & W3 & K3).
  pose proof (cleanup_face_absent path w2) as Habs.
  split; [congruence|].
  exists (a3 ++ a). split; [rewrite E3, E; apply app_assoc|]. split.
  - intros p Hp. apply elem_of_app in Hp as [Hp|Hp]; [apply W3, Hp|].
    destruct (W p Hp) as [Hn| ->]; [apply K3, Hn|exact Habs].
  - intros p Hp. destruct (K p Hp) as [Hn| ->]; [apply K3, Hn|exact Habs].
Qed.

Lemma process_single_face_tidy f idx students :
  always tidy (process_single_face env f idx students).
Proof.
  intros w. unfold process_single_face, bind, uuid4 at 1, bind, record, ret. simpl.
  set (path := face_path_of (uuid4_hex env (now w)) idx).
  set (w0 := {| fs := fs w; log := log w; calls := CallUuid4 :: calls w;
                temp_img_path := temp_img_path w |}).
  rewrite try_finally_state.
  transitivity w0.
  - apply (uuid4_tidy env w).
  - apply cleanup_face_settles.
    assert (H : always (leaves path) (process_single_face_try env path f idx students)).
    { unfold process_single_face_try, embed_and_match, match_students.
      repeat run_step.
      - apply imwrite_leaves.
      - apply (always_weaken tidy); [apply tidy_leaves|]. runs.
      - apply (always_weaken tidy); [apply tidy_leaves|]. runs.
      - apply (always_weaken tidy); [apply tidy_leaves|]. runs. }
    apply H.
Qed.

Lemma recognize_loop_tidy students idx faces acc :
  always tidy (recognize_loop env students idx faces acc).
Proof.
  revert idx acc. induction faces as [|f rest IH]; intros idx acc; simpl.
  - runs.
  - runs. apply process_single_face_tidy.
Qed.

Lemma recognize_detected_tidy students faces :
  always tidy (recognize_detected env students faces).
Proof. unfold recognize_detected. runs. apply recognize_loop_tidy. Qed.

Lemma cleanup_temp_img_settles w w3 :
  owes w w3 -> clean w (cleanup_temp_img env w3).2.
Proof.
  intros (a & E & W & K).
  pose proof (cleanup_temp_img_tidy env w3) as (T4 & a4 & E4 & W4 & K4).
  assert (Habs : forall p, temp_img_path w3 = Some p -> truthy p = true ->
                           fs (cleanup_temp_img env w3).2 !! p = None).
  { intros p Hp Ht. unfold cleanup_temp_img, bind, get_temp_img_path, os_path_exists.
    rewrite Hp, Ht.
    destruct (bool_decide (is_Some (fs w3 !! p))) eqn:Ex.
    - unfold remove_or_warn, try_except. rewrite remove_file_deletes. simpl.
      apply lookup_delete_eq.
    - simpl. apply bool_decide_eq_false in Ex. apply eq_None_not_Some. exact Ex. }
  exists (a4 ++ a). split; [rewrite E4, E; apply app_assoc|]. split.
  - intros p Hp. apply elem_of_app in Hp as [Hp|Hp]; [apply W4, Hp|].
    destruct (W p Hp) as [Hn|[Hs Ht]]; [apply K4, Hn|apply Habs; assumption].
  - intros p Hp. destruct (K p Hp) as [Hn|[Hs Ht]]; [apply K4, Hn|apply Habs; assumption].
Qed.

Lemma tidy_owes w w' : tidy w w' -> owes w w'.
Proof. intros H. apply clean_owes, tidy_clean, H. Qed.

Lemma always_tidy_then_owes {A B} (m : M A) (k : A -> M B) :
  always tidy m -> (forall a, always owes (k a)) -> always owes (bind m k).
Proof.
  apply (always_bind_then tidy owes owes).
  - apply tidy_owes.
  - apply tidy_then_owes.
Qed.

Lemma always_owes_then_tidy {A B} (m : M A) (k : A -> M B) :
  always owes m -> (forall a, always tidy (k a)) -> always owes (bind m k).
Proof.
  apply (always_bind_then owes tidy owes).
  - intros x y H. exact H.
  - apply owes_then_tidy.
Qed.

Lemma always_owes_except_tidy {A} (body : M A) (handler : exn -> M A) :
  always owes body -> (forall e, always tidy (handler e)) ->
  always owes (try_except body handler).
Proof.
  apply (always_try_except_then owes tidy owes).
  - intros x y H. exact H.
  - apply owes_then_tidy.
Qed.

Lemma get_face_embedding_try_owes b : always owes (get_face_embedding_try env b).
Proof.
  unfold get_face_embedding_try.
  apply always_owes_except_tidy.
  - apply always_tidy_then_owes; [runs|].
    intros img. apply always_owes_then_tidy.
    + apply save_and_detect_owes.
    + intros pf. runs.
  - intros e. runs.
Qed.

Lemma recognize_faces_try_owes b : always owes (recognize_faces_try env b).
Proof.
  unfold recognize_faces_try.
  apply always_owes_except_tidy.
  - apply always_tidy_then_owes; [runs|].
    intros img. apply always_tidy_then_owes; [runs|].
    intros [|s students].
    + apply (always_weaken tidy); [apply tidy_owes|]. runs.
    + apply always_owes_then_tidy.
      * apply save_and_detect_owes.
      * intros [path [|f faces]]; simpl.
        -- runs.
        -- apply recognize_detected_tidy.
  - intros e. runs.
Qed.

Lemma set_temp_img_path_clean p w : clean w (set_temp_img_path p w).2.
Proof.
  exists []. split; [reflexivity|]. split.
  - intros q Hq. inversion Hq.
  - intros q Hq. exact Hq.
Qed.

Lemma get_face_embedding_clean b w : clean w (get_face_embedding env b w).2.
Proof.
  unfold get_face_embedding, bind. simpl. rewrite try_finally_state.
  etransitivity; [apply (set_temp_img_path_clean None)|].
  apply cleanup_temp_img_settles, get_face_embedding_try_owes.
Qed.

Lemma recognize_faces_clean b w : clean w (recognize_faces env b w).2.
Proof.
  unfold recognize_faces, bind. simpl. rewrite try_finally_state.
  etransitivity; [apply (set_temp_img_path_clean None)|].
  apply cleanup_temp_img_settles, recognize_faces_try_owes.
Qed.

End RemovalSucceeds.
End Cleanup.

(** * The loop over the faces *)

Section Loop.
Variable env : Capabilities.

Lemma try_except_returns {A} (body : M A) (handler : exn -> M A) w :
  (forall e w1, exists a, (handler e w1).1 = inr a) ->
  exists a, (try_except body handler w).1 = inr a.
Proof.
  intros Hh. unfold try_except. destruct (body w) as [[e|a] w1].
  - apply Hh.
  - exists a. reflexivity.
Qed.

Lemma process_single_face_try_returns path f idx students w :
  exists m, (process_single_face_try env path f idx students w).1 = inr m.
Proof.
  unfold process_single_face_try. apply try_except_returns.
  intros e w1. exists None. reflexivity.
Qed.

Lemma process_single_face_returns f idx students w :
  exists m, (process_single_face env f idx students w).1 = inr m.
Proof.
  unfold process_single_face, bind, uuid4 at 1, bind, record, ret. simpl.
  rewrite try_finally_result by apply cleanup_face_returns.
  apply process_single_face_try_returns.
Qed.

Lemma recognize_loop_results students faces : forall idx acc w,
  (recognize_loop env students idx faces acc w).1 =
    inr (acc ++ matched_ids (face_results env students idx faces w)).
Proof.
  induction faces as [|f rest IH]; intros idx acc w; simpl.
  - rewrite app_nil_r. reflexivity.
  - unfold bind.
    destruct (process_single_face_returns f idx students w) as [m Hm].
    destruct (process_single_face env f idx students w) as [r w1]. simpl in *.
    subst r. simpl.
    destruct m as [id|]; simpl.
    + destruct (truthy id); rewrite IH; simpl.
      * rewrite <- app_assoc. reflexivity.
      * reflexivity.
    + apply IH.
Qed.

Lemma recognize_detected_results students faces w :
  exists w0, adds not_fetch w w0 /\ fs w0 = fs w /\ calls w0 = calls w /\
  (recognize_detected env students faces w).1 =
    inr (matched_ids (face_results env students 0 faces w0)).
Proof.
  exists (logger INFO ("Detected " +:+ pretty (Z.of_nat (length faces))
                       +:+ " faces in image") w).2.
  split; [apply logger_adds|]. split; [reflexivity|]. split; [reflexivity|].
  unfold recognize_detected, bind at 1.
  destruct (logger INFO _ w) as [[e|[]] w0] eqn:E; [discriminate|]. simpl.
  unfold bind at 1.
  pose proof (recognize_loop_results students faces 0 [] w0) as H.
  destruct (recognize_loop env students 0 faces [] w0) as [r w1]. simpl in H.
  subst r. simpl.
  destruct (matched_ids (face_results env students 0 faces w0)); reflexivity.
Qed.

Lemma occurrences_app {A} `{EqDecision A} (x : A) l1 l2 :
  occurrences x (l1 ++ l2) = (occurrences x l1 + occurrences x l2)%nat.
Proof. induction l1 as [|y l1 IH]; simpl; [reflexivity|]. rewrite IH. lia. Qed.

Lemma matched_ids_occurrences results id :
  truthy id = true ->
  occurrences id (matched_ids results) = occurrences (Some id) results.
Proof.
  intros Ht. induction results as [|r rest IH]; simpl; [reflexivity|].
  rewrite occurrences_app, IH. f_equal.
  destruct r as [id'|]; simpl.
  - destruct (truthy id') eqn:Ht'; simpl.
    + destruct (decide (id' = id)) as [->|Hne].
      * rewrite !bool_decide_eq_true_2 by reflexivity. reflexivity.
      * rewrite !bool_decide_eq_false_2 by congruence. reflexivity.
    + rewrite bool_decide_eq_false_2; [reflexivity|]. intros [= ->]. congruence.
  - reflexivity.
Qed.

Lemma matched_ids_length results : (length (matched_ids results) <= length results)%nat.
Proof.
  induction results as [|r rest IH]; simpl; [lia|].
  rewrite length_app.
  destruct r as [id|]; simpl; [destruct (truthy id); simpl|]; lia.
Qed.

Lemma face_results_length students faces : forall idx w,
  length (face_results env students idx faces w) = length faces.
Proof. induction faces as [|f rest IH]; intros idx w; simpl; [reflexivity|]. rewrite IH. reflexivity. Qed.

End Loop.

Section Inversion.
Variable env : Capabilities.

Lemma try_except_inr {A} (body : M A) (handler : exn -> M A) w a w' :
  (forall e w1, exists e', (handler e w1).1 = inl e') ->
  try_except body handler w = (inr a, w') -> body w = (inr a, w').
Proof.
  intros Hh. unfold try_except. destruct (body w) as [[e|a0] w1]; intros H.
  - destruct (Hh e w1) as [e' He']. rewrite H in He'. discriminate.
  - exact H.
Qed.

Lemma decode_and_preprocess_inr b w img' w1 :
  decode_and_preprocess env b w = (inr img', w1) ->
  w1 = w /\
  exists img, cv2_imdecode env b = inr (Some img) /\ cv2_transforms env img = inr img'.
Proof.
  unfold decode_and_preprocess, bind, lift.
  destruct (cv2_imdecode env b) as [f|[img|]]; simpl; [discriminate| |discriminate].
  unfold preprocess_image, try_except, lift. simpl.
  destruct (cv2_transforms env img) as [f|img0] eqn:Et; simpl; [discriminate|].
  intros [= <- <-]. split; [reflexivity|]. exists img. split; [reflexivity|exact Et].
Qed.

Lemma get_all_embeddings_inr w students w1 :
  get_all_embeddings env w = (inr students, w1) ->
  students_find env (now w) = inr students /\
  calls w1 = CallFind :: calls w /\ fs w1 = fs w /\
  temp_img_path w1 = temp_img_path w.
Proof.
  unfold get_all_embeddings, try_except, bind, find_students, bind, record, lift. simpl.
  destruct (students_find env (now w)) as [f|[|s l]] eqn:Ef; simpl; [discriminate| |];
    intros [= <- <-]; repeat split; reflexivity.
Qed.

Lemma compare_students_member objs students : forall m acc w id,
  (compare_students env objs students m acc w).1 = inr (Some id) ->
  acc = Some id \/ exists s, s ∈ students /\ studentId s = id.
Proof.
  induction students as [|s rest IH]; intros m acc w id; simpl.
  - unfold ret. simpl. intros [= ->]. left. reflexivity.
  - unfold bind.
    destruct (first_embedding objs w) as [[e|q] w1]; cbn [fst snd]; [discriminate|].
    destruct (norm_of_difference env q (embedding s) w1) as [[e|d] w2]; cbn [fst snd];
      [discriminate|].
    destruct (PrimFloat.ltb d m && PrimFloat.ltb d threshold); intros H; apply IH in H.
    + destruct H as [[= <-]|(s' & Hin & Hid)].
      * right. exists s. split; [left|reflexivity].
      * right. exists s'. split; [right; exact Hin|exact Hid].
    + destruct H as [->|(s' & Hin & Hid)]; [left; reflexivity|].
      right. exists s'. split; [right; exact Hin|exact Hid].
Qed.

Lemma process_single_face_member f idx students w id :
  (process_single_face env f idx students w).1 = inr (Some id) ->
  exists s, s ∈ students /\ studentId s = id.
Proof.
  unfold process_single_face, bind, uuid4 at 1, bind, record, ret. simpl.
  rewrite try_finally_result by apply cleanup_face_returns.
  unfold process_single_face_try, embed_and_match, try_except.
  match goal with |- context [bind ?m ?k ?w0] => destruct (bind m k w0) as [[e|r] w1] eqn:E end.
  - simpl. discriminate.
  - simpl. intros [= ->].
    apply bind_inr in E as (b & w2 & _ & E).
    apply bind_inr in E as (objs & w3 & _ & E).
    unfold match_students in E.
    assert (H : (compare_students env objs students infinity None w3).1 = inr (Some id))
      by (rewrite E; reflexivity).
    apply compare_students_member in H as [H|H]; [discriminate|exact H].
Qed.

Lemma face_results_member students faces : forall idx w id,
  Some id ∈ face_results env students idx faces w ->
  exists s, s ∈ students /\ studentId s = id.
Proof.
  induction faces as [|f rest IH]; intros idx w id; simpl.
  - intros H. inversion H.
  - intros H. apply elem_of_cons in H as [H|H].
    + destruct (process_single_face_returns env f idx students w) as [m Hm].
      rewrite Hm in H. simpl in H. subst m.
      apply process_single_face_member in Hm. exact Hm.
    + apply IH in H. exact H.
Qed.

Lemma matched_ids_member results id :
  id ∈ matched_ids results -> Some id ∈ results.
Proof.
  induction results as [|r rest IH]; simpl.
  - intros H. inversion H.
  - intros H. apply elem_of_app in H as [H|H].
    + destruct r as [id'|]; [|inversion H].
      destruct (truthy id'); [|inversion H].
      apply list_elem_of_singleton in H. subst. left.
    + right. apply IH, H.
Qed.

Lemma adds_same_calls P w w' : calls w' = calls w -> adds P w w'.
Proof. intros H. exists []. split; [exact H|constructor]. Qed.

(** What a successful run of [recognize_faces] went through. *)
Lemma recognize_faces_inr b w ids w' :
  recognize_faces env b w = (inr ids, w') ->
  exists students w1,
    students_find env (now w) = inr students /\
    calls w1 = CallFind :: calls w /\ fs w1 = fs w /\
    adds not_fetch w1 w' /\
    (ids = [] \/
     exists img path faces w2 w3,
       save_and_detect env img w1 = (inr (path, faces), w2) /\
       fs w3 = fs w2 /\ calls w3 = calls w2 /\
       ids = matched_ids (face_results env students 0 faces w3)).
Proof.
  unfold recognize_faces, bind at 1. simpl.
  set (w0 := {| fs := fs w; log := log w; calls := calls w; temp_img_path := None |}).
  intros H.
  assert (Hr : (recognize_faces_try env b w0).1 = inr ids).
  { rewrite <- (try_finally_result _ (cleanup_temp_img env)) by apply cleanup_temp_img_returns.
    rewrite H. reflexivity. }
  assert (Hw : w' = (cleanup_temp_img env (recognize_faces_try env b w0).2).2).
  { rewrite <- try_finally_state, H. reflexivity. }
  destruct (recognize_faces_try env b w0) as [r wt] eqn:Et. simpl in Hr, Hw. subst r.
  unfold recognize_faces_try in Et.
  apply try_except_inr in Et; [|intros e w1; eexists; reflexivity].
  apply bind_inr in Et as (img & wa & Hdp & Et).
  apply decode_and_preprocess_inr in Hdp as [-> _].
  apply bind_inr in Et as (students & w1 & Hg & Et).
  pose proof Hg as Hg'.
  apply get_all_embeddings_inr in Hg' as (Hfind & Hcalls & Hfs & Htmp).
  exists students, w1. split; [exact Hfind|]. split; [exact Hcalls|]. split; [exact Hfs|].
  destruct students as [|s students].
  - unfold bind, logger, ret in Et. simpl in Et. injection Et as <- <-.
    split; [|left; reflexivity]. subst w'.
    etransitivity; [|apply cleanup_temp_img_adds].
    apply adds_same_calls. reflexivity.
  - apply bind_inr in Et as ([path faces] & w2 & Hsd & Et). simpl in Et.
    assert (H12 : adds not_fetch w1 w2).
    { pose proof (save_and_detect_adds env img w1) as Ha. rewrite Hsd in Ha. exact Ha. }
    destruct faces as [|f faces].
    + unfold bind, logger, ret in Et. simpl in Et. injection Et as <- <-.
      split; [|left; reflexivity]. subst w'.
      etransitivity; [exact H12|].
      etransitivity; [|apply cleanup_temp_img_adds].
      apply adds_same_calls. reflexivity.
    + split.
      * subst w'. etransitivity; [exact H12|].
        etransitivity; [|apply cleanup_temp_img_adds].
        pose proof (recognize_detected_adds env (s :: students) (f :: faces) w2) as Ha.
        rewrite Et in Ha. exact Ha.
      * right.
        destruct (recognize_detected_results env (s :: students) (f :: faces) w2)
          as (w3 & _ & Hfs3 & Hcalls3 & Hres).
        rewrite Et in Hres. simpl in Hres. injection Hres as ->.
        exists img, path, (f :: faces), w2, w3.
        repeat split; assumption.
Qed.

End Inversion.

(** * The matcher *)

Section Matcher.
Variable env : Capabilities.
Import FloatOrder.

Lemma ltb_asym x y : PrimFloat.ltb x y = true -> PrimFloat.ltb y x = false.
Proof.
  intros H. destruct (PrimFloat.ltb y x) eqn:E; [|reflexivity].
  pose proof (ltb_trans _ _ _ H E) as Hxx. rewrite ltb_irrefl in Hxx. discriminate.
Qed.

Lemma ltb_not_leb x y : PrimFloat.ltb x y = true -> PrimFloat.leb y x = false.
Proof.
  intros H. destruct (PrimFloat.leb y x) eqn:E; [|reflexivity].
  pose proof (leb_ltb_trans _ _ _ E H) as Hxx. rewrite ltb_irrefl in Hxx. discriminate.
Qed.

Lemma threshold_below_infinity : PrimFloat.ltb threshold infinity = true.
Proof. reflexivity. Qed.

Lemma first_embedding_run q more w :
  first_embedding ({| rep_embedding := Some q |} :: more) w = (inr q, w).
Proof. reflexivity. Qed.

Lemma norm_of_difference_run a b w :
  norm_of_difference env a b w =
    (outcome (euclidean env a b),
     {| fs := fs w; log := log w; calls := CallNorm :: calls w;
        temp_img_path := temp_img_path w |}).
Proof. reflexivity. Qed.

Lemma compare_students_step objs q more s rest m acc w d :
  objs = {| rep_embedding := Some q |} :: more ->
  euclidean env q (embedding s) = inr d ->
  compare_students env objs (s :: rest) m acc w =
    (if PrimFloat.ltb d m && PrimFloat.ltb d threshold
     then compare_students env objs rest d (Some (studentId s))
     else compare_students env objs rest m acc)
      {| fs := fs w; log := log w; calls := CallNorm :: calls w;
         temp_img_path := temp_img_path w |}.
Proof.
  intros -> Hd. cbn [compare_students]. unfold bind.
  rewrite first_embedding_run, norm_of_difference_run, Hd. reflexivity.
Qed.

(** The loop, one candidate after the other: either no candidate passed the
    test and the match is the one the loop started with, or the match is the
    first of the nearest candidates. *)
Lemma compare_students_selects q more students :
  Forall (fun s => exists d, euclidean env q (embedding s) = inr d) students ->
  forall m acc w,
  exists res,
    (compare_students env ({| rep_embedding := Some q |} :: more) students m acc w).1 = inr res /\
    ((res = acc /\
      forall s d, s ∈ students -> euclidean env q (embedding s) = inr d ->
        PrimFloat.ltb d m && PrimFloat.ltb d threshold = false) \/
     (exists i s d,
        first_minimum (fun s => euclidean env q (embedding s)) students i s d /\
        res = Some (studentId s) /\
        PrimFloat.ltb d m = true /\ PrimFloat.ltb d threshold = true)).
Proof.
  induction 1 as [|s rest [d Hd] _ IH]; intros m acc w.
  - exists acc. split; [reflexivity|]. left. split; [reflexivity|].
    intros s d Hs. inversion Hs.
  - rewrite (compare_students_step _ q more s rest m acc w d eq_refl Hd).
    destruct (PrimFloat.ltb d m && PrimFloat.ltb d threshold) eqn:Etest.
    + apply andb_prop in Etest as [Hdm Hdt].
      match goal with |- context [compare_students env _ rest d _ ?w0] =>
        destruct (IH d (Some (studentId s)) w0) as (res & Hres & Hcase) end.
      exists res. split; [exact Hres|]. right.
      destruct Hcase as [[-> Hall]|(i & s' & d' & (Hi & Hd' & Hmin & Hfirst) & -> & Hlt & Hthr)].
      * exists 0%nat, s, d. split; [|auto].
        split; [reflexivity|]. split; [exact Hd|]. split.
        -- intros s' d' Hin Hd'. apply elem_of_cons in Hin as [->|Hin].
           ++ rewrite Hd in Hd'. injection Hd' as <-. apply ltb_irrefl.
           ++ specialize (Hall s' d' Hin Hd').
              destruct (PrimFloat.ltb d' d) eqn:E; [|reflexivity].
              rewrite (ltb_trans _ _ _ E Hdt) in Hall. discriminate.
        -- intros j s' d' Hj. lia.
      * exists (S i), s', d'. split; [|split; [reflexivity|split; [|exact Hthr]]].
        -- split; [exact Hi|]. split; [exact Hd'|]. split.
           ++ intros s'' d'' Hin Hd''. apply elem_of_cons in Hin as [->|Hin].
              ** rewrite Hd in Hd''. injection Hd'' as <-. apply ltb_asym, Hlt.
              ** apply (Hmin s'' d'' Hin Hd'').
           ++ intros [|j] s'' d'' Hj Hs'' Hd''.
              ** injection Hs'' as <-. rewrite Hd in Hd''. injection Hd'' as <-.
                 apply ltb_not_leb, Hlt.
              ** apply (Hfirst j s'' d''); [lia|exact Hs''|exact Hd''].
        -- apply (ltb_trans _ _ _ Hlt Hdm).
    + match goal with |- context [compare_students env _ rest m acc ?w0] =>
        destruct (IH m acc w0) as (res & Hres & Hcase) end.
      exists res. split; [exact Hres|].
      destruct Hcase as [[-> Hall]|(i & s' & d' & (Hi & Hd' & Hmin & Hfirst) & -> & Hlt & Hthr)].
      * left. split; [reflexivity|].
        intros s' d' Hin Hd'. apply elem_of_cons in Hin as [->|Hin].
        -- rewrite Hd in Hd'. injection Hd' as <-. exact Etest.
        -- apply (Hall s' d' Hin Hd').
      * right. exists (S i), s', d'. split; [|auto].
        assert (Hle : PrimFloat.leb d d' = false).
        { destruct (PrimFloat.leb d d') eqn:E; [|reflexivity].
          rewrite (leb_ltb_trans _ _ _ E Hlt), (leb_ltb_trans _ _ _ E Hthr) in Etest.
          discriminate. }
        split; [exact Hi|]. split; [exact Hd'|]. split.
        -- intros s'' d'' Hin Hd''. apply elem_of_cons in Hin as [->|Hin].
           ++ rewrite Hd in Hd''. injection Hd'' as <-.
              destruct (PrimFloat.ltb d d') eqn:E; [|reflexivity].
              rewrite (ltb_trans _ _ _ E Hlt), (ltb_trans _ _ _ E Hthr) in Etest.
              discriminate.
           ++ apply (Hmin s'' d'' Hin Hd'').
        -- intros [|j] s'' d'' Hj Hs'' Hd''.
           ++ injection Hs'' as <-. rewrite Hd in Hd''. injection Hd'' as <-. exact Hle.
           ++ apply (Hfirst j s'' d''); [lia|exact Hs''|exact Hd''].
Qed.

End Matcher.

Section MatcherRefinement.
Variable env : Capabilities.
Import FloatOrder.

Lemma threshold_not_nan : PrimFloat.eqb threshold threshold = true.
Proof. reflexivity. Qed.

Lemma infinity_not_nan : PrimFloat.eqb infinity infinity = true.
Proof. reflexivity. Qed.

(** On vectors of the same dimension the distance the code computes is
    the spec's. *)
Lemma euclidean_same_length a b :
  length b = length a -> euclidean env a b = inr (l2_distance env a b).
Proof.
  intros H. unfold euclidean, np_subtract, l2_distance, np_linalg_norm.
  rewrite H, Nat.eqb_refl. reflexivity.
Qed.

Lemma same_dimension_defined q students :
  same_dimension q students ->
  Forall (fun s => exists d, euclidean env q (embedding s) = inr d) students.
Proof.
  intros H. eapply Forall_impl; [exact H|].
  intros s Hs. eexists. apply euclidean_same_length, Hs.
Qed.

(** The one-pass loop of the code against the two phases of the spec. *)
Lemma compare_students_refines q more students :
  same_dimension q students ->
  forall m acc best w,
  PrimFloat.eqb best.1 best.1 = true ->
  (PrimFloat.ltb best.1 threshold = true /\ m = best.1 /\ acc = best.2) \/
  (PrimFloat.ltb best.1 threshold = false /\ m = infinity /\ acc = None) ->
  (compare_students env ({| rep_embedding := Some q |} :: more) students m acc w).1 =
    inr (let final := nearest env q students best in
         if PrimFloat.ltb final.1 threshold then final.2 else None).
Proof.
  induction 1 as [|s rest Hs _ IH]; intros m acc best w Hnan Hinv.
  - simpl. destruct Hinv as [(-> & _ & ->)|(-> & _ & ->)]; reflexivity.
  - pose proof (euclidean_same_length q (embedding s) Hs) as Hd.
    set (d := l2_distance env q (embedding s)) in *.
    rewrite (compare_students_step env _ q more s rest m acc w d eq_refl Hd).
    cbn [nearest]. cbv zeta. fold d.
    destruct Hinv as [(Hthr & -> & ->)|(Hthr & -> & ->)].
    + destruct (PrimFloat.ltb d best.1) eqn:Hlt.
      * rewrite (ltb_trans _ _ _ Hlt Hthr). simpl.
        apply IH; simpl.
        -- apply (ltb_not_nan _ _ Hlt).
        -- left. split; [apply (ltb_trans _ _ _ Hlt Hthr)|split; reflexivity].
      * simpl. apply IH; [exact Hnan|]. left. auto.
    + destruct (PrimFloat.ltb d threshold) eqn:Hdt.
      * assert (Hdb : PrimFloat.ltb d best.1 = true).
        { apply (ltb_leb_trans _ threshold); [exact Hdt|].
          apply ltb_false_leb; [exact Hnan|apply threshold_not_nan|exact Hthr]. }
        rewrite Hdb, (ltb_trans d threshold infinity Hdt threshold_below_infinity). simpl.
        apply IH; simpl.
        -- apply (ltb_not_nan _ _ Hdt).
        -- left. auto.
      * rewrite andb_false_r.
        destruct (PrimFloat.ltb d best.1) eqn:Hdb.
        -- apply IH; simpl; [apply (ltb_not_nan _ _ Hdb)|]. right. auto.
        -- apply IH; [exact Hnan|]. right. auto.
Qed.

Lemma replicate_shift {A} (x : A) n l :
  replicate n x ++ x :: l = x :: replicate n x ++ l.
Proof. induction n as [|n IH]; simpl; [reflexivity|]. rewrite IH. reflexivity. Qed.

(** Every candidate is scanned: one distance is computed for each, and
    nothing else is done. *)
Lemma compare_students_scans q more students :
  Forall (fun s => exists d, euclidean env q (embedding s) = inr d) students ->
  forall m acc w,
  let w' := (compare_students env ({| rep_embedding := Some q |} :: more) students m acc w).2 in
  calls w' = replicate (length students) CallNorm ++ calls w /\
  fs w' = fs w /\ log w' = log w.
Proof.
  induction 1 as [|s rest [d Hd] _ IH]; intros m acc w.
  - repeat split; reflexivity.
  - cbv zeta. rewrite (compare_students_step env _ q more s rest m acc w d eq_refl Hd).
    destruct (PrimFloat.ltb d m && PrimFloat.ltb d threshold);
      match goal with |- context [compare_students env _ rest ?m0 ?a0 ?w0] =>
        destruct (IH m0 a0 w0) as (Hc & Hf & Hl) end;
      rewrite Hc, Hf, Hl; simpl; rewrite replicate_shift; repeat split; reflexivity.
Qed.

(** A match is the identity of a candidate that passed the threshold test,
    whatever else the loop met. *)
Lemma compare_students_accepts objs students : forall m acc w id,
  (compare_students env objs students m acc w).1 = inr (Some id) ->
  acc = Some id \/
  exists q more s d, objs = {| rep_embedding := Some q |} :: more /\
    s ∈ students /\ studentId s = id /\
    euclidean env q (embedding s) = inr d /\ PrimFloat.ltb d threshold = true.
Proof.
  induction students as [|s rest IH]; intros m acc w id.
  - simpl. unfold ret. simpl. intros [= ->]. left. reflexivity.
  - cbn [compare_students]. unfold bind.
    destruct objs as [|[[q|]] more]; try (simpl; discriminate).
    rewrite first_embedding_run, norm_of_difference_run.
    destruct (euclidean env q (embedding s)) as [f|d] eqn:Hd; [simpl; discriminate|].
    cbn [outcome].
    destruct (PrimFloat.ltb d m && PrimFloat.ltb d threshold) eqn:Etest;
      intros H; apply IH in H.
    + apply andb_prop in Etest as [_ Hdt].
      destruct H as [[= <-]|(q' & more' & s' & d' & [= <- <-] & Hin & Hid & Hd' & Ht)].
      * right. exists q, more, s, d. split; [reflexivity|]. split; [left|]. auto.
      * right. exists q, more, s', d'. split; [reflexivity|]. split; [right; exact Hin|]. auto.
    + destruct H as [->|(q' & more' & s' & d' & [= <- <-] & Hin & Hid & Hd' & Ht)].
      * left. reflexivity.
      * right. exists q, more, s', d'. split; [reflexivity|]. split; [right; exact Hin|]. auto.
Qed.

End MatcherRefinement.

(** * The detection retry wrapper *)

Section Retry.
Variable env : Capabilities.

Lemma extract_faces_run img_path w :
  extract_faces env img_path w =
    (outcome (DeepFace_extract_faces env (now w) (fs w !! img_path)),
     {| fs := fs w; log := log w; calls := CallExtractFaces img_path :: calls w;
        temp_img_path := temp_img_path w |}).
Proof. reflexivity. Qed.

(** One round of the loop: what it answers, and the calls it makes. *)
Lemma extract_faces_attempt_run img_path max_retries attempt w :
  let answer := DeepFace_extract_faces env (now w) (fs w !! img_path) in
  let r := extract_faces_attempt env img_path max_retries attempt w in
  fs r.2 = fs w /\ temp_img_path r.2 = temp_img_path w /\
  match answer with
  | inr (f :: faces) =>
      r.1 = inr (Return (f :: faces)) /\
      calls r.2 = CallExtractFaces img_path :: calls w
  | inr [] =>
      r.1 = inr Continue /\
      calls r.2 = (if attempt <? max_retries - 1 then [CallSleep 1] else [])
                    ++ CallExtractFaces img_path :: calls w
  | inl f =>
      if attempt <? max_retries - 1
      then r.1 = inr Continue /\
           calls r.2 = CallSleep 1 :: CallExtractFaces img_path :: calls w
      else r.1 = inl (Raised f.1 f.2) /\
           calls r.2 = CallExtractFaces img_path :: calls w
  end.
Proof.
  cbv zeta. unfold extract_faces_attempt, try_except, bind.
  rewrite extract_faces_run.
  destruct (DeepFace_extract_faces env (now w) (fs w !! img_path)) as [f|[|f faces]];
    cbn [outcome fst snd];
    destruct (attempt <? max_retries - 1); repeat split; reflexivity.
Qed.

Lemma detections_app l1 l2 :
  detections (l1 ++ l2) = (detections l1 + detections l2)%nat.
Proof.
  induction l1 as [|c l1 IH]; [reflexivity|].
  destruct c; cbn [app detections]; rewrite IH; reflexivity.
Qed.

(** A round of the loop calls the detector once. *)
Lemma extract_faces_attempt_calls img_path max_retries attempt w :
  exists added,
    calls (extract_faces_attempt env img_path max_retries attempt w).2
      = added ++ calls w /\ detections added = 1%nat.
Proof.
  pose proof (extract_faces_attempt_run img_path max_retries attempt w) as H.
  cbv zeta in H. destruct H as (_ & _ & H).
  destruct (DeepFace_extract_faces env (now w) (fs w !! img_path)) as [f|[|f faces]].
  - destruct (attempt <? max_retries - 1); destruct H as [_ ->].
    + exists [CallSleep 1; CallExtractFaces img_path]. split; reflexivity.
    + exists [CallExtractFaces img_path]. split; reflexivity.
  - destruct H as [_ ->]. destruct (attempt <? max_retries - 1).
    + exists [CallSleep 1; CallExtractFaces img_path]. split; reflexivity.
    + exists [CallExtractFaces img_path]. split; reflexivity.
  - destruct H as [_ ->]. exists [CallExtractFaces img_path]. split; reflexivity.
Qed.

(** The loop calls the detector at most once per attempt. *)
Lemma extract_faces_rounds_bound img_path max_retries attempts : forall w,
  exists added,
    calls (extract_faces_rounds env img_path max_retries attempts w).2
      = added ++ calls w /\ (detections added <= length attempts)%nat.
Proof.
  induction attempts as [|attempt rest IH]; intros w.
  - exists []. split; [reflexivity|]. simpl. lia.
  - cbn [extract_faces_rounds]. unfold bind.
    destruct (extract_faces_attempt_calls img_path max_retries attempt w)
      as (a1 & E1 & D1).
    destruct (extract_faces_attempt env img_path max_retries attempt w)
      as [[e|[faces|]] w1]; cbn [fst snd] in E1 |- *.
    + exists a1. split; [exact E1|]. simpl. lia.
    + exists a1. split; [exact E1|]. simpl. lia.
    + destruct (IH w1) as (a2 & E2 & D2).
      exists (a2 ++ a1). split.
      * rewrite E2, E1. apply app_assoc.
      * rewrite detections_app. simpl. lia.
Qed.

Lemma range_length n : length (range n) = Z.to_nat n.
Proof. unfold range. rewrite length_map, length_seq. reflexivity. Qed.

End Retry.

(** C6.  [extract_faces_with_retry], with its default of three attempts,
    calls the detector at most three times.  An attempt that finds a face
    ends the loop with its faces.  An attempt before the last one that finds
    no face, or that raises, is followed by one [time.sleep(1)] and another
    attempt.  When the last attempt finds no face the result is the empty
    list; when it raises, its exception reaches the caller.  The files are
    left as they were.  Whatever [max_retries] is, the detector is called at
    most [max_retries] times. *)
Theorem retry_policy (env : Capabilities) (img_path : string) (w : State) :
  let answer n := DeepFace_extract_faces env (n + now w) (fs w !! img_path) in
  let detect := CallExtractFaces img_path in
  let backoff := CallSleep 1 in
  let r := (extract_faces_with_retry env img_path default_max_retries w).1 in
  let w' := (extract_faces_with_retry env img_path default_max_retries w).2 in
  fs w' = fs w /\
  ((found (answer 0%nat) = true /\ r = outcome (answer 0%nat) /\
    calls w' = [detect] ++ calls w) \/
   (found (answer 0%nat) = false /\ found (answer 2%nat) = true /\
    r = outcome (answer 2%nat) /\
    calls w' = [detect; backoff; detect] ++ calls w) \/
   (found (answer 0%nat) = false /\ found (answer 2%nat) = false /\
    r = outcome (answer 4%nat) /\
    calls w' = [detect; backoff; detect; backoff; detect] ++ calls w)) /\
  (forall max_retries, exists added,
     calls (extract_faces_with_retry env img_path max_retries w).2
       = added ++ calls w /\
     (detections added <= Z.to_nat max_retries)%nat).
Proof.
  cbv zeta.
  match goal with |- ?A /\ ?B /\ ?C =>
    cut (A /\ B); [intros [HA HB]; split; [exact HA|split; [exact HB|]]|]
  end.
  { intros max_retries. rewrite <- range_length.
    apply extract_faces_rounds_bound. }
  unfold extract_faces_with_retry, default_max_retries, range.
  change (map Z.of_nat (seq 0 (Z.to_nat 3))) with [0; 1; 2].
  cbn [extract_faces_rounds]. unfold bind.
  pose proof (extract_faces_attempt_run env img_path 3 0 w) as H0. cbv zeta in H0.
  destruct (extract_faces_attempt env img_path 3 0 w) as [r0 w0].
  cbn [fst snd] in H0. destruct H0 as (F0 & T0 & H0).
  change (0 + now w)%nat with (now w).
  destruct (DeepFace_extract_faces env (now w) (fs w !! img_path)) as [f0|[|x0 l0]].
  3: { destruct H0 as [-> C0]. cbn [fst snd found outcome ret].
       split; [exact F0|]. left. repeat split. exact C0. }
  all: change (0 <? 3 - 1) with true in H0; cbn iota in H0; destruct H0 as [-> C0].
  all: cbn [found].
  all: pose proof (extract_faces_attempt_run env img_path 3 1 w0) as H1; cbv zeta in H1.
  all: destruct (extract_faces_attempt env img_path 3 1 w0) as [r1 w1].
  all: cbn [fst snd] in H1; destruct H1 as (F1 & T1 & H1).
  all: assert (N0 : now w0 = (2 + now w)%nat) by (unfold now; rewrite C0; reflexivity).
  all: rewrite N0, F0 in H1.
  all: destruct (DeepFace_extract_faces env (2 + now w) (fs w !! img_path)) as [f1|[|x1 l1]].
  3, 6: destruct H1 as [-> C1]; cbn [fst snd found outcome ret];
    (split; [congruence|]); right; left; repeat split; rewrite C1, C0; reflexivity.
  all: change (1 <? 3 - 1) with true in H1; cbn iota in H1; destruct H1 as [-> C1].
  all: cbn [found].
  all: pose proof (extract_faces_attempt_run env img_path 3 2 w1) as H2; cbv zeta in H2.
  all: destruct (extract_faces_attempt env img_path 3 2 w1) as [r2 w2].
  all: cbn [fst snd] in H2; destruct H2 as (F2 & T2 & H2).
  all: assert (N1 : now w1 = (4 + now w)%nat)
         by (unfold now; rewrite C1, C0; reflexivity).
  all: rewrite N1, F1, F0 in H2.
  all: destruct (DeepFace_extract_faces env (4 + now w) (fs w !! img_path)) as [f2|[|x2 l2]].
  all: change (2 <? 3 - 1) with false in H2; cbn iota in H2; destruct H2 as [-> C2].
  all: cbn [fst snd outcome ret].
  all: (split; [congruence|]); right; right; repeat split.
  all: rewrite C2, C1, C0; reflexivity.
Qed.

(** In the world [Scenario.flaky_detector] the detector raises at each of
    the three attempts made from the blank state: two backoffs, three
    calls, and the exception of the last attempt reaches the caller. *)
Lemma retry_policy_witness :
  (extract_faces_with_retry Scenario.flaky_detector "temp_0.jpg"
     default_max_retries Scenario.blank).1
    = inl (Raised OtherError "detector busy") /\
  calls (extract_faces_with_retry Scenario.flaky_detector "temp_0.jpg"
           default_max_retries Scenario.blank).2
    = [CallExtractFaces "temp_0.jpg"; CallSleep 1;
       CallExtractFaces "temp_0.jpg"; CallSleep 1;
       CallExtractFaces "temp_0.jpg"].
Proof.
  destruct (retry_policy Scenario.flaky_detector "temp_0.jpg" Scenario.blank)
    as (_ & [(H & _)|[(_ & H & _)|(_ & _ & Hr & Hc)]] & _).
  - discriminate H.
  - discriminate H.
  - split; [exact Hr|exact Hc].
Defined.

(** The same detector finds a face at its third attempt when two calls
    were made before the first one, as in [get_face_embedding]. *)
Example flaky_detector_recovers :
  (get_face_embedding Scenario.flaky_detector Scenario.photo Scenario.blank).1
    = inr [0.5%float; 0%float].
Proof. vm_compute. reflexivity. Qed.

(** * Batch recognition on an empty registry *)

(** C3, as the spec states it, fails: with an empty registry
    [recognize_faces] returns before the detection, not after it.  In the
    world [Scenario.empty_registry] the only call made is the fetch of the
    registry: the detector is never called. *)
Lemma empty_registry_skips_detection :
  students_find Scenario.empty_registry 0 = inr [] /\
  (recognize_faces Scenario.empty_registry Scenario.photo Scenario.blank).1 = inr [] /\
  calls (recognize_faces Scenario.empty_registry Scenario.photo Scenario.blank).2
    = [CallFind] /\
  ~ (exists path,
       CallExtractFaces path ∈
         calls (recognize_faces Scenario.empty_registry Scenario.photo Scenario.blank).2).
Proof.
  split; [reflexivity|]. split; [vm_compute; reflexivity|].
  assert (E : calls (recognize_faces Scenario.empty_registry Scenario.photo
                       Scenario.blank).2 = [CallFind]) by (vm_compute; reflexivity).
  split; [exact E|]. rewrite E. intros [path H].
  apply list_elem_of_singleton in H. discriminate.
Qed.

(** C3, amended.  When the image decodes and is preprocessed without
    error and the registry is empty,
    [recognize_faces] returns the empty list right after the fetch of the
    registry: that fetch is the only call it makes (no detection, no
    embedding, no distance), it writes no file and logs two warnings.  The
    matcher on an empty snapshot answers "unmatched" without a distance
    being computed, and so does [process_single_face] for every face. *)
Theorem empty_registry_short_circuits (env : Capabilities)
    (image_bytes : list Byte.byte) (w : State) (img img' : ndarray) :
  cv2_imdecode env image_bytes = inr (Some img) ->
  cv2_transforms env img = inr img' ->
  students_find env (now w) = inr [] ->
  recognize_faces env image_bytes w =
    (inr [],
     {| fs := fs w;
        log := log w ++ [(WARNING, "No student embeddings found in database")]
                     ++ [(WARNING, "No student embeddings available for comparison")];
        calls := CallFind :: calls w;
        temp_img_path := None |}) /\
  (forall objs w1, match_students env objs [] w1 = (inr None, w1)) /\
  (forall f idx w1, (process_single_face env f idx [] w1).1 = inr None).
Proof.
  intros Hdec Hpre Hfind. split; [|split].
  - unfold recognize_faces, bind at 1, set_temp_img_path. cbn [fst snd].
    unfold try_finally, recognize_faces_try, try_except, bind at 1.
    unfold decode_and_preprocess, bind at 1, bind at 1, lift. rewrite Hdec.
    cbn [outcome]. unfold ret at 1.
    unfold preprocess_image, try_except, lift. rewrite Hpre. cbn [outcome].
    unfold bind at 1, get_all_embeddings, try_except, bind at 1.
    unfold find_students, bind at 1, record, lift. cbn [fst snd].
    change (now {| fs := fs w; log := log w; calls := calls w; temp_img_path := None |})
      with (now w).
    rewrite Hfind. cbn [outcome]. unfold bind, logger, ret. cbn [fst snd].
    unfold cleanup_temp_img, bind, get_temp_img_path, ret.
    cbn [fst snd fs log calls temp_img_path].
    rewrite <- app_assoc. reflexivity.
  - intros objs w1. reflexivity.
  - intros f idx w1.
    destruct (process_single_face_returns env f idx [] w1) as [m Hm].
    rewrite Hm. destruct m as [id|]; [|reflexivity].
    apply process_single_face_member in Hm as (s & Hs & _). inversion Hs.
Qed.

Lemma empty_registry_short_circuits_witness :
  recognize_faces Scenario.empty_registry Scenario.photo Scenario.blank =
    (inr [],
     {| fs := ∅;
        log := [(WARNING, "No student embeddings found in database");
                (WARNING, "No student embeddings available for comparison")];
        calls := [CallFind];
        temp_img_path := None |}) /\
  (forall objs w1,
     match_students Scenario.empty_registry objs [] w1 = (inr None, w1)) /\
  (forall f idx w1,
     (process_single_face Scenario.empty_registry f idx [] w1).1 = inr None).
Proof.
  apply (empty_registry_short_circuits Scenario.empty_registry Scenario.photo
           Scenario.blank Scenario.pixels Scenario.pixels); reflexivity.
Defined.

(** * Enrollment: [get_face_embedding] *)

Section Raises.
Context {A B : Type} (P : exn -> Prop).

Lemma raises_ret (a : A) : raises P (ret a).
Proof. intros w e w' H. discriminate H. Qed.

Lemma raises_raise (e : exn) : P e -> raises P (@raise A e).
Proof. intros He w e' w' [= <- _]. exact He. Qed.

Lemma raises_lift (r : failure + A) :
  (forall f, P (Raised f.1 f.2)) -> raises P (lift r).
Proof. intros HP w e w'. destruct r as [f|a]; intros [= <- _]. apply HP. Qed.

Lemma raises_bind (m : M A) (k : A -> M B) :
  raises P m -> (forall a, raises P (k a)) -> raises P (bind m k).
Proof.
  intros Hm Hk w e w' H. apply bind_inl in H as [H|(a & w1 & _ & H)].
  - apply (Hm _ _ _ H).
  - apply (Hk _ _ _ _ H).
Qed.

Lemma raises_try_except (body : M A) (handler : exn -> M A) :
  raises P body -> (forall e, P e -> raises P (handler e)) ->
  raises P (try_except body handler).
Proof.
  intros Hm Hh w e w'. unfold try_except.
  destruct (body w) as [[e0|a] w1] eqn:E; intros H.
  - apply (Hh e0 (Hm _ _ _ E) _ _ _ H).
  - discriminate H.
Qed.

End Raises.

Section Enrollment.
Variable env : Capabilities.

Lemma record_raises c : raises from_library (record c).
Proof. intros w e w' H. discriminate H. Qed.

Lemma logger_raises l msg : raises from_library (logger l msg).
Proof. intros w e w' H. discriminate H. Qed.

Lemma decode_and_preprocess_raises b :
  raises from_library (decode_and_preprocess env b).
Proof.
  unfold decode_and_preprocess. apply raises_bind; [apply raises_lift; reflexivity|].
  intros decoded. apply raises_bind.
  - destruct decoded; [apply raises_ret|apply raises_raise; reflexivity].
  - intros img. unfold preprocess_image. apply raises_try_except.
    + apply raises_lift. reflexivity.
    + intros e He. apply raises_bind; [apply logger_raises|].
      intros _. apply raises_raise, He.
Qed.

Lemma imwrite_raises path img : raises from_library (imwrite env path img).
Proof.
  intros w e w'. unfold imwrite.
  destruct (cv2_imwrite env (now w) path img) as [f|[]]; intros [= <- _]. reflexivity.
Qed.

Lemma extract_faces_raises path : raises from_library (extract_faces env path).
Proof.
  intros w e w'. rewrite extract_faces_run.
  destruct (DeepFace_extract_faces env (now w) (fs w !! path)); intros [= <- _].
  reflexivity.
Qed.

Lemma extract_faces_with_retry_raises path n :
  raises from_library (extract_faces_with_retry env path n).
Proof.
  unfold extract_faces_with_retry. generalize (range n) as attempts.
  induction attempts as [|attempt rest IH]; cbn [extract_faces_rounds].
  - apply raises_ret.
  - apply raises_bind.
    + unfold extract_faces_attempt. apply raises_try_except.
      * apply raises_bind; [apply extract_faces_raises|].
        intros [|f faces]; [|apply raises_ret].
        apply raises_bind; [|intros _; apply raises_ret].
        destruct (attempt <? n - 1); [|apply raises_ret].
        apply raises_bind; [apply logger_raises|intros _; apply record_raises].
      * intros e He. destruct (attempt <? n - 1); [|apply raises_raise, He].
        apply raises_bind; [apply logger_raises|]. intros _.
        apply raises_bind; [apply record_raises|intros _; apply raises_ret].
    + intros [faces|]; [apply raises_ret|exact IH].
Qed.

Lemma save_and_detect_raises img : raises from_library (save_and_detect env img).
Proof.
  unfold save_and_detect.
  apply raises_bind; [intros w e w' H; discriminate H|]. intros hex.
  apply raises_bind; [intros w e w' H; discriminate H|]. intros _.
  apply raises_bind; [apply imwrite_raises|]. intros _.
  apply raises_bind; [apply extract_faces_with_retry_raises|]. intros faces.
  apply raises_ret.
Qed.

Lemma enrollment_detection_raises b :
  raises from_library (enrollment_detection env b).
Proof.
  unfold enrollment_detection.
  apply raises_bind; [intros w e w' H; discriminate H|]. intros _.
  apply raises_bind; [apply decode_and_preprocess_raises|]. intros img.
  apply save_and_detect_raises.
Qed.

(** [get_face_embedding] is the detection, then the test on the number of
    faces and the embedding, under the [except] clauses. *)
Lemma get_face_embedding_result b w :
  (get_face_embedding env b w).1 =
    match enrollment_detection env b w with
    | (inl e, w1) =>
        inl (HTTPException 500 ("Error processing face: " +:+ str e))
    | (inr pf, w1) =>
        match (single_embedding env pf.1 pf.2 w1).1 with
        | inl e =>
            if is_HTTPException e then inl e
            else inl (HTTPException 500 ("Error processing face: " +:+ str e))
        | inr x => inr x
        end
    end.
Proof.
  pose proof (enrollment_detection_raises b w) as Hlib.
  unfold get_face_embedding, bind at 1. cbn [set_temp_img_path fst snd].
  rewrite try_finally_result by apply cleanup_temp_img_returns.
  set (w0 := {| fs := fs w; log := log w; calls := calls w; temp_img_path := None |}).
  assert (Hd : enrollment_detection env b w =
               bind (decode_and_preprocess env b) (save_and_detect env) w0)
    by reflexivity.
  rewrite Hd in Hlib |- *. clear Hd.
  unfold get_face_embedding_try, try_except, bind in Hlib |- *.
  destruct (decode_and_preprocess env b w0) as [[e|img] w1].
  - rewrite (Hlib e w1 eq_refl). reflexivity.
  - destruct (save_and_detect env img w1) as [[e|pf] w2].
    + rewrite (Hlib e w2 eq_refl). reflexivity.
    + destruct (single_embedding env pf.1 pf.2 w2) as [[e|x] w3]; cbn [fst snd].
      * destruct (is_HTTPException e); reflexivity.
      * reflexivity.
Qed.

Lemma single_embedding_result path faces w :
  (single_embedding env path faces w).1 =
    match faces with
    | [] => inl (HTTPException 400 "No face detected in image")
    | [_] =>
        match (represent env path w).1 with
        | inl e => inl e
        | inr [] => inl (Raised ValueError "Failed to generate embedding")
        | inr (obj :: _) =>
            match rep_embedding obj with
            | None | Some [] => inl (Raised ValueError "Failed to generate embedding")
            | Some e => inr e
            end
        end
    | _ :: _ :: _ => inl (HTTPException 400 "Multiple faces detected in image")
    end.
Proof.
  destruct faces as [|f [|f' more]]; [reflexivity| |reflexivity].
  cbn [single_embedding]. unfold bind.
  destruct (represent env path w) as [[e|[|obj more]] w1]; cbn [fst snd];
    [reflexivity|reflexivity|].
  destruct (rep_embedding obj) as [[|x e]|]; reflexivity.
Qed.

Lemma represent_raises path : raises from_library (represent env path).
Proof.
  intros w e w'. unfold represent, bind, record, lift. cbn [fst snd].
  destruct (DeepFace_represent env (now w) (fs w !! path)); intros [= <- _].
  reflexivity.
Qed.

End Enrollment.

Ltac break_down :=
  repeat match goal with
    | H : exists _, _ |- _ => destruct H
    | H : _ /\ _ |- _ => destruct H
    end.

(** C7, as the spec states it, fails in one direction: exactly one detected
    face does not suffice for an embedding to be returned.  In the world
    [Scenario.model_down] the detector finds exactly one face and the call
    fails, because the embedding model raises. *)
Lemma one_face_without_embedding :
  (enrollment_detection Scenario.model_down Scenario.photo Scenario.blank).1
    = inr ("temp_0.jpg", [Scenario.crop_a]) /\
  (get_face_embedding Scenario.model_down Scenario.photo Scenario.blank).1
    = inl (HTTPException 500 "Error processing face: model unavailable").
Proof. split; vm_compute; reflexivity. Qed.

(** C7, amended.  [get_face_embedding] fails with "No face detected in
    image" exactly when the detection returns no face, and with "Multiple
    faces detected in image" exactly when it returns more than one (it never
    picks one of them).  It returns an embedding exactly when the detection
    returns exactly one face and the embedding model then returns a list
    whose first entry holds a non-empty embedding, which is the one
    returned; with exactly one face and no such embedding it fails with
    status 500. *)
Theorem get_face_embedding_cardinality (env : Capabilities)
    (image_bytes : list Byte.byte) (w : State) :
  let r := (get_face_embedding env image_bytes w).1 in
  let d := enrollment_detection env image_bytes w in
  (r = inl (HTTPException 400 "No face detected in image") <->
     exists path, d.1 = inr (path, [])) /\
  (r = inl (HTTPException 400 "Multiple faces detected in image") <->
     exists path f1 f2 more, d.1 = inr (path, f1 :: f2 :: more)) /\
  (forall e, r = inr e <->
     exists path f obj more,
       d.1 = inr (path, [f]) /\
       (represent env path d.2).1 = inr (obj :: more) /\
       rep_embedding obj = Some e /\ e <> []) /\
  (forall path f, d.1 = inr (path, [f]) ->
     (exists e, r = inr e) \/ (exists msg, r = inl (HTTPException 500 msg))).
Proof.
  cbv zeta. rewrite get_face_embedding_result.
  destruct (enrollment_detection env image_bytes w) as [[e0|[path faces]] w1];
    cbn [fst snd].
  { repeat split; intros; break_down; try discriminate. }
  rewrite single_embedding_result.
  pose proof (represent_raises env path w1) as Hlib.
  destruct faces as [|f [|f' more]].
  - cbn [is_HTTPException]. repeat split; intros; break_down; try discriminate.
    exists path. reflexivity.
  - destruct (represent env path w1) as [[e1|[|obj objs]] w2] eqn:Erep; cbn [fst snd].
    + rewrite (Hlib e1 w2 eq_refl).
      repeat split; intros; break_down; simplify_eq; try discriminate;
        try (rewrite Erep in *; discriminate).
      right. eexists. reflexivity.
    + cbn [is_HTTPException].
      repeat split; intros; break_down; simplify_eq; try discriminate;
        try (rewrite Erep in *; discriminate).
      right. eexists. reflexivity.
    + destruct (rep_embedding obj) as [[|x e]|] eqn:Eobj; cbn [is_HTTPException];
        repeat split; intros; break_down; simplify_eq; try discriminate;
        try (rewrite Erep in *; simpl in *; simplify_eq; congruence);
        try (right; eexists; reflexivity); try (left; eexists; reflexivity).
      exists path, f, obj, objs. rewrite Erep.
      repeat split; [exact Eobj|discriminate].
  - cbn [is_HTTPException]. repeat split; intros; break_down; try discriminate.
    exists path, f, f', more. reflexivity.
Qed.

(** * Batch recognition: the aggregated result *)

Section Forward.
Variable env : Capabilities.

Lemma decode_and_preprocess_ok b w img img' :
  cv2_imdecode env b = inr (Some img) -> cv2_transforms env img = inr img' ->
  decode_and_preprocess env b w = (inr img', w).
Proof.
  intros Hdec Hpre. unfold decode_and_preprocess, bind, lift. rewrite Hdec.
  cbn [outcome]. unfold ret at 1, preprocess_image, try_except, lift.
  rewrite Hpre. reflexivity.
Qed.






Lemma recognize_detected_result students faces w :
  (recognize_detected env students faces w).1 =
    inr (matched_ids (face_results env students 0 faces (after_detection faces w))).
Proof.
  unfold recognize_detected, after_detection, bind at 1.
  destruct (logger INFO _ w) as [[e|[]] w0] eqn:E; [discriminate|]. cbn [fst snd].
  unfold bind at 1.
  pose proof (recognize_loop_results env students faces 0 [] w0) as H.
  destruct (recognize_loop env students 0 faces [] w0) as [r w1]. cbn [fst snd] in H.
  subst r. cbn [app].
  destruct (matched_ids (face_results env students 0 faces w0)); reflexivity.
Qed.

(** The result of [recognize_faces], once the registry is fetched and the
    faces are detected: the matches of the detected faces, in their
    order. *)
Lemma recognize_faces_result b w img img' students path faces w2 :
  cv2_imdecode env b = inr (Some img) -> cv2_transforms env img = inr img' ->
  students_find env (now w) = inr students -> students <> [] ->
  save_and_detect env img' (fetched w) = (inr (path, faces), w2) ->
  (recognize_faces env b w).1 =
    inr (matched_ids (face_results env students 0 faces (after_detection faces w2))).
Proof.
  intros Hdec Hpre Hfind Hsome Hsd.
  unfold recognize_faces, bind at 1. cbn [set_temp_img_path fst snd].
  rewrite try_finally_result by apply cleanup_temp_img_returns.
  unfold recognize_faces_try, try_except, bind at 1.
  rewrite (decode_and_preprocess_ok b _ img img' Hdec Hpre).
  unfold bind at 1.
  assert (Hg : get_all_embeddings env
                 {| fs := fs w; log := log w; calls := calls w; temp_img_path := None |}
               = (inr students, fetched w)).
  { unfold get_all_embeddings, try_except, bind, find_students, bind, record, lift.
    cbn [fst snd].
    change (now {| fs := fs w; log := log w; calls := calls w; temp_img_path := None |})
      with (now w).
    rewrite Hfind. cbn [outcome].
    destruct students as [|s students]; [destruct (Hsome eq_refl)|reflexivity]. }
  rewrite Hg.
  destruct students as [|s students]; [destruct (Hsome eq_refl)|].
  unfold bind at 1. rewrite Hsd. cbn [fst snd].
  destruct faces as [|f faces]; [reflexivity|].
  pose proof (recognize_detected_result (s :: students) (f :: faces) w2) as H.
  destruct (recognize_detected env (s :: students) (f :: faces) w2) as [r w3].
  cbn [fst snd] in H. subst r. reflexivity.
Qed.

(** The matches of a list of faces are those of its first faces, then
    those of the others from the state the first ones left. *)
Lemma face_results_app students l1 l2 : forall idx acc w,
  face_results env students idx (l1 ++ l2) w =
    face_results env students idx l1 w ++
    face_results env students (idx + Z.of_nat (length l1)) l2
      (recognize_loop env students idx l1 acc w).2.
Proof.
  induction l1 as [|f rest IH]; intros idx acc w.
  - cbn [app length face_results recognize_loop]. rewrite Z.add_0_r. reflexivity.
  - cbn [app length face_results recognize_loop]. f_equal. unfold bind.
    destruct (process_single_face_returns env f idx students w) as [m Hm].
    destruct (process_single_face env f idx students w) as [r w1].
    cbn [fst snd] in Hm |- *. subst r.
    replace (idx + Z.of_nat (S (length rest)))
      with (idx + 1 + Z.of_nat (length rest)) by lia.
    destruct m as [id|]; [destruct (truthy id)|]; apply IH.
Qed.

(** The entry of a face in the matches: what the processing of that face
    returns, at its index, once the faces before it are processed. *)
Lemma face_results_lookup students faces i f w :
  faces !! i = Some f ->
  face_results env students 0 faces w !! i =
    Some (recorded (process_single_face env f (Z.of_nat i) students
                      (recognize_loop env students 0 (take i faces) [] w).2).1).
Proof.
  intros Hi.
  pose proof (lookup_lt_Some _ _ _ Hi) as Hlt.
  rewrite <- (take_drop_middle faces i f Hi) at 1.
  rewrite (face_results_app students (take i faces) (f :: drop (S i) faces) 0 []).
  rewrite lookup_app_r; rewrite face_results_length, length_take_le by lia; [|lia].
  rewrite Nat.sub_diag, Z.add_0_l. reflexivity.
Qed.

Lemma matched_ids_app l1 l2 :
  matched_ids (l1 ++ l2) = matched_ids l1 ++ matched_ids l2.
Proof. unfold matched_ids. apply flat_map_app. Qed.

End Forward.

(** C1, as the spec states it, fails: duplicates are not collapsed.  In
    the world [Scenario.three_faces] the detector returns three faces; the
    first two match ["S1"], the third matches nobody, and the result lists
    ["S1"] twice. *)
Lemma duplicates_are_kept :
  face_results Scenario.three_faces Scenario.registry 0
    [Scenario.crop_a; Scenario.crop_b; Scenario.crop_c] Scenario.blank
    = [Some "S1"; Some "S1"; None] /\
  (recognize_faces Scenario.three_faces Scenario.photo Scenario.blank).1
    = inr ["S1"; "S1"] /\
  ["S1"; "S1"] <> ["S1"] /\
  ~ NoDup ["S1"; "S1"].
Proof.
  split; [vm_compute; reflexivity|]. split; [vm_compute; reflexivity|].
  split; [discriminate|].
  intros H. apply NoDup_cons in H as [H _]. apply H. left.
Qed.

(** C1, amended.  When the registry is not empty, the result of
    [recognize_faces] is the list of the matches of the faces that this
    call detected, against the candidates this call fetched, in the order
    of the faces: one entry for each face that matched, the entry of the
    face at index [i] being what [process_single_face] returns for it at
    that index once the faces before it are processed.  An identity
    matched by [k] faces occurs [k] times (duplicates are kept), and the
    result is never longer than the list of faces. *)
Theorem recognize_faces_lists_every_match (env : Capabilities)
    (image_bytes : list Byte.byte) (w : State) (img img' : ndarray)
    (students : list Student) (path : string) (faces : list Face) (w2 : State) :
  cv2_imdecode env image_bytes = inr (Some img) ->
  cv2_transforms env img = inr img' ->
  students_find env (now w) = inr students -> students <> [] ->
  save_and_detect env img' (fetched w) = (inr (path, faces), w2) ->
  let w3 := after_detection faces w2 in
  let results := face_results env students 0 faces w3 in
  (recognize_faces env image_bytes w).1 = inr (matched_ids results) /\
  length results = length faces /\
  (forall i f, faces !! i = Some f ->
     results !! i =
       Some (recorded (process_single_face env f (Z.of_nat i) students
                         (recognize_loop env students 0 (take i faces) [] w3).2).1)) /\
  (forall id, truthy id = true ->
     occurrences id (matched_ids results) = occurrences (Some id) results) /\
  (length (matched_ids results) <= length faces)%nat.
Proof.
  intros Hdec Hpre Hfind Hsome Hsd. cbv zeta.
  split; [apply (recognize_faces_result env image_bytes w img img' students path faces
                   w2 Hdec Hpre Hfind Hsome Hsd)|].
  split; [apply face_results_length|].
  split; [intros i f Hi; apply face_results_lookup, Hi|]. split.
  - intros id Hid. apply matched_ids_occurrences, Hid.
  - rewrite <- (face_results_length env students faces 0 (after_detection faces w2)).
    apply matched_ids_length.
Qed.

(** Three faces are detected; the first two match ["S1"] and the third
    matches nobody: the result holds ["S1"] twice. *)
Lemma recognize_faces_lists_every_match_witness :
  face_results Scenario.three_faces Scenario.registry 0
    [Scenario.crop_a; Scenario.crop_b; Scenario.crop_c]
    (after_detection [Scenario.crop_a; Scenario.crop_b; Scenario.crop_c]
       (save_and_detect Scenario.three_faces Scenario.pixels
          (fetched Scenario.blank)).2)
    = [Some "S1"; Some "S1"; None] /\
  (recognize_faces Scenario.three_faces Scenario.photo Scenario.blank).1
    = inr ["S1"; "S1"] /\
  occurrences "S1" ["S1"; "S1"] = 2%nat.
Proof.
  destruct (recognize_faces_lists_every_match Scenario.three_faces Scenario.photo
              Scenario.blank Scenario.pixels Scenario.pixels Scenario.registry
              "temp_1.jpg" [Scenario.crop_a; Scenario.crop_b; Scenario.crop_c]
              (save_and_detect Scenario.three_faces Scenario.pixels
                 (fetched Scenario.blank)).2
              eq_refl eq_refl eq_refl ltac:(discriminate) ltac:(vm_compute; reflexivity))
    as (Hresult & _).
  split; [vm_compute; reflexivity|]. split; [|reflexivity].
  rewrite Hresult. vm_compute. reflexivity.
Defined.

(** * The [/recognize] endpoint *)




(** * Identities come from the registry *)

(** C10.  Every id in the result of [recognize_faces] is the [studentId] of
    an entry of the snapshot of the registry; that snapshot is fetched by
    the first call the invocation makes, and no other fetch follows. *)
Theorem recognized_ids_are_registered (env : Capabilities)
    (image_bytes : list Byte.byte) (w : State) (ids : list string) (w' : State) :
  recognize_faces env image_bytes w = (inr ids, w') ->
  exists students later,
    students_find env (now w) = inr students /\
    calls w' = later ++ CallFind :: calls w /\
    Forall not_fetch later /\
    forall id, id ∈ ids -> exists s, s ∈ students /\ studentId s = id.
Proof.
  intros H.
  apply recognize_faces_inr in H
    as (students & w1 & Hfind & Hcalls & _ & (later & Hlater & Hnf) & Hids).
  exists students, later. split; [exact Hfind|].
  split; [rewrite Hlater, Hcalls; reflexivity|]. split; [exact Hnf|].
  intros id Hid. destruct Hids as [->|(img & path & faces & w2 & w3 & _ & _ & _ & ->)].
  - inversion Hid.
  - apply matched_ids_member in Hid.
    apply (face_results_member env students faces 0 w3 id Hid).
Qed.

Lemma recognized_ids_are_registered_witness :
  exists students later,
    students_find Scenario.three_faces (now Scenario.blank) = inr students /\
    calls (recognize_faces Scenario.three_faces Scenario.photo Scenario.blank).2
      = later ++ CallFind :: calls Scenario.blank /\
    Forall not_fetch later /\
    forall id, id ∈ ["S1"; "S1"] -> exists s, s ∈ students /\ studentId s = id.
Proof.
  apply (recognized_ids_are_registered Scenario.three_faces Scenario.photo
           Scenario.blank ["S1"; "S1"]).
  vm_compute. reflexivity.
Defined.

(** * Best effort per face *)

(** C8.  In batch recognition a failure of the embedding or of the matching
    of a face is caught: it is logged as an error for that face and the
    face is recorded as unmatched, so that [process_single_face] never
    raises.  The loop then goes on with the remaining faces, at their own
    indices and with the same candidates.  So the call returns a result,
    and a face that fails changes nothing else in it: the result of
    [recognize_faces] on the detected faces [before ++ f :: after], where
    [f] fails or is unmatched, is made of the matches of the faces [before],
    then of the matches of the faces [after], processed from the state the
    processing of [f] left. *)
Theorem one_bad_face_does_not_stop_the_others (env : Capabilities) :
  (forall path f idx students w e w1,
     embed_and_match env path f students w = (inl e, w1) ->
     process_single_face_try env path f idx students w =
       (inr None,
        {| fs := fs w1;
           log := log w1 ++ [(ERROR, "Error processing face " +:+ pretty idx
                                      +:+ ": " +:+ str e)];
           calls := calls w1;
           temp_img_path := temp_img_path w1 |})) /\
  (forall f idx students w e,
     (embed_and_match env (face_path_of (uuid4_hex env (now w)) idx) f students
        (uuid4 env w).2).1 = inl e ->
     (process_single_face env f idx students w).1 = inr None) /\
  (forall f idx students w,
     exists m, (process_single_face env f idx students w).1 = inr m) /\
  (forall students idx f rest acc w,
     (process_single_face env f idx students w).1 = inr None ->
     recognize_loop env students idx (f :: rest) acc w =
       recognize_loop env students (idx + 1) rest acc
         (process_single_face env f idx students w).2) /\
  (forall students idx faces acc w,
     (recognize_loop env students idx faces acc w).1 =
       inr (acc ++ matched_ids (face_results env students idx faces w)) /\
     length (face_results env students idx faces w) = length faces) /\
  (forall students faces w,
     (recognize_detected env students faces w).1 =
       inr (matched_ids (face_results env students 0 faces (after_detection faces w)))) /\
  (forall b w img img' students path before f after w2,
     cv2_imdecode env b = inr (Some img) -> cv2_transforms env img = inr img' ->
     students_find env (now w) = inr students -> students <> [] ->
     save_and_detect env img' (fetched w) = (inr (path, before ++ f :: after), w2) ->
     let w3 := after_detection (before ++ f :: after) w2 in
     let i := Z.of_nat (length before) in
     let run := process_single_face env f i students
                  (recognize_loop env students 0 before [] w3).2 in
     run.1 = inr None ->
     (recognize_faces env b w).1 =
       inr (matched_ids (face_results env students 0 before w3) ++
            matched_ids (face_results env students (i + 1) after run.2))).
Proof.
  split; [|split; [|split; [|split; [|split; [|split]]]]].
  - intros path f idx students w e w1 H.
    unfold process_single_face_try, try_except. rewrite H. reflexivity.
  - intros f idx students w e.
    unfold process_single_face, bind at 1.
    destruct (uuid4 env w) as [[e0|hex] w0] eqn:Eu; [discriminate Eu|].
    assert (Hhex : hex = uuid4_hex env (now w)).
    { unfold uuid4, bind, record, ret in Eu. cbn [fst snd] in Eu. congruence. }
    subst hex. cbn [fst snd].
    rewrite try_finally_result by apply cleanup_face_returns.
    unfold process_single_face_try, try_except.
    destruct (embed_and_match env _ f students w0) as [[e1|m] w1];
      cbn [fst snd]; [reflexivity|discriminate].
  - apply process_single_face_returns.
  - intros students idx f rest acc w H.
    cbn [recognize_loop]. unfold bind.
    destruct (process_single_face env f idx students w) as [r w1].
    cbn [fst snd] in H |- *. subst r. reflexivity.
  - intros students idx faces acc w. split.
    + apply recognize_loop_results.
    + apply face_results_length.
  - apply recognize_detected_result.
  - intros b w img img' students path before f after w2 Hdec Hpre Hfind Hsome Hsd.
    cbv zeta. intros Hnone.
    rewrite (recognize_faces_result env b w img img' students path _ w2
               Hdec Hpre Hfind Hsome Hsd).
    rewrite (face_results_app env students before (f :: after) 0 []).
    rewrite matched_ids_app. cbn [face_results]. rewrite Z.add_0_l, Hnone.
    reflexivity.
Qed.

(** In the world [Scenario.second_face_fails] the embedding of the second
    of three faces raises: the first and the third face are processed as
    usual and match, and the call returns their two matches. *)
Lemma one_bad_face_does_not_stop_the_others_witness :
  face_results Scenario.second_face_fails Scenario.registry 0
    [Scenario.crop_a; Scenario.crop_b; Scenario.crop_c]
    (after_detection [Scenario.crop_a; Scenario.crop_b; Scenario.crop_c]
       (save_and_detect Scenario.second_face_fails Scenario.pixels
          (fetched Scenario.blank)).2)
    = [Some "S1"; None; Some "S2"] /\
  (recognize_faces Scenario.second_face_fails Scenario.photo Scenario.blank).1
    = inr ["S1"; "S2"].
Proof.
  split; [vm_compute; reflexivity|].
  destruct (one_bad_face_does_not_stop_the_others Scenario.second_face_fails)
    as (_ & _ & _ & _ & _ & _ & Hcall).
  rewrite (Hcall Scenario.photo Scenario.blank Scenario.pixels Scenario.pixels
             Scenario.registry "temp_1.jpg" [Scenario.crop_a] Scenario.crop_b
             [Scenario.crop_c]
             (save_and_detect Scenario.second_face_fails Scenario.pixels
                (fetched Scenario.blank)).2
             eq_refl eq_refl eq_refl ltac:(discriminate)
             ltac:(vm_compute; reflexivity) ltac:(vm_compute; reflexivity)).
  vm_compute. reflexivity.
Defined.

(** * Temporary files *)

Section Removal.
Variable env : Capabilities.

Lemma remove_or_warn_failure path warning w f :
  os_remove env (now w) path = Some f ->
  remove_or_warn env path warning w =
    (inr tt,
     {| fs := fs w; log := log w ++ [(WARNING, warning +:+ f.2)];
        calls := CallRemove path :: calls w;
        temp_img_path := temp_img_path w |}).
Proof.
  intros H. unfold remove_or_warn, try_except, remove_file. rewrite H. reflexivity.
Qed.

Lemma remove_or_warn_attempts path warning w :
  calls (remove_or_warn env path warning w).2 = CallRemove path :: calls w.
Proof.
  unfold remove_or_warn, try_except, remove_file.
  destruct (os_remove env (now w) path); reflexivity.
Qed.

Lemma cleanup_face_attempts path w :
  is_Some (fs w !! path) ->
  calls (cleanup_face env path w).2 = CallRemove path :: calls w.
Proof.
  intros H. unfold cleanup_face, bind, os_path_exists. cbn [fst snd].
  rewrite bool_decide_eq_true_2 by exact H. apply remove_or_warn_attempts.
Qed.

Lemma cleanup_temp_img_attempts path w :
  temp_img_path w = Some path -> truthy path = true -> is_Some (fs w !! path) ->
  calls (cleanup_temp_img env w).2 = CallRemove path :: calls w.
Proof.
  intros Hp Ht H. unfold cleanup_temp_img, bind, get_temp_img_path, os_path_exists.
  cbn [fst snd]. rewrite Hp, Ht.
  rewrite bool_decide_eq_true_2 by exact H. apply remove_or_warn_attempts.
Qed.

Lemma process_single_face_clean :
  (forall n p, os_remove env n p = None) ->
  forall f idx students w, clean w (process_single_face env f idx students w).2.
Proof.
  intros Hrm f idx students w. apply tidy_clean, process_single_face_tidy, Hrm.
Qed.

End Removal.

(** C9.  The [finally] blocks of [get_face_embedding], [recognize_faces]
    and [process_single_face] never change what the call returns or raises:
    the outcome is the one of the [try] block with its [except] clauses.
    They call [os.remove] on the temporary file whenever it exists, on every
    exit path; a removal that raises is logged as a warning and nothing is
    raised.  When the removals succeed, no file written during the
    invocation (the preprocessed image, the crop of each face) exists when
    it ends, whatever it returns or raises, and no other file appeared. *)
Theorem temporary_files_are_removed (env : Capabilities) :
  (forall b w,
     (get_face_embedding env b w).1 =
     (get_face_embedding_try env b (set_temp_img_path None w).2).1) /\
  (forall b w,
     (recognize_faces env b w).1 =
     (recognize_faces_try env b (set_temp_img_path None w).2).1) /\
  (forall f idx students w,
     (process_single_face env f idx students w).1 =
     (process_single_face_try env (face_path_of (uuid4_hex env (now w)) idx)
        f idx students (uuid4 env w).2).1) /\
  (forall path w,
     is_Some (fs w !! path) ->
     calls (cleanup_face env path w).2 = CallRemove path :: calls w) /\
  (forall path w,
     temp_img_path w = Some path -> truthy path = true -> is_Some (fs w !! path) ->
     calls (cleanup_temp_img env w).2 = CallRemove path :: calls w) /\
  (forall path warning w f,
     os_remove env (now w) path = Some f ->
     remove_or_warn env path warning w =
       (inr tt,
        {| fs := fs w; log := log w ++ [(WARNING, warning +:+ f.2)];
           calls := CallRemove path :: calls w;
           temp_img_path := temp_img_path w |})) /\
  ((forall n p, os_remove env n p = None) ->
   (forall b w, clean w (get_face_embedding env b w).2) /\
   (forall b w, clean w (recognize_faces env b w).2) /\
   (forall f idx students w, clean w (process_single_face env f idx students w).2)).
Proof.
  split; [|split; [|split; [|split; [|split; [|split]]]]].
  - intros b w. unfold get_face_embedding, bind at 1.
    cbn [set_temp_img_path fst snd].
    apply try_finally_result, cleanup_temp_img_returns.
  - intros b w. unfold recognize_faces, bind at 1.
    cbn [set_temp_img_path fst snd].
    apply try_finally_result, cleanup_temp_img_returns.
  - intros f idx students w.
    unfold process_single_face, bind at 1, uuid4, bind, record, ret.
    cbn [fst snd].
    apply try_finally_result, cleanup_face_returns.
  - apply cleanup_face_attempts.
  - apply cleanup_temp_img_attempts.
  - apply remove_or_warn_failure.
  - intros Hrm. split; [|split].
    + apply get_face_embedding_clean, Hrm.
    + apply recognize_faces_clean, Hrm.
    + apply process_single_face_clean, Hrm.
Qed.

(** In the world [Scenario.three_faces] the removals succeed: after the
    call, none of the four files written exists.  On a disk where
    [os.remove] fails, [get_face_embedding] still returns the embedding. *)
Lemma temporary_files_are_removed_witness :
  clean Scenario.blank
    (recognize_faces Scenario.three_faces Scenario.photo Scenario.blank).2 /\
  fs (recognize_faces Scenario.three_faces Scenario.photo Scenario.blank).2 = ∅ /\
  (get_face_embedding Scenario.read_only_disk Scenario.photo Scenario.blank).1 =
    (get_face_embedding_try Scenario.read_only_disk Scenario.photo
       (set_temp_img_path None Scenario.blank).2).1.
Proof.
  split; [|split].
  - destruct (temporary_files_are_removed Scenario.three_faces)
      as (_ & _ & _ & _ & _ & _ & H).
    destruct H as (_ & H & _); [intros n p; reflexivity|].
    exact (H Scenario.photo Scenario.blank).
  - vm_compute. reflexivity.
  - destruct (temporary_files_are_removed Scenario.read_only_disk) as (H & _).
    exact (H Scenario.photo Scenario.blank).
Defined.

(** * The matcher: threshold and nearest candidate *)

Section Acceptance.
Variable env : Capabilities.
Import FloatOrder.

Lemma process_single_face_accepts f idx students w id :
  (process_single_face env f idx students w).1 = inr (Some id) ->
  exists n c q more s d,
    DeepFace_represent env n c = inr ({| rep_embedding := Some q |} :: more) /\
    s ∈ students /\ studentId s = id /\
    euclidean env q (embedding s) = inr d /\ PrimFloat.ltb d threshold = true.
Proof.
  unfold process_single_face, bind, uuid4 at 1, bind, record, ret. cbn [fst snd].
  rewrite try_finally_result by apply cleanup_face_returns.
  unfold process_single_face_try, try_except.
  match goal with |- context [embed_and_match env ?p f students ?w0] =>
    destruct (embed_and_match env p f students w0) as [[e|r] w1] eqn:E end.
  - cbn [fst snd]. unfold bind, logger, ret. cbn [fst snd]. discriminate.
  - cbn [fst snd]. intros [= ->]. unfold embed_and_match in E.
    apply bind_inr in E as (b & w2 & _ & E).
    apply bind_inr in E as (objs & w3 & Hrep & E).
    unfold match_students in E.
    assert (H : (compare_students env objs students infinity None w3).1 = inr (Some id))
      by (rewrite E; reflexivity).
    apply compare_students_accepts in H
      as [H|(q & more & s & d & -> & Hin & Hid & Hd & Hlt)]; [discriminate H|].
    unfold represent, bind, record, lift in Hrep. cbn [fst snd] in Hrep.
    match type of Hrep with context [DeepFace_represent env ?n ?c] =>
      exists n, c, q, more, s, d; destruct (DeepFace_represent env n c) as [x|objs] end;
      [discriminate Hrep|].
    cbn [outcome] in Hrep. injection Hrep as -> _. auto.
Qed.

End Acceptance.

(** C4.  The distance the matcher compares is the Euclidean distance of
    the query to the candidate.  On candidates of the dimension of the
    query, a match is the identity of a candidate whose distance [d] is
    strictly below the threshold 0.6, so that [0.6 <= d] is false; and if
    every candidate is at a distance [>= 0.6] (the minimum distance is then
    [>= 0.6], and a distance of exactly 0.6 counts), the matcher answers
    "unmatched".  Whatever the shapes, a match has a distance that is
    defined and strictly below the threshold, and [process_single_face]
    answers "unmatched" when no distance is below it.  An unmatched face is
    a result, not an error: [process_single_face] never raises. *)
Theorem threshold_is_exclusive (env : Capabilities) :
  (forall a b, length b = length a ->
     euclidean env a b =
       inr (PrimFloat.sqrt (blas_ddot env (zip_with PrimFloat.sub a b)
                                          (zip_with PrimFloat.sub a b)))) /\
  (forall q more students w id,
     same_dimension q students ->
     (match_students env ({| rep_embedding := Some q |} :: more) students w).1
       = inr (Some id) ->
     exists s, s ∈ students /\ studentId s = id /\
       PrimFloat.ltb (l2_distance env q (embedding s)) threshold = true /\
       PrimFloat.leb threshold (l2_distance env q (embedding s)) = false) /\
  (forall q more students w,
     same_dimension q students ->
     (forall s, s ∈ students ->
        PrimFloat.leb threshold (l2_distance env q (embedding s)) = true) ->
     (match_students env ({| rep_embedding := Some q |} :: more) students w).1
       = inr None) /\
  (forall objs students w id,
     (match_students env objs students w).1 = inr (Some id) ->
     exists q more s d,
       objs = {| rep_embedding := Some q |} :: more /\
       s ∈ students /\ studentId s = id /\
       euclidean env q (embedding s) = inr d /\
       PrimFloat.ltb d threshold = true /\ PrimFloat.leb threshold d = false) /\
  (forall f idx students w,
     (forall n c q more s d,
        DeepFace_represent env n c = inr ({| rep_embedding := Some q |} :: more) ->
        s ∈ students -> euclidean env q (embedding s) = inr d ->
        PrimFloat.leb threshold d = true) ->
     (process_single_face env f idx students w).1 = inr None) /\
  (forall f idx students w,
     exists m, (process_single_face env f idx students w).1 = inr m).
Proof.
  assert (Haccepts : forall objs students w id,
     (match_students env objs students w).1 = inr (Some id) ->
     exists q more s d,
       objs = {| rep_embedding := Some q |} :: more /\
       s ∈ students /\ studentId s = id /\
       euclidean env q (embedding s) = inr d /\
       PrimFloat.ltb d threshold = true /\ PrimFloat.leb threshold d = false).
  { intros objs students w id H. unfold match_students in H.
    apply compare_students_accepts in H
      as [H|(q & more & s & d & -> & Hin & Hid & Hd & Hlt)]; [discriminate H|].
    exists q, more, s, d. repeat split; try assumption.
    apply ltb_not_leb, Hlt. }
  assert (Hspec : forall q more students w id,
     same_dimension q students ->
     (match_students env ({| rep_embedding := Some q |} :: more) students w).1
       = inr (Some id) ->
     exists s, s ∈ students /\ studentId s = id /\
       PrimFloat.ltb (l2_distance env q (embedding s)) threshold = true /\
       PrimFloat.leb threshold (l2_distance env q (embedding s)) = false).
  { intros q more students w id Hdim H.
    apply Haccepts in H as (q' & more' & s & d & [= <- <-] & Hin & Hid & Hd & Hlt & Hle).
    exists s. split; [exact Hin|]. split; [exact Hid|].
    rewrite (euclidean_same_length env q (embedding s)) in Hd
      by (apply (proj1 (Forall_forall _ _) Hdim s Hin)).
    injection Hd as <-. auto. }
  split; [|split; [exact Hspec|split; [|split; [exact Haccepts|split]]]].
  - intros a b Hab. apply (euclidean_same_length env a b Hab).
  - intros q more students w Hdim Hfar. unfold match_students.
    destruct (compare_students_selects env q more students
                (same_dimension_defined env q students Hdim) infinity None w)
      as (res & Hres & _).
    rewrite Hres. destruct res as [id|]; [|reflexivity].
    destruct (Hspec q more students w id Hdim Hres) as (s & Hin & _ & _ & Hle).
    rewrite (Hfar s Hin) in Hle. discriminate Hle.
  - intros f idx students w Hfar.
    destruct (process_single_face_returns env f idx students w) as [m Hm].
    rewrite Hm. destruct m as [id|]; [|reflexivity].
    apply process_single_face_accepts in Hm
      as (n & c & q & more & s & d & Hrep & Hin & Hid & Hd & Hlt).
    rewrite (FloatOrder.leb_not_gt _ _ (Hfar n c q more s d Hrep Hin Hd)) in Hlt.
    discriminate Hlt.
  - apply process_single_face_returns.
Qed.

(** A candidate at a distance of exactly 0.6 is not accepted. *)
Lemma threshold_is_exclusive_witness :
  l2_distance Scenario.three_faces [threshold] [0%float] = threshold /\
  (match_students Scenario.three_faces Scenario.on_the_boundary Scenario.origin
     Scenario.blank).1 = inr None.
Proof.
  split; [vm_compute; reflexivity|].
  destruct (threshold_is_exclusive Scenario.three_faces) as (_ & _ & H & _).
  apply (H [threshold] [] Scenario.origin Scenario.blank).
  - repeat constructor.
  - intros s Hs. apply list_elem_of_singleton in Hs. subst s.
    vm_compute. reflexivity.
Defined.

(** The rounding of the sum decides at the threshold: the query
    [Scenario.near_the_boundary] is matched with the first candidate of the
    registry where the dot product is fused, its distance being the number
    just below 0.6, and is not matched where every product and every sum is
    rounded, its distance being 0.6. *)
Example rounding_decides_at_the_threshold :
  l2_distance Scenario.three_faces Scenario.near_the_boundary Scenario.v1
    = 0x1.3333333333332p-1%float /\
  (match_students Scenario.three_faces
     [ {| rep_embedding := Some Scenario.near_the_boundary |} ]
     Scenario.registry Scenario.blank).1 = inr (Some "S1") /\
  l2_distance Scenario.unfused Scenario.near_the_boundary Scenario.v1 = threshold /\
  (match_students Scenario.unfused
     [ {| rep_embedding := Some Scenario.near_the_boundary |} ]
     Scenario.registry Scenario.blank).1 = inr None.
Proof. repeat split; vm_compute; reflexivity. Qed.

Section Nearest.
Variable env : Capabilities.
Import FloatOrder.

(** Two candidates that are both the first of the nearest, below the
    threshold, are the same candidate. *)
Lemma first_nearest_unique q students i s i' s' :
  first_nearest env q students i s -> first_nearest env q students i' s' ->
  PrimFloat.ltb (l2_distance env q (embedding s)) threshold = true ->
  PrimFloat.ltb (l2_distance env q (embedding s')) threshold = true ->
  i = i' /\ s = s'.
Proof.
  intros (Hi & Hmin & Hfirst) (Hi' & Hmin' & Hfirst') Ht Ht'.
  assert (Hin : s ∈ students) by (apply list_elem_of_lookup; exists i; exact Hi).
  assert (Hin' : s' ∈ students) by (apply list_elem_of_lookup; exists i'; exact Hi').
  assert (Hle : PrimFloat.leb (l2_distance env q (embedding s))
                  (l2_distance env q (embedding s')) = true).
  { apply ltb_false_leb; [apply (ltb_not_nan _ _ Ht')|apply (ltb_not_nan _ _ Ht)|].
    apply (Hmin s' Hin'). }
  assert (Hle' : PrimFloat.leb (l2_distance env q (embedding s'))
                   (l2_distance env q (embedding s)) = true).
  { apply ltb_false_leb; [apply (ltb_not_nan _ _ Ht)|apply (ltb_not_nan _ _ Ht')|].
    apply (Hmin' s Hin). }
  assert (Heq : i = i').
  { destruct (Nat.lt_trichotomy i i') as [Hlt|[Heq|Hlt]]; [|exact Heq|].
    - rewrite (Hfirst' i s Hlt Hi) in Hle. discriminate Hle.
    - rewrite (Hfirst i' s' Hlt Hi') in Hle'. discriminate Hle'. }
  subst i'. rewrite Hi in Hi'. injection Hi' as <-. auto.
Qed.

(** The first minimum among the distances the code computes is the first
    of the nearest candidates of the spec. *)
Lemma first_minimum_nearest q students i s d :
  same_dimension q students ->
  first_minimum (fun s => euclidean env q (embedding s)) students i s d ->
  first_nearest env q students i s /\ d = l2_distance env q (embedding s).
Proof.
  intros Hdim (Hi & Hd & Hmin & Hfirst).
  assert (Hl2 : forall s', s' ∈ students ->
            euclidean env q (embedding s') = inr (l2_distance env q (embedding s'))).
  { intros s' Hin. apply euclidean_same_length.
    apply (proj1 (Forall_forall _ _) Hdim s' Hin). }
  assert (Hin : s ∈ students) by (apply list_elem_of_lookup; exists i; exact Hi).
  rewrite (Hl2 s Hin) in Hd. injection Hd as <-.
  split; [|reflexivity]. split; [exact Hi|]. split.
  - intros s' Hin'. apply (Hmin s' _ Hin' (Hl2 s' Hin')).
  - intros j s' Hj Hs'. apply (Hfirst j s' _ Hj Hs').
    apply Hl2. apply list_elem_of_lookup. exists j. exact Hs'.
Qed.

End Nearest.

(** C5.  On a query [q] and a snapshot of candidates of the dimension of
    [q], the matcher computes for every candidate, by one call of
    [np.linalg.norm], the Euclidean distance from [q] to the candidate, and
    its answer is the one of the spec's two phases: select the candidate at
    minimum distance, the first in snapshot order on a tie, then accept it
    if its distance is below the threshold.  A match is the identity of the
    first of the candidates at minimum distance; that candidate is matched
    whenever its distance is below the threshold, and the answer is
    "unmatched" only if no candidate is below the threshold. *)
Theorem matcher_selects_first_nearest (env : Capabilities) (q : list float)
    (more : list Representation) (students : list Student) (w : State) :
  same_dimension q students ->
  let r := match_students env ({| rep_embedding := Some q |} :: more) students w in
  let distance s :=
    PrimFloat.sqrt (blas_ddot env (zip_with PrimFloat.sub q (embedding s))
                                  (zip_with PrimFloat.sub q (embedding s))) in
  calls r.2 = replicate (length students) CallNorm ++ calls w /\
  (forall s, s ∈ students ->
     euclidean env q (embedding s) = inr (distance s) /\
     l2_distance env q (embedding s) = distance s) /\
  r.1 = inr (select_then_accept env q students) /\
  (forall id, r.1 = inr (Some id) ->
     exists i s, first_nearest env q students i s /\ studentId s = id /\
       PrimFloat.ltb (distance s) threshold = true) /\
  (forall i s, first_nearest env q students i s ->
     PrimFloat.ltb (distance s) threshold = true ->
     r.1 = inr (Some (studentId s))) /\
  (r.1 = inr None ->
   forall s, s ∈ students -> PrimFloat.ltb (distance s) threshold = false).
Proof.
  intros Hdim. cbv zeta. unfold match_students.
  pose proof (same_dimension_defined env q students Hdim) as Hall.
  assert (Hl2 : forall s, s ∈ students ->
            euclidean env q (embedding s) = inr (l2_distance env q (embedding s))).
  { intros s Hin. apply euclidean_same_length.
    apply (proj1 (Forall_forall _ _) Hdim s Hin). }
  destruct (compare_students_selects env q more students Hall infinity None w)
    as (res & Hres & Hcase).
  assert (Hsome : forall id, res = Some id ->
            exists i s, first_nearest env q students i s /\ studentId s = id /\
              PrimFloat.ltb (l2_distance env q (embedding s)) threshold = true).
  { intros id ->.
    destruct Hcase as [[H _]|(i & s & d & Hfm & [= ->] & _ & Ht)]; [discriminate H|].
    destruct (first_minimum_nearest env q students i s d Hdim Hfm) as [Hfn ->].
    exists i, s. auto. }
  assert (Hnone : res = None ->
            forall s, s ∈ students ->
              PrimFloat.ltb (l2_distance env q (embedding s)) threshold = false).
  { intros -> s Hin.
    destruct Hcase as [[_ H]|(i & s' & d' & _ & H & _)]; [|discriminate H].
    specialize (H s _ Hin (Hl2 s Hin)).
    destruct (PrimFloat.ltb (l2_distance env q (embedding s)) threshold) eqn:Ht;
      [|reflexivity].
    rewrite (FloatOrder.ltb_trans _ threshold infinity Ht threshold_below_infinity) in H.
    discriminate H. }
  split; [|split; [|split; [|split; [|split]]]].
  - apply (compare_students_scans env q more students Hall).
  - intros s Hin. split; [apply (Hl2 s Hin)|reflexivity].
  - apply (compare_students_refines env q more students Hdim infinity None
             (infinity, None)).
    + reflexivity.
    + right. auto.
  - intros id H. rewrite Hres in H. injection H as ->. apply Hsome. reflexivity.
  - intros i s Hfn Ht. rewrite Hres. f_equal.
    destruct res as [id|].
    + destruct (Hsome id eq_refl) as (i' & s' & Hfn' & <- & Ht').
      destruct (first_nearest_unique env q students i s i' s' Hfn Hfn' Ht Ht')
        as (_ & <-).
      reflexivity.
    + destruct Hfn as (Hi & _).
      assert (Hin : s ∈ students) by (apply list_elem_of_lookup; exists i; exact Hi).
      change (PrimFloat.ltb (l2_distance env q (embedding s)) threshold = true) in Ht.
      rewrite (Hnone eq_refl s Hin) in Ht. discriminate Ht.
  - intros H. rewrite Hres in H. injection H as ->. apply Hnone. reflexivity.
Qed.

(** Two candidates at the same distance from the query: the first one in
    snapshot order is matched, and both distances were computed. *)
Lemma matcher_selects_first_nearest_witness :
  calls (match_students Scenario.three_faces Scenario.at_the_origin Scenario.twins
           Scenario.blank).2
    = [CallNorm; CallNorm] /\
  (match_students Scenario.three_faces Scenario.at_the_origin Scenario.twins
     Scenario.blank).1
    = inr (Some "T1") /\
  euclidean Scenario.three_faces [0%float; 0%float] [0.25%float; 0%float]
    = inr 0.25%float /\
  euclidean Scenario.three_faces [0%float; 0%float] [0%float; 0.25%float]
    = inr 0.25%float.
Proof.
  assert (Hdim : same_dimension [0%float; 0%float] Scenario.twins)
    by (repeat constructor).
  destruct (matcher_selects_first_nearest Scenario.three_faces [0%float; 0%float] []
              Scenario.twins Scenario.blank Hdim) as (Hcalls & _ & Hres & _).
  unfold Scenario.at_the_origin.
  split; [exact Hcalls|]. split; [rewrite Hres; vm_compute; reflexivity|].
  split; vm_compute; reflexivity.
Defined.

(** * The errors of the entry points *)

Section Statuses.
Variable env : Capabilities.

Lemma logger_raises_any P l msg : raises P (logger l msg).
Proof. intros w e w' H. discriminate H. Qed.

(** A handler decides what a [try] block raises. *)
Lemma try_except_raises {A} (P : exn -> Prop) (body : M A) (handler : exn -> M A) :
  (forall e, raises P (handler e)) -> raises P (try_except body handler).
Proof.
  intros Hh w e w'. unfold try_except.
  destruct (body w) as [[e0|a] w1]; intros H.
  - apply (Hh e0 _ _ _ H).
  - discriminate H.
Qed.

Lemma download_image_as_array_raises url :
  raises (http_status (fun s => s = 408 \/ s = 400 \/ s = 500))
    (download_image_as_array env url).
Proof.
  unfold download_image_as_array. apply try_except_raises.
  intros [c d|[] m]; (apply raises_bind; [apply logger_raises_any|]);
    intros _; apply raises_raise; simpl; auto.
Qed.

Lemma download_image_as_array_timeout url w msg :
  requests_get_image env (now w) url = inl (Timeout, msg) ->
  (download_image_as_array env url w).1 =
    inl (HTTPException 408 "Timeout downloading image").
Proof.
  intros H. unfold download_image_as_array, try_except, bind, requests_get, bind,
    record, lift. cbn [fst snd]. rewrite H. reflexivity.
Qed.

Lemma recognize_faces_raises b :
  raises (http_status (fun s => s = 500)) (recognize_faces env b).
Proof.
  intros w e w' H.
  assert (Hr : (recognize_faces env b w).1 = inl e) by (rewrite H; reflexivity).
  unfold recognize_faces, bind at 1 in Hr. cbn [set_temp_img_path fst snd] in Hr.
  rewrite try_finally_result in Hr by apply cleanup_temp_img_returns.
  unfold recognize_faces_try, try_except in Hr.
  match type of Hr with context [bind ?m ?k ?w0] =>
    destruct (bind m k w0) as [[e0|a] w1] end.
  - unfold bind, logger, raise in Hr. cbn [fst snd] in Hr. injection Hr as <-.
    reflexivity.
  - discriminate Hr.
Qed.

Lemma get_face_embedding_nonempty b w x :
  (get_face_embedding env b w).1 = inr x -> x <> [].
Proof.
  rewrite get_face_embedding_result.
  destruct (enrollment_detection env b w) as [[e0|pf] w1]; [discriminate|].
  rewrite single_embedding_result.
  destruct pf.2 as [|f [|f' more]]; [discriminate| |discriminate].
  destruct (represent env pf.1 w1) as [[e1|[|obj objs]] w2]; cbn [fst snd];
    [destruct (is_HTTPException e1); discriminate|discriminate|].
  destruct (rep_embedding obj) as [[|y l]|]; [discriminate| |discriminate].
  intros [= <-] [=].
Qed.

(** What [get_face_embedding_from_url] returns, stage by stage. *)
Lemma get_face_embedding_from_url_result url w :
  (get_face_embedding_from_url env url w).1 =
    match download_image_as_array env url w with
    | (inl e, _) => inl (HTTPException 500 (str e))
    | (inr image_array, w1) =>
        match imencode env image_array w1 with
        | (inl e, _) => inl (HTTPException 500 (str e))
        | (inr (false, _), _) =>
            inl (HTTPException 500 "Failed to encode image as JPG")
        | (inr (true, image_bytes), w2) =>
            match (get_face_embedding env image_bytes w2).1 with
            | inl e => inl (HTTPException 500 (str e))
            | inr embedding => inr embedding
            end
        end
    end.
Proof.
  unfold get_face_embedding_from_url, try_except, bind.
  destruct (download_image_as_array env url w) as [[e|arr] w1]; [reflexivity|].
  destruct (imencode env arr w1) as [[e|[[] buf]] w2]; cbn [fst snd];
    [reflexivity| |reflexivity].
  destruct (get_face_embedding env buf w2) as [[e|x] w3]; reflexivity.
Qed.

Lemma get_face_embedding_from_url_raises url :
  raises (http_status (fun s => s = 500)) (get_face_embedding_from_url env url).
Proof.
  unfold get_face_embedding_from_url. apply try_except_raises.
  intros e. apply raises_bind; [apply logger_raises_any|].
  intros _. apply raises_raise. reflexivity.
Qed.

Lemma get_face_embedding_from_url_nonempty url w embedding :
  (get_face_embedding_from_url env url w).1 = inr embedding -> embedding <> [].
Proof.
  rewrite get_face_embedding_from_url_result.
  destruct (download_image_as_array env url w) as [[e|arr] w1]; [discriminate|].
  destruct (imencode env arr w1) as [[e|[[] buf]] w2]; [discriminate| |discriminate].
  destruct (get_face_embedding env buf w2).1 as [e|x'] eqn:E; [discriminate|].
  intros [= <-]. apply (get_face_embedding_nonempty _ _ _ E).
Qed.

(** X1.  [download_image_as_array] makes one request and writes no file.
    It returns an array exactly when the request answers and the
    preprocessing of the answer succeeds.  A time-out of the request is
    raised as status 408 and another failure of the request as status 400;
    whatever it raises is an [HTTPException] of status 408, 400 or 500, and
    is logged as an error first. *)
Theorem download_image_as_array_outcomes url w :
  let answer := requests_get_image env (now w) url in
  let r := download_image_as_array env url w in
  (calls r.2 = CallGet url :: calls w /\ fs r.2 = fs w /\
   temp_img_path r.2 = temp_img_path w) /\
  (forall arr, r.1 = inr arr <->
     exists raw, answer = inr raw /\ cv2_transforms env raw = inr arr) /\
  (forall msg, answer = inl (Timeout, msg) ->
     r.1 = inl (HTTPException 408 "Timeout downloading image")) /\
  (forall msg, answer = inl (RequestException, msg) ->
     r.1 = inl (HTTPException 400 ("Failed to download image: " +:+ msg))) /\
  (forall e, r.1 = inl e ->
     http_status (fun s => s = 408 \/ s = 400 \/ s = 500) e /\
     exists added, log r.2 = log w ++ added /\ added <> [] /\
       Forall (fun l => l.1 = ERROR) added).
Proof.
  cbv zeta. unfold download_image_as_array, try_except, bind, requests_get, bind,
    record, lift, preprocess_image, try_except, lift, bind, logger, raise.
  cbn [fst snd].
  destruct (requests_get_image env (now w) url) as [[c m]|raw] eqn:Eget;
    cbn [outcome fst snd].
  - split; [destruct c; repeat split; reflexivity|].
    split; [intros arr; split; [destruct c; discriminate|intros (raw & [=] & _)]|].
    split; [intros msg [= -> ->]; reflexivity|].
    split; [intros msg [= -> ->]; reflexivity|].
    intros e. destruct c; cbn [fst snd]; intros [= <-];
      (split; [simpl; auto|
               eexists; split; [reflexivity|split; [discriminate|repeat constructor]]]).
  - destruct (cv2_transforms env raw) as [[c m]|arr0] eqn:Et; cbn [outcome fst snd].
    + split; [destruct c; repeat split; reflexivity|].
      split; [intros arr; split;
        [destruct c; discriminate|intros (raw' & [= <-] & H); congruence]|].
      split; [intros msg [=]|]. split; [intros msg [=]|].
      intros e. destruct c; cbn [fst snd]; intros [= <-];
        (split; [simpl; auto|
                 simpl; rewrite <- app_assoc; eexists;
                 split; [reflexivity|split; [discriminate|repeat constructor]]]).
    + split; [repeat split; reflexivity|].
      split; [intros arr; split;
        [intros [= <-]; exists raw; auto|intros (raw' & [= <-] & H); congruence]|].
      split; [intros msg [=]|]. split; [intros msg [=]|].
      intros e [=].
Qed.

(** X2.  When [cv2.imdecode] yields no image, both entry points of the
    service fail with status 500 before anything else is done: no external
    call is made and no file is written.  If it returns [None], the details
    are "Error processing face: Failed to decode image" and "Failed to
    decode image"; if it raises, as it does on an empty buffer, the details
    carry the message of the library's exception instead. *)
Theorem undecodable_image_is_rejected b w :
  let enrol := get_face_embedding env b w in
  let recognise := recognize_faces env b w in
  (cv2_imdecode env b = inr None ->
     enrol.1 = inl (HTTPException 500 "Error processing face: Failed to decode image") /\
     recognise.1 = inl (HTTPException 500 "Failed to decode image")) /\
  (forall cls msg, cv2_imdecode env b = inl (cls, msg) ->
     enrol.1 = inl (HTTPException 500 ("Error processing face: " +:+ msg)) /\
     recognise.1 = inl (HTTPException 500 msg)) /\
  ((forall img, cv2_imdecode env b <> inr (Some img)) ->
     (calls enrol.2 = calls w /\ fs enrol.2 = fs w) /\
     (calls recognise.2 = calls w /\ fs recognise.2 = fs w)).
Proof.
  cbv zeta.
  unfold get_face_embedding, recognize_faces, bind, try_finally,
    get_face_embedding_try, recognize_faces_try, try_except, bind,
    decode_and_preprocess, bind, lift.
  destruct (cv2_imdecode env b) as [[c m]|[img|]]; cbn [outcome fst snd].
  - split; [intros [=]|]. split; [intros cls msg [= -> ->]; split; reflexivity|].
    intros _. repeat split; reflexivity.
  - split; [intros [=]|]. split; [intros cls msg [=]|].
    intros H. destruct (H img eq_refl).
  - split; [intros _; split; reflexivity|]. split; [intros cls msg [=]|].
    intros _. repeat split; reflexivity.
Qed.

(** X3.  Whatever the libraries raise, the two entry points of the service
    raise nothing but an [HTTPException]: [get_face_embedding] one of its
    two rejections with status 400 or an error of status 500 whose detail
    starts with "Error processing face: ", and [recognize_faces] an error
    of status 500. *)
Theorem service_raises_http_errors b :
  raises enrollment_error (get_face_embedding env b) /\
  raises (http_status (fun s => s = 500)) (recognize_faces env b).
Proof.
  split; [|apply recognize_faces_raises].
  intros w e w' H.
  assert (Hr : (get_face_embedding env b w).1 = inl e) by (rewrite H; reflexivity).
  rewrite get_face_embedding_result in Hr.
  unfold enrollment_error.
  destruct (enrollment_detection env b w) as [[e0|pf] w1].
  - injection Hr as <-. eauto.
  - rewrite single_embedding_result in Hr.
    pose proof (represent_raises env pf.1 w1) as Hlib.
    destruct pf.2 as [|f [|f' more]].
    + injection Hr as <-. auto.
    + destruct (represent env pf.1 w1) as [[e1|[|obj objs]] w2]; cbn [fst snd] in Hr.
      * rewrite (Hlib e1 w2 eq_refl) in Hr. injection Hr as <-. eauto.
      * injection Hr as <-. eauto.
      * destruct (rep_embedding obj) as [[|x l]|]; try discriminate Hr;
          injection Hr as <-; eauto.
    + injection Hr as <-. auto.
Qed.

(** X4.  When the fetch of the registry fails, [recognize_faces] raises
    status 500; its detail is the text of the [HTTPException] that
    [get_all_embeddings] raised, status code included.  The fetch is the
    only external call made: nothing is written and no face is detected. *)
Theorem registry_failure_aborts_recognition b w img img' cls msg :
  cv2_imdecode env b = inr (Some img) -> cv2_transforms env img = inr img' ->
  students_find env (now w) = inl (cls, msg) ->
  let r := recognize_faces env b w in
  r.1 = inl (HTTPException 500 (str (HTTPException 500 ("Database error: " +:+ msg)))) /\
  calls r.2 = [CallFind] ++ calls w /\ fs r.2 = fs w.
Proof.
  intros Hdec Hpre Hfind. cbv zeta.
  assert (E : exists s, recognize_faces env b w =
      (inl (HTTPException 500 (str (HTTPException 500 ("Database error: " +:+ msg)))), s)
      /\ calls s = [CallFind] ++ calls w /\ fs s = fs w).
  { unfold recognize_faces, bind at 1. cbn [set_temp_img_path fst snd].
    unfold try_finally, recognize_faces_try, try_except, bind at 1.
    rewrite (decode_and_preprocess_ok env b _ img img' Hdec Hpre).
    unfold bind at 1.
    unfold get_all_embeddings, try_except, bind at 1, find_students, bind, record, lift.
    cbn [fst snd].
    change (now {| fs := fs w; log := log w; calls := calls w; temp_img_path := None |})
      with (now w).
    rewrite Hfind. eexists. split; [reflexivity|split; reflexivity]. }
  destruct E as (s & -> & Hc & Hf). auto.
Qed.

(** X5.  [get_face_embedding_from_url] raises nothing but status 500: the
    status of the error it caught is lost, and survives only in the text
    of the detail.  So a time-out of the download, which
    [download_image_as_array] raises as 408, and a rejection by
    [get_face_embedding], raised as 400, both leave as 500.  An embedding
    that is returned is not empty. *)
Theorem get_face_embedding_from_url_flattens_errors url :
  raises (http_status (fun s => s = 500)) (get_face_embedding_from_url env url) /\
  (forall w msg, requests_get_image env (now w) url = inl (Timeout, msg) ->
     (get_face_embedding_from_url env url w).1 =
       inl (HTTPException 500 (str (HTTPException 408 "Timeout downloading image")))) /\
  (forall w image_array w1 image_bytes w2 e,
     download_image_as_array env url w = (inr image_array, w1) ->
     imencode env image_array w1 = (inr (true, image_bytes), w2) ->
     (get_face_embedding env image_bytes w2).1 = inl e ->
     (get_face_embedding_from_url env url w).1 = inl (HTTPException 500 (str e))) /\
  (forall w embedding,
     (get_face_embedding_from_url env url w).1 = inr embedding -> embedding <> []).
Proof.
  split; [apply get_face_embedding_from_url_raises|split; [|split]].
  - intros w msg Hget. rewrite get_face_embedding_from_url_result.
    pose proof (download_image_as_array_timeout url w msg Hget) as Htimeout.
    destruct (download_image_as_array env url w) as [r w1]. simpl in Htimeout.
    subst r. reflexivity.
  - intros w arr w1 buf w2 e Hd He Hg. rewrite get_face_embedding_from_url_result.
    rewrite Hd, He, Hg. reflexivity.
  - intros w x. apply get_face_embedding_from_url_nonempty.
Qed.

(** X6.  [encode_face_url] answers with the status "success" and the
    embedding of [get_face_embedding_from_url], which is not empty, and
    raises what that call raises, unchanged: its own wrapping of other
    exceptions never applies.  Every error of the [/encode] endpoint has
    status 500. *)
Theorem encode_face_url_response url w :
  (encode_face_url env url w).1 =
    match (get_face_embedding_from_url env url w).1 with
    | inl e => inl e
    | inr embedding =>
        inr {| encode_status := "success"; encode_embedding := embedding |}
    end /\
  (forall e, (encode_face_url env url w).1 = inl e -> http_status (fun s => s = 500) e) /\
  (forall r, (encode_face_url env url w).1 = inr r ->
     encode_status r = "success" /\ encode_embedding r <> []).
Proof.
  pose proof (get_face_embedding_from_url_raises url w) as Hraises.
  pose proof (get_face_embedding_from_url_nonempty url w) as Hne.
  assert (E : (encode_face_url env url w).1 =
    match (get_face_embedding_from_url env url w).1 with
    | inl e => inl e
    | inr embedding =>
        inr {| encode_status := "success"; encode_embedding := embedding |}
    end).
  { unfold encode_face_url, try_except, bind.
    destruct (get_face_embedding_from_url env url w) as [[e|x] w1]; [|reflexivity].
    specialize (Hraises e w1 eq_refl). destruct e as [c d|c m]; [|destruct Hraises].
    reflexivity. }
  split; [exact E|]. rewrite E.
  destruct (get_face_embedding_from_url env url w) as [[e|x] w1]; cbn [fst snd] in *.
  - split; [intros e' [= <-]; apply (Hraises e w1 eq_refl)|intros r [=]].
  - split; [intros e' [=]|intros r [= <-]]. split; [reflexivity|]. apply Hne. reflexivity.
Qed.

(** X7.  [recognize_students] raises nothing but an [HTTPException] of
    status 408, 400 or 500.  An error of the download leaves with the
    status [download_image_as_array] gave it, and an error of
    [recognize_faces], of status 500, leaves unchanged; an image that
    cannot be encoded as JPEG is an error of status 500. *)
Theorem recognize_students_statuses url :
  raises (http_status (fun s => s = 408 \/ s = 400 \/ s = 500))
    (recognize_students env url) /\
  (forall w e w1, download_image_as_array env url w = (inl e, w1) ->
     (recognize_students env url w).1 = inl e) /\
  (forall w image_array w1 image_bytes w2 e,
     download_image_as_array env url w = (inr image_array, w1) ->
     imencode env image_array w1 = (inr (true, image_bytes), w2) ->
     (recognize_faces env image_bytes w2).1 = inl e ->
     (recognize_students env url w).1 = inl e /\ http_status (fun s => s = 500) e) /\
  (forall w image_array w1 image_bytes w2,
     download_image_as_array env url w = (inr image_array, w1) ->
     imencode env image_array w1 = (inr (false, image_bytes), w2) ->
     (recognize_students env url w).1 =
       inl (HTTPException 500 "Failed to encode image as JPG")).
Proof.
  split; [|split; [|split]].
  - intros w e w'. unfold recognize_students, try_except, bind.
    pose proof (download_image_as_array_raises url w) as Hd.
    destruct (download_image_as_array env url w) as [[e0|arr] w1].
    { specialize (Hd e0 w1 eq_refl). destruct e0 as [c d|c m]; [|destruct Hd].
      unfold logger, raise. cbn. intros [= <- _]. exact Hd. }
    clear Hd.
    destruct (imencode env arr w1) as [[e0|[[] buf]] w2] eqn:Ee; cbn [fst snd].
    + unfold imencode, bind, record, lift in Ee. cbn [fst snd] in Ee.
      destruct (cv2_imencode env (now w1) arr); simpl in Ee; [|discriminate].
      injection Ee as <- _. unfold bind, logger, raise; cbn.
      intros [= <- _]. simpl. auto.
    + pose proof (recognize_faces_raises buf w2) as Hr.
      destruct (recognize_faces env buf w2) as [[e0|ids] w3]; [|discriminate].
      specialize (Hr e0 w3 eq_refl). destruct e0 as [c d|c m]; [|destruct Hr].
      unfold logger, raise. cbn. intros [= <- _]. simpl in *. auto.
    + unfold raise at 1. unfold bind, logger, raise. cbn. intros [= <- _]. simpl. auto.
  - intros w e w1 Hd.
    pose proof (download_image_as_array_raises url w e w1 Hd) as Hs.
    unfold recognize_students, try_except, bind. rewrite Hd.
    destruct e as [c d|c m]; [reflexivity|destruct Hs].
  - intros w arr w1 buf w2 e Hd He Hr.
    destruct (recognize_faces env buf w2) as [r w3] eqn:E. simpl in Hr. subst r.
    pose proof (recognize_faces_raises buf w2 e w3 E) as Hs.
    split; [|exact Hs].
    unfold recognize_students, try_except, bind. rewrite Hd, He. cbn [fst snd].
    rewrite E. destruct e as [c d|c m]; [reflexivity|destruct Hs].
  - intros w arr w1 buf w2 Hd He.
    unfold recognize_students, try_except, bind. rewrite Hd, He. reflexivity.
Qed.

End Statuses.

(** Bytes that are not an image, and an upload without bytes. *)
Lemma undecodable_image_is_rejected_witness :
  ((get_face_embedding Faults.unreadable Scenario.photo Scenario.blank).1 =
     inl (HTTPException 500 "Error processing face: Failed to decode image") /\
   (recognize_faces Faults.unreadable Scenario.photo Scenario.blank).1 =
     inl (HTTPException 500 "Failed to decode image")) /\
  ((get_face_embedding Faults.empty_upload [] Scenario.blank).1 =
     inl (HTTPException 500
            "Error processing face: (-215:Assertion failed) !buf.empty() in function 'imdecode_'") /\
   (recognize_faces Faults.empty_upload [] Scenario.blank).1 =
     inl (HTTPException 500
            "(-215:Assertion failed) !buf.empty() in function 'imdecode_'")).
Proof.
  split.
  - apply (proj1 (undecodable_image_is_rejected Faults.unreadable Scenario.photo
                    Scenario.blank)).
    reflexivity.
  - apply (proj1 (proj2 (undecodable_image_is_rejected Faults.empty_upload []
                           Scenario.blank)) OtherError).
    reflexivity.
Defined.

Lemma registry_failure_aborts_recognition_witness :
  (recognize_faces Faults.database_down Scenario.photo Scenario.blank).1 =
    inl (HTTPException 500 "500: Database error: connection refused").
Proof.
  exact (proj1 (registry_failure_aborts_recognition Faults.database_down
    Scenario.photo Scenario.blank Scenario.pixels Scenario.pixels OtherError
    "connection refused" eq_refl eq_refl eq_refl)).
Defined.

(** The same time-out of the image host: [/encode] answers 500 and
    [/recognize] answers 408. *)
Lemma get_face_embedding_from_url_flattens_errors_witness :
  (get_face_embedding_from_url Faults.slow_host "http://photo" Scenario.blank).1 =
    inl (HTTPException 500 "408: Timeout downloading image").
Proof.
  exact (proj1 (proj2 (get_face_embedding_from_url_flattens_errors Faults.slow_host
    "http://photo")) Scenario.blank "Read timed out." eq_refl).
Defined.

Lemma recognize_students_statuses_witness :
  (recognize_students Faults.slow_host "http://photo" Scenario.blank).1 =
    inl (HTTPException 408 "Timeout downloading image").
Proof.
  apply (proj1 (proj2 (recognize_students_statuses Faults.slow_host "http://photo"))
           Scenario.blank _
           (download_image_as_array Faults.slow_host "http://photo" Scenario.blank).2).
  reflexivity.
Defined.

(** * The retry wrapper, whatever the bound *)

Section RetryAnyBound.
Variable env : Capabilities.

Lemma failed_attempts_snoc img_path k l :
  failed_attempts img_path k ++ CallSleep 1 :: CallExtractFaces img_path :: l =
  failed_attempts img_path (S k) ++ l.
Proof.
  induction k as [|k IH]; [reflexivity|].
  cbn [failed_attempts app] in IH |- *. rewrite IH. reflexivity.
Qed.

(** The loop over the attempts [a], ..., [a + len], the last one being
    the last of the bound. *)
Lemma extract_faces_rounds_run img_path : forall len a w,
  let answer n := DeepFace_extract_faces env (n + now w) (fs w !! img_path) in
  let r := extract_faces_rounds env img_path (Z.of_nat (a + S len))
             (map Z.of_nat (seq a (S len))) w in
  exists k, (k <= len)%nat /\
    (forall j, (j < k)%nat -> found (answer (2 * j)%nat) = false) /\
    (found (answer (2 * k)%nat) = true \/ k = len) /\
    r.1 = outcome (answer (2 * k)%nat) /\
    calls r.2 = CallExtractFaces img_path :: failed_attempts img_path k ++ calls w /\
    fs r.2 = fs w.
Proof.
  induction len as [|len IH]; intros a w; cbv zeta.
  - cbn [seq map extract_faces_rounds]. unfold bind.
    pose proof (extract_faces_attempt_run env img_path (Z.of_nat (a + 1)) (Z.of_nat a) w)
      as H.
    cbv zeta in H.
    destruct (extract_faces_attempt env img_path (Z.of_nat (a + 1)) (Z.of_nat a) w)
      as [r0 w0]. cbn [fst snd] in H. destruct H as (F0 & _ & H).
    assert (Hlast : (Z.of_nat a <? Z.of_nat (a + 1) - 1) = false)
      by (apply Z.ltb_ge; lia).
    rewrite Hlast in H.
    exists 0%nat. split; [lia|]. split; [intros j Hj; lia|]. split; [right; reflexivity|].
    change (2 * 0 + now w)%nat with (now w).
    destruct (DeepFace_extract_faces env (now w) (fs w !! img_path)) as [f|[|x l]];
      destruct H as [-> C0]; cbn [fst snd outcome ret]; auto.
  - cbn [seq map extract_faces_rounds]. unfold bind.
    pose proof (extract_faces_attempt_run env img_path (Z.of_nat (a + S (S len)))
                  (Z.of_nat a) w) as H.
    cbv zeta in H.
    destruct (extract_faces_attempt env img_path (Z.of_nat (a + S (S len))) (Z.of_nat a) w)
      as [r0 w0]. cbn [fst snd] in H. destruct H as (F0 & _ & H).
    assert (Hmore : (Z.of_nat a <? Z.of_nat (a + S (S len)) - 1) = true)
      by (apply Z.ltb_lt; lia).
    rewrite Hmore in H.
    assert (Hnext : forall w1, fs w1 = fs w ->
      calls w1 = CallSleep 1 :: CallExtractFaces img_path :: calls w ->
      found (DeepFace_extract_faces env (now w) (fs w !! img_path)) = false ->
      let r := extract_faces_rounds env img_path (Z.of_nat (a + S (S len)))
                 (map Z.of_nat (seq (S a) (S len))) w1 in
      exists k, (k <= S len)%nat /\
        (forall j, (j < k)%nat ->
           found (DeepFace_extract_faces env (2 * j + now w) (fs w !! img_path)) = false) /\
        (found (DeepFace_extract_faces env (2 * k + now w) (fs w !! img_path)) = true
         \/ k = S len) /\
        r.1 = outcome (DeepFace_extract_faces env (2 * k + now w) (fs w !! img_path)) /\
        calls r.2 = CallExtractFaces img_path :: failed_attempts img_path k ++ calls w /\
        fs r.2 = fs w).
    { intros w1 F1 C1 Hnone. cbv zeta.
      specialize (IH (S a) w1). cbv zeta in IH.
      replace (Z.of_nat (S a + S len)) with (Z.of_nat (a + S (S len))) in IH by lia.
      destruct IH as (k & Hk & Hbefore & Hstop & Hres & Hcalls & Hfs).
      assert (Hclock : forall n, (n + now w1 = (2 + n) + now w)%nat).
      { intros n. unfold now. rewrite C1. simpl. lia. }
      rewrite F1 in Hbefore, Hstop, Hres.
      exists (S k). split; [lia|]. split; [|split; [|split; [|split]]].
      - intros [|j] Hj; [exact Hnone|].
        replace (2 * S j + now w)%nat with (2 * j + now w1)%nat by (rewrite Hclock; lia).
        apply Hbefore. lia.
      - replace (2 * S k + now w)%nat with (2 * k + now w1)%nat by (rewrite Hclock; lia).
        destruct Hstop as [Hstop| ->]; [left; exact Hstop|right; reflexivity].
      - replace (2 * S k + now w)%nat with (2 * k + now w1)%nat by (rewrite Hclock; lia).
        exact Hres.
      - rewrite Hcalls, C1. rewrite failed_attempts_snoc. reflexivity.
      - rewrite Hfs. exact F1. }
    change (2 * 0 + now w)%nat with (now w).
    destruct (DeepFace_extract_faces env (now w) (fs w !! img_path)) as [f|[|x l]] eqn:E0;
      destruct H as [-> C0]; cbn [fst snd].
    + apply (Hnext w0 F0 C0 eq_refl).
    + apply (Hnext w0 F0 C0 eq_refl).
    + exists 0%nat. split; [lia|]. split; [intros j Hj; lia|]. split.
      { left. change (2 * 0 + now w)%nat with (now w). rewrite E0. reflexivity. }
      change (2 * 0 + now w)%nat with (now w). rewrite E0.
      cbn [fst snd outcome ret]. auto.
Qed.

End RetryAnyBound.

(** X8.  [extract_faces_with_retry] for any bound.  When [max_retries] is
    not positive the detector is not called and the result is the empty
    list.  Otherwise there is an attempt [k], below the bound, such that
    the attempts before it found no face, each being followed by exactly
    one [time.sleep(1)]; attempt [k] found a face or is the last one the
    bound allows; the call returns or raises what the detector answered at
    attempt [k]; and no sleep follows that attempt. *)
Theorem retry_schedule (env : Capabilities) (img_path : string) (max_retries : Z)
    (w : State) :
  let answer n := DeepFace_extract_faces env (n + now w) (fs w !! img_path) in
  let r := extract_faces_with_retry env img_path max_retries w in
  (max_retries <= 0 -> r = (inr [], w)) /\
  (0 < max_retries ->
   exists k, Z.of_nat k < max_retries /\
     (forall j, (j < k)%nat -> found (answer (2 * j)%nat) = false) /\
     (found (answer (2 * k)%nat) = true \/ Z.of_nat k = max_retries - 1) /\
     r.1 = outcome (answer (2 * k)%nat) /\
     calls r.2 = CallExtractFaces img_path :: failed_attempts img_path k ++ calls w /\
     fs r.2 = fs w).
Proof.
  cbv zeta. unfold extract_faces_with_retry, range. split.
  - intros H. replace (Z.to_nat max_retries) with 0%nat by lia. reflexivity.
  - intros Hpos.
    destruct (Z.to_nat max_retries) as [|len] eqn:En; [lia|].
    pose proof (extract_faces_rounds_run env img_path len 0 w) as H. cbv zeta in H.
    replace (Z.of_nat (0 + S len)) with max_retries in H by lia.
    destruct H as (k & Hk & Hbefore & Hstop & Hres & Hcalls & Hfs).
    exists k. split; [lia|]. split; [exact Hbefore|]. split; [|auto].
    destruct Hstop as [Hstop| ->]; [left; exact Hstop|right; lia].
Qed.

(** With a bound of five, the detector of [Scenario.flaky_detector] is
    called four times, and three sleeps separate the calls. *)
Lemma retry_schedule_witness :
  exists k,
    calls (extract_faces_with_retry Scenario.flaky_detector "temp_0.jpg" 5
             Scenario.blank).2 =
      CallExtractFaces "temp_0.jpg" :: failed_attempts "temp_0.jpg" k ++ [] /\
    found (DeepFace_extract_faces Scenario.flaky_detector (2 * k) None) = true /\
    k = 3%nat.
Proof.
  destruct (proj2 (retry_schedule Scenario.flaky_detector "temp_0.jpg" 5 Scenario.blank))
    as (k & Hk & Hbefore & Hstop & Hres & Hcalls & Hfs); [lia|].
  exists k.
  assert (E : k = 3%nat).
  { destruct k as [|[|[|[|k]]]]; [| | |reflexivity|].
    - specialize (Hstop). destruct Hstop as [H|H]; [discriminate H|lia].
    - destruct Hstop as [H|H]; [discriminate H|lia].
    - destruct Hstop as [H|H]; [discriminate H|lia].
    - specialize (Hbefore 3%nat ltac:(lia)). discriminate Hbefore. }
  subst k. split; [exact Hcalls|]. split; reflexivity.
Defined.

(** * The matcher and the registry *)

Section Shapes.
Variable env : Capabilities.

Lemma np_subtract_mismatch a b :
  length a <> length b -> length a <> 1%nat -> length b <> 1%nat ->
  np_subtract a b = inl (ValueError, "operands could not be broadcast together").
Proof.
  intros Hab Ha Hb. unfold np_subtract.
  destruct (Nat.eqb_spec (length a) (length b)) as [E|_]; [contradiction|].
  destruct a as [|x [|x' a]]; [|simpl in Ha; lia|];
    destruct b as [|y [|y' b]]; try reflexivity; simpl in *; lia.
Qed.

Lemma euclidean_mismatch a b :
  length a <> length b -> length a <> 1%nat -> length b <> 1%nat ->
  exists f, euclidean env a b = inl f.
Proof.
  intros Hab Ha Hb. unfold euclidean. rewrite np_subtract_mismatch by assumption.
  eexists. reflexivity.
Qed.

(** A candidate whose distance is not defined makes the loop raise. *)
Lemma compare_students_mismatch objs students s : forall m acc w,
  s ∈ students ->
  (forall q more, objs = {| rep_embedding := Some q |} :: more ->
     exists f, euclidean env q (embedding s) = inl f) ->
  exists e, (compare_students env objs students m acc w).1 = inl e.
Proof.
  induction students as [|s0 rest IH]; intros m acc w Hin Hbad.
  - inversion Hin.
  - cbn [compare_students]. unfold bind.
    destruct objs as [|[[q|]] more]; try (eexists; reflexivity).
    rewrite first_embedding_run, norm_of_difference_run.
    destruct (euclidean env q (embedding s0)) as [f|d] eqn:Hd; [eexists; reflexivity|].
    cbn [outcome].
    apply elem_of_cons in Hin as [->|Hin].
    + destruct (Hbad q more eq_refl) as [f Hf]. congruence.
    + destruct (PrimFloat.ltb d m && PrimFloat.ltb d threshold); apply IH; assumption.
Qed.

(** A finite number minus itself is zero. *)
Lemma sub_diag x : finite x -> PrimFloat.sub x x = 0%float.
Proof.
  unfold finite, is_finite, is_nan, is_infinity.
  rewrite !FloatAxioms.eqb_spec, abs_spec. intros H.
  rewrite <- (SF2Prim_Prim2SF (PrimFloat.sub x x)), sub_spec.
  destruct (Prim2SF x) as [s|s| |s m e].
  - destruct s; reflexivity.
  - destruct s; vm_compute in H; discriminate H.
  - vm_compute in H. discriminate H.
  - unfold SF64sub, SFsub. rewrite Z.sub_diag. reflexivity.
Qed.

Lemma zip_with_sub_diag q :
  Forall finite q -> zip_with PrimFloat.sub q q = replicate (length q) 0%float.
Proof.
  induction 1 as [|x q Hx _ IH]; [reflexivity|].
  cbn [zip_with length replicate]. rewrite (sub_diag x Hx), IH. reflexivity.
Qed.

Lemma np_linalg_norm_zero n : np_linalg_norm env (replicate n 0%float) = 0%float.
Proof. unfold np_linalg_norm. rewrite blas_ddot_zeros. reflexivity. Qed.

(** The distance of a vector of finite numbers to itself is zero. *)
Lemma euclidean_diag q : Forall finite q -> euclidean env q q = inr 0%float.
Proof.
  intros H. unfold euclidean, np_subtract. rewrite Nat.eqb_refl.
  rewrite (zip_with_sub_diag q H), np_linalg_norm_zero. reflexivity.
Qed.

End Shapes.

Section Matching.
Variable env : Capabilities.

(** A face is matched only if the model answered and the matcher ran to
    its end on that answer. *)
Lemma process_single_face_matched f idx students w id :
  (process_single_face env f idx students w).1 = inr (Some id) ->
  exists n c objs w3,
    DeepFace_represent env n c = inr objs /\
    (match_students env objs students w3).1 = inr (Some id).
Proof.
  unfold process_single_face, bind, uuid4 at 1, bind, record, ret. cbn [fst snd].
  rewrite try_finally_result by apply cleanup_face_returns.
  unfold process_single_face_try, try_except.
  match goal with |- context [embed_and_match env ?p f students ?w0] =>
    destruct (embed_and_match env p f students w0) as [[e|r] w1] eqn:E end.
  - cbn [fst snd]. unfold bind, logger, ret. cbn [fst snd]. discriminate.
  - cbn [fst snd]. intros [= ->]. unfold embed_and_match in E.
    apply bind_inr in E as (b & w2 & _ & E).
    apply bind_inr in E as (objs & w3 & Hrep & E).
    unfold represent, bind, record, lift in Hrep. cbn [fst snd] in Hrep.
    match type of Hrep with context [DeepFace_represent env ?n ?c] =>
      exists n, c, objs, w3; destruct (DeepFace_represent env n c) as [x|objs'] end;
      [discriminate Hrep|].
    cbn [outcome] in Hrep. injection Hrep as -> _. rewrite E. auto.
Qed.

Lemma face_results_none students faces :
  (forall f idx w, (process_single_face env f idx students w).1 = inr None) ->
  forall idx w, matched_ids (face_results env students idx faces w) = [].
Proof.
  intros Hnone. induction faces as [|f rest IH]; intros idx w; [reflexivity|].
  cbn [face_results matched_ids flat_map]. rewrite Hnone. cbn [recorded app].
  apply IH.
Qed.

Lemma matched_ids_truthy results :
  Forall (fun id => truthy id = true) (matched_ids results).
Proof.
  induction results as [|r rest IH]; [constructor|].
  cbn [matched_ids flat_map]. apply Forall_app. split; [|exact IH].
  destruct r as [id|]; [|constructor].
  destruct (truthy id) eqn:E; repeat constructor. exact E.
Qed.

(** The loop computes at most one distance per candidate, calls nothing
    else, and leaves the files alone. *)
Lemma compare_students_calls objs students : forall m acc w,
  exists k, (k <= length students)%nat /\
    calls (compare_students env objs students m acc w).2 = replicate k CallNorm ++ calls w /\
    fs (compare_students env objs students m acc w).2 = fs w.
Proof.
  induction students as [|s rest IH]; intros m acc w.
  - exists 0%nat. split; [simpl; lia|split; reflexivity].
  - cbn [compare_students]. unfold bind.
    destruct objs as [|[[q|]] more];
      try (exists 0%nat; split; [simpl; lia|split; reflexivity]).
    rewrite first_embedding_run, norm_of_difference_run.
    destruct (euclidean env q (embedding s)) as [f|d]; cbn [outcome].
    + exists 1%nat. split; [simpl; lia|split; reflexivity].
    + destruct (PrimFloat.ltb d m && PrimFloat.ltb d threshold);
        match goal with |- context [compare_students env _ rest ?m0 ?a0 ?w0] =>
          destruct (IH m0 a0 w0) as (k & Hk & Hc & Hf) end;
        exists (S k); (split; [simpl; lia|]); rewrite Hc, Hf; simpl;
        rewrite replicate_shift; split; reflexivity.
Qed.

(** [os.remove] is called on the crop file exactly when the file is
    there. *)
Lemma cleanup_face_calls path w :
  calls (cleanup_face env path w).2 =
    (if bool_decide (is_Some (fs w !! path)) then [CallRemove path] else []) ++ calls w.
Proof.
  unfold cleanup_face, bind, os_path_exists. cbn [fst snd].
  destruct (bool_decide (is_Some (fs w !! path))).
  - apply remove_or_warn_attempts.
  - reflexivity.
Qed.

End Matching.

(** X9.  A query that is the embedding of a registered student, all its
    numbers finite, is matched whenever every candidate has a shape the
    distance is defined for: the matcher returns the identity of a
    candidate at distance zero from the query, never "unmatched". *)
Theorem enrolled_embedding_is_matched (env : Capabilities) (q : list float)
    (more : list Representation) (students : list Student) (s : Student) (w : State) :
  Forall finite q -> s ∈ students -> embedding s = q ->
  Forall (fun s' => exists d, euclidean env q (embedding s') = inr d) students ->
  exists s' d, s' ∈ students /\
    (match_students env ({| rep_embedding := Some q |} :: more) students w).1
      = inr (Some (studentId s')) /\
    euclidean env q (embedding s') = inr d /\ PrimFloat.leb d 0 = true.
Proof.
  intros Hq Hin Hs Hall.
  pose proof (euclidean_diag env q Hq) as H0. rewrite <- Hs in H0 at 2.
  unfold match_students.
  destruct (compare_students_selects env q more students Hall infinity None w)
    as (res & Hres & [[-> Hnone]|(i & s' & d & (Hi & Hd & Hmin & _) & -> & _ & Hthr)]).
  - specialize (Hnone s 0%float Hin H0). discriminate Hnone.
  - exists s', d. split; [apply (list_elem_of_lookup_2 _ _ _ Hi)|].
    split; [exact Hres|]. split; [exact Hd|].
    apply FloatOrder.ltb_false_leb.
    + reflexivity.
    + apply (FloatOrder.ltb_not_nan _ _ Hthr).
    + apply (Hmin s 0%float Hin H0).
Qed.

Lemma enrolled_embedding_is_matched_witness :
  exists s' d, s' ∈ Scenario.registry /\
    (match_students Scenario.three_faces [ {| rep_embedding := Some Scenario.v2 |} ]
       Scenario.registry Scenario.blank).1 = inr (Some (studentId s')) /\
    euclidean Scenario.three_faces Scenario.v2 (embedding s') = inr d /\
    PrimFloat.leb d 0 = true.
Proof.
  apply (enrolled_embedding_is_matched Scenario.three_faces Scenario.v2 []
           Scenario.registry
           {| studentId := "S2"; embedding := Scenario.v2 |} Scenario.blank).
  - repeat constructor.
  - right. left.
  - reflexivity.
  - repeat constructor; eexists; reflexivity.
Defined.

(** X10.  One document of the registry whose embedding has another
    length than the embeddings of the model (neither length being one,
    which [numpy] broadcasts) makes the subtraction raise for every face:
    no face of the image is recognized, although the other documents are
    well formed. *)
Theorem malformed_registry_entry_hides_everyone (env : Capabilities) (dim : nat)
    (students : list Student) (s : Student) (faces : list Face) (w : State) :
  (forall n crop q more,
     DeepFace_represent env n crop = inr ({| rep_embedding := Some q |} :: more) ->
     length q = dim) ->
  s ∈ students ->
  length (embedding s) <> dim -> length (embedding s) <> 1%nat -> dim <> 1%nat ->
  (recognize_detected env students faces w).1 = inr [].
Proof.
  intros Hdim Hin Hs Hs1 Hd1.
  destruct (recognize_detected_results env students faces w) as (w0 & _ & _ & _ & ->).
  f_equal. apply face_results_none. intros f idx w1.
  destruct (process_single_face_returns env f idx students w1) as [[id|] Hm];
    [|exact Hm].
  exfalso.
  apply process_single_face_matched in Hm as (n & c & objs & w3 & Hrep & Hm).
  destruct (compare_students_mismatch env objs students s infinity None w3 Hin)
    as [e He].
  - intros q more ->. apply euclidean_mismatch.
    + rewrite (Hdim n c q more Hrep). auto.
    + rewrite (Hdim n c q more Hrep). exact Hd1.
    + exact Hs1.
  - unfold match_students in Hm. rewrite He in Hm. discriminate.
Qed.

(** With the document "S3" nobody is recognized; without it both faces
    are. *)
Lemma malformed_registry_entry_hides_everyone_witness :
  (recognize_detected Faults.plane Faults.mixed_registry
     [Scenario.crop_a; Scenario.crop_b] Scenario.blank).1 = inr [] /\
  (recognize_detected Faults.plane Scenario.registry
     [Scenario.crop_a; Scenario.crop_b] Scenario.blank).1 = inr ["S1"; "S1"].
Proof.
  split; [|vm_compute; reflexivity].
  apply (malformed_registry_entry_hides_everyone Faults.plane 2
           Faults.mixed_registry
           {| studentId := "S3"; embedding := [0%float; 0%float; 0%float] |}).
  - intros n crop q more [= <-]. reflexivity.
  - right. left.
  - simpl. lia.
  - simpl. lia.
  - lia.
Defined.

(** X11.  The candidates at the threshold or beyond do not influence the
    match: the matcher answers on the whole registry what it answers on the
    candidates below the threshold alone, provided every distance is
    defined.  For a candidate of the dimension of the query, to be below
    the threshold is for its Euclidean distance to the query to be
    [< 0.6]. *)
Theorem candidates_beyond_threshold_are_irrelevant (env : Capabilities)
    (q : list float) (more : list Representation) (students : list Student)
    (w w' : State) :
  Forall (fun s => exists d, euclidean env q (embedding s) = inr d) students ->
  (match_students env ({| rep_embedding := Some q |} :: more) students w).1 =
  (match_students env ({| rep_embedding := Some q |} :: more)
     (List.filter (within_threshold env q) students) w').1 /\
  (forall s, length (embedding s) = length q ->
     within_threshold env q s =
       PrimFloat.ltb
         (PrimFloat.sqrt (blas_ddot env (zip_with PrimFloat.sub q (embedding s))
                                        (zip_with PrimFloat.sub q (embedding s))))
         threshold).
Proof.
  intros Hall. split.
  - revert Hall. unfold match_students. generalize infinity (@None string).
    revert w w'.
    induction students as [|s rest IH]; intros w w' m acc Hall; [reflexivity|].
    apply Forall_cons in Hall as [[d Hd] Hall].
    rewrite (compare_students_step env _ q more s rest m acc w d eq_refl Hd).
    cbn [List.filter]. unfold within_threshold at 1. rewrite Hd.
    destruct (PrimFloat.ltb d threshold) eqn:Hdt.
    + rewrite (compare_students_step env _ q more s _ m acc w' d eq_refl Hd), Hdt.
      destruct (PrimFloat.ltb d m); cbn [andb]; apply IH, Hall.
    + rewrite andb_false_r. apply IH, Hall.
  - intros s Hs. unfold within_threshold.
    rewrite (euclidean_same_length env q (embedding s) Hs). reflexivity.
Qed.

Lemma candidates_beyond_threshold_are_irrelevant_witness :
  (match_students Scenario.three_faces Scenario.at_the_origin Scenario.registry
     Scenario.blank).1 =
  (match_students Scenario.three_faces Scenario.at_the_origin
     [ {| studentId := "S1"; embedding := Scenario.v1 |} ] Scenario.blank).1.
Proof.
  apply (proj1 (candidates_beyond_threshold_are_irrelevant Scenario.three_faces
                  [0%float; 0%float] [] Scenario.registry Scenario.blank Scenario.blank
                  ltac:(repeat constructor; eexists; reflexivity))).
Defined.

(** X12.  No identity in the result of [recognize_faces] is the empty
    string: a face whose match is a document with an empty [studentId] is
    reported as not recognized. *)
Theorem recognized_ids_are_not_empty (env : Capabilities)
    (image_bytes : list Byte.byte) (w : State) (ids : list string) (w' : State) :
  recognize_faces env image_bytes w = (inr ids, w') ->
  Forall (fun id => id <> "") ids.
Proof.
  intros H.
  apply recognize_faces_inr in H as (students & w1 & _ & _ & _ & _ & Hids).
  destruct Hids as [->|(img & path & faces & w2 & w3 & _ & _ & _ & ->)]; [constructor|].
  eapply Forall_impl; [apply matched_ids_truthy|].
  intros id Ht ->. discriminate Ht.
Qed.

(** Two of the three faces match the document without a name; only the
    third face is reported. *)
Lemma recognized_ids_are_not_empty_witness :
  Forall (fun id => id <> "") ["S2"].
Proof.
  apply (recognized_ids_are_not_empty Faults.unnamed Scenario.photo
           Scenario.blank ["S2"]
           (recognize_faces Faults.unnamed Scenario.photo Scenario.blank).2).
  vm_compute. reflexivity.
Defined.

(** X13.  The external calls [process_single_face] makes for one face,
    whatever fails.  It draws a name and writes the crop.  It calls the
    embedding model exactly when the write did not raise, once, on the crop
    file.  It computes at most one distance per registered student, and
    none unless the model answered.  Last, it calls [os.remove] on the crop
    file exactly when that file exists, once.  Nothing else is called. *)
Theorem process_single_face_protocol (env : Capabilities) (f : Face) (idx : Z)
    (students : list Student) (w : State) :
  let face_path := face_path_of (uuid4_hex env (now w)) idx in
  let written := cv2_imwrite env (S (now w)) face_path (face f) in
  let files := match written with
               | inr true => <[face_path := face f]> (fs w)
               | _ => fs w
               end in
  let answer := DeepFace_represent env (S (S (now w))) (files !! face_path) in
  exists embed k removal,
    calls (process_single_face env f idx students w).2 =
      removal ++ replicate k CallNorm ++ embed
        ++ [CallImwrite face_path; CallUuid4] ++ calls w /\
    embed = (match written with
             | inl _ => []
             | inr _ => [CallRepresent face_path]
             end) /\
    (k <= length students)%nat /\
    (k <> 0%nat -> exists b objs, written = inr b /\ answer = inr objs) /\
    removal = (if bool_decide (is_Some (files !! face_path))
               then [CallRemove face_path] else []).
Proof.
  cbv zeta. set (face_path := face_path_of (uuid4_hex env (now w)) idx).
  unfold process_single_face, bind at 1, uuid4 at 1, bind, record, ret. cbn [fst snd].
  fold face_path.
  set (w0 := {| fs := fs w; log := log w; calls := CallUuid4 :: calls w;
                temp_img_path := temp_img_path w |}).
  change (S (now w)) with (now w0).
  rewrite try_finally_state, cleanup_face_calls.
  set (written := cv2_imwrite env (now w0) face_path (face f)).
  set (files := match written with
                | inr true => <[face_path := face f]> (fs w)
                | _ => fs w
                end).
  assert (Hbody : exists embed k wt,
    (process_single_face_try env face_path f idx students w0).2 = wt /\
    calls wt =
      replicate k CallNorm ++ embed ++ [CallImwrite face_path; CallUuid4] ++ calls w /\
    fs wt = files /\
    embed = (match written with
             | inl _ => []
             | inr _ => [CallRepresent face_path]
             end) /\
    (k <= length students)%nat /\
    (k <> 0%nat -> exists b objs, written = inr b /\
       DeepFace_represent env (S (now w0)) (files !! face_path) = inr objs)).
  { unfold process_single_face_try, try_except, embed_and_match, bind at 1.
    assert (Hw : exists r w1, imwrite env face_path (face f) w0 = (r, w1) /\
                   calls w1 = CallImwrite face_path :: calls w0 /\ fs w1 = files /\
                   (match r with inl _ => exists e, written = inl e
                               | inr _ => exists b, written = inr b end)).
    { unfold imwrite, files. fold written.
      destruct written as [x|[]]; eexists; eexists;
        (split; [reflexivity|split; [reflexivity|split; [reflexivity|eexists; reflexivity]]]). }
    destruct Hw as (r & w1 & -> & Hc1 & Hf1 & Hr). destruct r as [e|b].
    - destruct Hr as [e0 Hr]. exists [], 0%nat. eexists. split; [reflexivity|].
      rewrite Hr. unfold bind, logger, ret. cbn [fst snd calls fs].
      split; [exact Hc1|]. split; [exact Hf1|]. split; [reflexivity|].
      split; [lia|]. intros H. destruct (H eq_refl).
    - destruct Hr as [b0 Hr]. unfold bind at 1.
      assert (Hrep : represent env face_path w1 =
                (outcome (DeepFace_represent env (S (now w0)) (files !! face_path)),
                 {| fs := fs w1; log := log w1;
                    calls := CallRepresent face_path :: calls w1;
                    temp_img_path := temp_img_path w1 |})).
      { unfold represent, bind, record, lift. cbn [fst snd].
        unfold now at 1. rewrite Hc1, Hf1. reflexivity. }
      rewrite Hrep.
      destruct (DeepFace_represent env (S (now w0)) (files !! face_path))
        as [x|objs] eqn:Eans; cbn [outcome].
      + exists [CallRepresent face_path], 0%nat. eexists. split; [reflexivity|].
        rewrite Hr. unfold bind, logger, ret. cbn [fst snd calls fs]. rewrite Hc1.
        split; [reflexivity|]. split; [exact Hf1|]. split; [reflexivity|].
        split; [lia|]. intros H. destruct (H eq_refl).
      + unfold match_students.
        match goal with |- context [compare_students env objs students infinity None ?w2] =>
          destruct (compare_students_calls env objs students infinity None w2)
            as (k & Hk & Hc & Hf);
          destruct (compare_students env objs students infinity None w2) as [[e|m] w3]
        end;
          exists [CallRepresent face_path], k; eexists; (split; [reflexivity|]);
          rewrite Hr; unfold bind, logger, ret; cbn [fst snd calls fs] in Hc, Hf |- *;
          rewrite Hc, Hf, Hc1;
          (split; [reflexivity|]); (split; [exact Hf1|]); (split; [reflexivity|]);
          (split; [exact Hk|]); intros _; exists b0, objs; auto. }
  destruct Hbody as (embed & k & wt & -> & Hc & Hf & Hembed & Hk & Hans).
  rewrite Hf, Hc.
  exists embed, k,
    (if bool_decide (is_Some (files !! face_path)) then [CallRemove face_path] else []).
  split; [reflexivity|]. split; [exact Hembed|]. split; [exact Hk|].
  split; [exact Hans|reflexivity].
Qed.

(** In the world [Scenario.three_faces] the crop of a face is written,
    embedded, compared with the two registered students and removed. *)
Lemma process_single_face_protocol_witness :
  exists k,
    calls (process_single_face Scenario.three_faces Scenario.crop_a 0 Scenario.registry
             Scenario.blank).2 =
      [CallRemove "temp_face_0_0.jpg"] ++ replicate k CallNorm
        ++ [CallRepresent "temp_face_0_0.jpg"]
        ++ [CallImwrite "temp_face_0_0.jpg"; CallUuid4] ++ [] /\
    (k <= 2)%nat.
Proof.
  destruct (process_single_face_protocol Scenario.three_faces Scenario.crop_a 0
              Scenario.registry Scenario.blank)
    as (embed & k & removal & Hcalls & Hembed & Hk & Hans & Hremoval).
  exists k. split; [|exact Hk].
  rewrite Hcalls, Hembed, Hremoval. reflexivity.
Defined.

(** * The shape of the resized image *)

Lemma all_from_spec p : forall n start m,
  all_from start n p = true -> start <= m < start + Z.of_nat n -> p m = true.
Proof.
  induction n as [|n IH]; intros start m H Hm; [lia|].
  cbn [all_from] in H. apply andb_prop in H as [H0 H].
  destruct (Z.eq_dec m start) as [->|Hne]; [exact H0|].
  apply (IH (start + 1)); [exact H|lia].
Qed.

(** Every side from 1201 to 65535, one by one. *)
Lemma longer_side_checked : all_from 1201 (Z.to_nat 64335) longer_side_ok = true.
Proof. vm_compute. reflexivity. Qed.

(** X14.  An image whose longer side exceeds [max_dimension], and is at
    most 65535, is resized, and the longer side of the shape handed to
    [cv2.resize] is 1200 or 1199: the product of the side by the rounded
    quotient [1200 / side] can fall just below 1200, and [int] truncates
    it. *)
Theorem resize_longer_side (height width : Z) :
  max_dimension < Z.max height width <= 65535 ->
  needs_resize height width = true /\
  forall new_width new_height,
    resized_shape height width = Some (new_width, new_height) ->
    let longer := if width <=? height then new_height else new_width in
    longer = 1199 \/ longer = 1200.
Proof.
  intros Hm. split.
  - unfold needs_resize. apply orb_true_iff.
    destruct (Z.max_spec height width) as [[_ E]|[_ E]]; rewrite E in Hm;
      [right|left]; apply Z.ltb_lt; lia.
  - intros new_width new_height. unfold resized_shape.
    assert (Hok : longer_side_ok (Z.max height width) = true).
    { apply (all_from_spec _ _ _ _ longer_side_checked). unfold max_dimension in Hm. lia. }
    unfold longer_side_ok in Hok.
    destruct (Z.leb_spec width height) as [Hle|Hlt]; cbv zeta.
    + rewrite Z.max_l in Hok |- * by lia.
      destruct (scaled width height) as [nw|]; [|discriminate].
      destruct (scaled height height) as [nh|]; [|discriminate].
      intros [= <- <-]. apply orb_true_iff in Hok as [H|H]; apply Z.eqb_eq in H; auto.
    + rewrite Z.max_r in Hok |- * by lia.
      destruct (scaled width width) as [nw|]; [|discriminate].
      destruct (scaled height width) as [nh|]; [|discriminate].
      intros [= <- <-]. apply orb_true_iff in Hok as [H|H]; apply Z.eqb_eq in H; auto.
Qed.

(** An image of 2191 rows and 1000 columns is resized to 1199 rows, and
    one of 4000 rows to 1200. *)
Lemma resize_longer_side_witness :
  resized_shape 2191 1000 = Some (547, 1199) /\
  resized_shape 4000 3000 = Some (900, 1200) /\
  (1199 = 1199 \/ 1199 = 1200).
Proof.
  split; [reflexivity|]. split; [reflexivity|].
  apply (proj2 (resize_longer_side 2191 1000 ltac:(unfold max_dimension; lia))
           547 1199 eq_refl).
Defined.

(** * Warnings *)

#[local] Instance appends_preorder : PreOrder appends.
Proof.
  split.
  - intros w. exists []. rewrite app_nil_r. reflexivity.
  - intros w1 w2 w3 [a1 E1] [a2 E2]. exists (a1 ++ a2).
    rewrite E2, E1, app_assoc. reflexivity.
Qed.

Lemma appends_same_log w w' : log w' = log w -> appends w w'.
Proof. intros H. exists []. rewrite app_nil_r. exact H. Qed.

Lemma appends_then_warned w w1 w2 : appends w w1 -> warned w1 w2 -> warned w w2.
Proof.
  intros [a E1] (before & msg & after & E2).
  exists (a ++ before), msg, after. rewrite E2, E1, <- !app_assoc. reflexivity.
Qed.

Lemma warned_then_appends w w1 w2 : warned w w1 -> appends w1 w2 -> warned w w2.
Proof.
  intros (before & msg & after & E1) [a E2].
  exists before, msg, (after ++ a). rewrite E2, E1, <- !app_assoc. reflexivity.
Qed.

Section Log.
Variable env : Capabilities.

Lemma logger_appends l msg : always appends (logger l msg).
Proof. intros w. exists [(l, msg)]. reflexivity. Qed.

Lemma logger_warned msg w : warned w (logger WARNING msg w).2.
Proof. exists [], msg, []. reflexivity. Qed.

Lemma set_temp_img_path_appends p : always appends (set_temp_img_path p).
Proof. intros w. apply appends_same_log. reflexivity. Qed.

Lemma get_temp_img_path_appends : always appends get_temp_img_path.
Proof. intros w. reflexivity. Qed.

Lemma os_path_exists_appends path : always appends (os_path_exists path).
Proof. intros w. reflexivity. Qed.

Lemma record_appends c : always appends (record c).
Proof. intros w. apply appends_same_log. reflexivity. Qed.

Lemma uuid4_appends : always appends (uuid4 env).
Proof. intros w. apply appends_same_log. reflexivity. Qed.

Lemma imwrite_appends path img : always appends (imwrite env path img).
Proof.
  intros w. apply appends_same_log. unfold imwrite.
  destruct (cv2_imwrite env (now w) path img) as [f|[]]; reflexivity.
Qed.

Lemma remove_file_appends path : always appends (remove_file env path).
Proof.
  intros w. apply appends_same_log. unfold remove_file.
  destruct (os_remove env (now w) path); reflexivity.
Qed.

Lemma extract_faces_appends path : always appends (extract_faces env path).
Proof. intros w. apply appends_same_log. rewrite extract_faces_run. reflexivity. Qed.

Lemma represent_appends path : always appends (represent env path).
Proof.
  intros w. apply appends_same_log. reflexivity.
Qed.

Lemma norm_of_difference_appends a b : always appends (norm_of_difference env a b).
Proof. intros w. apply appends_same_log. rewrite norm_of_difference_run. reflexivity. Qed.

Lemma sleep_appends n : always appends (sleep n).
Proof. apply record_appends. Qed.

Lemma find_students_appends : always appends (find_students env).
Proof.
  intros w. apply appends_same_log. reflexivity.
Qed.

End Log.

#[local] Hint Resolve logger_appends set_temp_img_path_appends get_temp_img_path_appends
  os_path_exists_appends record_appends uuid4_appends imwrite_appends remove_file_appends
  extract_faces_appends represent_appends norm_of_difference_appends sleep_appends
  find_students_appends : runs.

Section Warnings.
Variable env : Capabilities.

Lemma extract_faces_with_retry_appends path n :
  always appends (extract_faces_with_retry env path n).
Proof.
  unfold extract_faces_with_retry. generalize (range n) as attempts.
  induction attempts as [|attempt rest IH]; simpl.
  - runs.
  - unfold extract_faces_attempt. runs.
Qed.

Lemma save_and_detect_appends img : always appends (save_and_detect env img).
Proof. unfold save_and_detect. runs. apply extract_faces_with_retry_appends. Qed.

Lemma cleanup_face_appends path : always appends (cleanup_face env path).
Proof. unfold cleanup_face, remove_or_warn. runs. Qed.

Lemma cleanup_temp_img_appends : always appends (cleanup_temp_img env).
Proof. unfold cleanup_temp_img, remove_or_warn. runs. Qed.

Lemma compare_students_appends objs students m id :
  always appends (compare_students env objs students m id).
Proof.
  revert m id. induction students as [|s rest IH]; intros m id; simpl.
  - runs.
  - unfold first_embedding. runs.
Qed.

Lemma process_single_face_appends f idx students :
  always appends (process_single_face env f idx students).
Proof.
  unfold process_single_face, process_single_face_try, embed_and_match, match_students.
  runs.
  - apply compare_students_appends.
  - apply cleanup_face_appends.
Qed.

Lemma recognize_loop_appends students idx faces acc :
  always appends (recognize_loop env students idx faces acc).
Proof.
  revert idx acc. induction faces as [|f rest IH]; intros idx acc; simpl.
  - runs.
  - runs. apply process_single_face_appends.
Qed.

Lemma get_all_embeddings_appends : always appends (get_all_embeddings env).
Proof. unfold get_all_embeddings. runs. Qed.

End Warnings.

(** X15.  An empty result of [recognize_faces] is never silent: whenever
    the call returns the empty list, it wrote a warning to the log, be it
    that nobody is registered, that no face was detected, or that no
    detected face was recognized. *)
Theorem empty_result_is_explained (env : Capabilities) (image_bytes : list Byte.byte)
    (w w' : State) :
  recognize_faces env image_bytes w = (inr [], w') -> warned w w'.
Proof.
  unfold recognize_faces, bind at 1. cbn [set_temp_img_path fst snd].
  set (w0 := {| fs := fs w; log := log w; calls := calls w; temp_img_path := None |}).
  intros H.
  assert (Hr : (recognize_faces_try env image_bytes w0).1 = inr []).
  { rewrite <- (try_finally_result _ (cleanup_temp_img env))
      by apply cleanup_temp_img_returns.
    rewrite H. reflexivity. }
  assert (Hw : w' = (cleanup_temp_img env (recognize_faces_try env image_bytes w0).2).2).
  { rewrite <- try_finally_state, H. reflexivity. }
  destruct (recognize_faces_try env image_bytes w0) as [r wt] eqn:Et.
  cbn [fst snd] in Hr, Hw. subst r.
  assert (Hbody : warned w0 wt); [|subst w'; eapply warned_then_appends;
    [exact Hbody|apply cleanup_temp_img_appends]].
  unfold recognize_faces_try in Et.
  apply try_except_inr in Et; [|intros e w1; eexists; reflexivity].
  apply bind_inr in Et as (img & wa & Hdp & Et).
  apply decode_and_preprocess_inr in Hdp as [-> _].
  apply bind_inr in Et as (students & w1 & Hg & Et).
  assert (H01 : appends w0 w1).
  { pose proof (get_all_embeddings_appends env w0) as Ha. rewrite Hg in Ha. exact Ha. }
  apply (appends_then_warned _ _ _ H01).
  destruct students as [|s students].
  - unfold bind, logger, ret in Et. cbn [fst snd] in Et. injection Et as <-.
    apply logger_warned.
  - apply bind_inr in Et as ([path faces] & w2 & Hsd & Et). cbn [fst snd] in Et.
    assert (H12 : appends w1 w2).
    { pose proof (save_and_detect_appends env img w1) as Ha. rewrite Hsd in Ha. exact Ha. }
    apply (appends_then_warned _ _ _ H12).
    destruct faces as [|f faces].
    + unfold bind, logger, ret in Et. cbn [fst snd] in Et. injection Et as <-.
      apply logger_warned.
    + unfold recognize_detected in Et.
      apply bind_inr in Et as ([] & w3 & Hinfo & Et).
      assert (H23 : appends w2 w3).
      { pose proof (logger_appends INFO
          ("Detected " +:+ pretty (Z.of_nat (length (f :: faces))) +:+ " faces in image")
          w2) as Ha. rewrite Hinfo in Ha. exact Ha. }
      apply (appends_then_warned _ _ _ H23).
      apply bind_inr in Et as (recognized & w4 & Hloop & Et).
      assert (H34 : appends w3 w4).
      { pose proof (recognize_loop_appends env (s :: students) 0 (f :: faces) [] w3) as Ha.
        rewrite Hloop in Ha. exact Ha. }
      apply (appends_then_warned _ _ _ H34).
      destruct recognized as [|id ids].
      * unfold bind, logger, ret in Et. cbn [fst snd] in Et. injection Et as <-.
        apply logger_warned.
      * unfold bind, ret in Et. cbn [fst snd] in Et. discriminate Et.
Qed.

(** Nobody is registered: the empty answer comes with a warning. *)
Lemma empty_result_is_explained_witness :
  warned Scenario.blank
    (recognize_faces Scenario.empty_registry Scenario.photo Scenario.blank).2.
Proof.
  apply (empty_result_is_explained Scenario.empty_registry Scenario.photo).
  vm_compute. reflexivity.
Defined.
